(** * Numinix: mastery and progress analytics

    A shallow embedding of the analytics core of the Numinix learning
    platform:

    - [services/progressTrackingService.ts]: attempt recording, concept
      mastery upserts, learning-path planning, progress-report aggregates;
    - [services/diagnosticService.ts] (two revisions, one calling Gemini
      directly and one calling a Groq proxy): diagnostic classification and
      the recommendation fallback.

    Conventions of the embedding.

    - JavaScript numbers that hold counts, seconds, minutes or days are
      integers and are modelled by [Z]; numbers obtained by a division
      (percentages, mastery levels) are modelled by exact rationals [Q], so a
      comparison such as [percentage >= 80] is the comparison of the exact
      quotients.  IEEE rounding of doubles is not modelled.
    - Strings are [string], the bytes of their UTF-8 encoding; template
      literals are concatenations.
    - Arrays are lists, [push] appends at the end, [forEach] is a left fold
      that threads the variables the callback assigns.
    - Optional fields ([chapter_id?: string]) are [option]; a JavaScript
      truthiness test on them is written out ([truthy]).
    - The Supabase tables are an explicit store threaded through a small
      state-and-exception monad; every store call may fail, as decided by a
      fault script carried in the store. *)

From Stdlib Require Import Ascii QArith Qminmax Qround Lia Lqa.
From stdpp Require Import gmap strings list pretty.

Local Open Scope string_scope.
Local Open Scope list_scope.
Local Open Scope Z_scope.

(** ** JavaScript array and number helpers *)

(** [arr.push(x)] *)
Definition push {A : Type} (arr : list A) (x : A) : list A := arr ++ [x].

(** [arr.forEach(x => body)] where [body] updates the captured state [s]. *)
Definition forEach {A St : Type} (arr : list A) (body : St → A → St) (s : St) : St :=
  fold_left body arr s.

(** [arr.length] as a JavaScript number. *)
Definition jslength {A : Type} (arr : list A) : Z := Z.of_nat (length arr).

(** [x < y] and [x >= y] on numbers. *)
Definition Qltb (x y : Q) : bool := negb (Qle_bool y x).
Definition Qgeb (x y : Q) : bool := Qle_bool y x.

(** ** Data model (progressTrackingService.ts) *)

Inductive difficulty_level_t := beginner | intermediate | advanced.

Record ChapterDiagnostic := {
  cd_user_id : string;
  cd_chapter_id : string;
  total_questions : Z;
  correct_answers : Z;
  score_percentage : Q;
  time_taken_minutes : Z;
  strengths : list string;
  weaknesses : list string;
  knowledge_gaps : list string;
  prerequisite_concepts : list string;
  difficulty_level : difficulty_level_t;
  raw_responses : string
}.

(** ** LearningPathPlanner *)

(** [generateLearningSequence], lines 353-376. *)
Definition generateLearningSequence (diagnostic : ChapterDiagnostic) : list string :=
  let sequence : list string := [] in
  let sequence :=
    if 0 <? jslength (knowledge_gaps diagnostic) then
      let sequence := push sequence "Review Prerequisites" in
      forEach (prerequisite_concepts diagnostic)
        (λ sequence concept, push sequence ("Master: " +:+ concept)) sequence
    else sequence in
  let sequence :=
    forEach (weaknesses diagnostic)
      (λ sequence weakness,
         let sequence := push sequence ("Focus on: " +:+ weakness) in
         push sequence ("Practice: " +:+ weakness +:+ " Problems")) sequence in
  let sequence := push sequence "Core Chapter Concepts" in
  let sequence := push sequence "Advanced Applications" in
  let sequence := push sequence "Chapter Assessment" in
  sequence.

(** [estimateCompletionTime], lines 379-393. *)
Definition estimateCompletionTime (diagnostic : ChapterDiagnostic) : Z :=
  let baseDays := 7 in
  let baseDays := baseDays + jslength (weaknesses diagnostic) * 2 in
  let baseDays := baseDays + jslength (knowledge_gaps diagnostic) * 3 in
  let baseDays :=
    if Qltb (score_percentage diagnostic) 30 then baseDays + 5
    else if Qltb (score_percentage diagnostic) 60 then baseDays + 3
    else baseDays in
  Z.min baseDays 21.

(** ** Exceptions

    A computation that can throw returns an [outcome]; [try { .. } catch]
    is [try_catch]. *)

Inductive exn :=
  | DbError (code : string)   (* the [error] object of a Supabase reply *)
  | FetchError                (* [fetch] rejected: network failure *)
  | SyntaxError               (* [JSON.parse] or [response.json()] failed *)
  | TypeError.                (* a method called on a value that lacks it *)

Inductive outcome (A : Type) :=
  | Returned (a : A)
  | Thrown (e : exn).
Global Arguments Returned {A} a.
Global Arguments Thrown {A} e.

Definition try_catch {A : Type} (body : outcome A) (handler : exn → outcome A) : outcome A :=
  match body with
  | Returned a => Returned a
  | Thrown e => handler e
  end.

(** ** The store: Supabase tables behind a state-and-exception monad *)

Inductive question_type_t := qt_diagnostic | qt_quiz | qt_practice.
Inductive difficulty_t := easy | medium | hard.

Record QuestionAttempt := {
  qa_user_id : string;
  qa_question_id : string;
  qa_question_text : string;
  qa_question_type : question_type_t;
  qa_chapter_id : option string;
  qa_topic : option string;
  qa_concept : option string;
  qa_difficulty : difficulty_t;
  qa_user_answer : string;
  qa_correct_answer : string;
  is_correct : bool;
  time_taken_seconds : Z;
  hints_used : Z;
  qa_attempts_count : Z;
  confidence_level : Z;
  qa_session_id : option string
}.

(** A row of [concept_mastery].  The table declares
    [UNIQUE(user_id, chapter_id, concept)], so it is modelled as a finite map
    from that triple to the remaining columns of the row. *)
Record ConceptMastery := {
  mastery_level : Q;
  attempts_count : Z;
  correct_attempts : Z;
  last_practiced_at : Z;
  time_to_master_minutes : Z
}.

(** Successful writes, in the order the store applied them. *)
Inductive write_event :=
  | AttemptInserted (attempt : QuestionAttempt)
  | MasteryInserted (key : string * string * string)
  | MasteryUpdated (key : string * string * string).

Record store := {
  question_attempts : list QuestionAttempt;
  concept_mastery : gmap (string * string * string) ConceptMastery;
  writes : list write_event;
  (** the wall clock read by [new Date()] *)
  clock : Z;
  (** whether each of the coming store calls fails ([true]) or is served;
      once the script is used up every call is served *)
  faults : list bool
}.

Definition M (A : Type) : Type := store → outcome A * store.

Global Instance M_ret : MRet M := λ A a σ, (Returned a, σ).

Global Instance M_bind : MBind M := λ A B k m σ,
  match m σ with
  | (Returned a, σ') => k a σ'
  | (Thrown e, σ') => (Thrown e, σ')
  end.

Definition throw {A : Type} (e : exn) : M A := λ σ, (Thrown e, σ).

(** [try { body } catch (error) { handler }]: what the body wrote to the
    store before it threw stays written. *)
Definition try_catchM {A : Type} (body : M A) (handler : exn → M A) : M A :=
  λ σ, match body σ with
       | (Returned a, σ') => (Returned a, σ')
       | (Thrown e, σ') => handler e σ'
       end.

(** Consume one entry of the fault script. *)
Definition call_fails : M bool :=
  λ σ, match faults σ with
       | [] => (Returned false, σ)
       | b :: rest =>
           (Returned b,
            {| question_attempts := question_attempts σ;
               concept_mastery := concept_mastery σ;
               writes := writes σ;
               clock := clock σ;
               faults := rest |})
       end.

(** [new Date()] *)
Definition Date_now : M Z := λ σ, (Returned (clock σ), σ).

(** [supabase.from('question_attempts').insert(attempt)]; the reply's
    [error] field. *)
Definition insert_question_attempt (attempt : QuestionAttempt) : M (option exn) :=
  failed ← call_fails;
  if failed : bool then mret (Some (DbError "unavailable"))
  else λ σ,
    (Returned None,
     {| question_attempts := push (question_attempts σ) attempt;
        concept_mastery := concept_mastery σ;
        writes := push (writes σ) (AttemptInserted attempt);
        clock := clock σ;
        faults := faults σ |}).

(** [supabase.from('concept_mastery').select('*').eq(..).eq(..).eq(..).single()];
    the reply's [data] field, [null] when no row matches or the call fails. *)
Definition select_concept_mastery (key : string * string * string)
  : M (option ConceptMastery) :=
  failed ← call_fails;
  if failed : bool then mret None
  else λ σ, (Returned (concept_mastery σ !! key), σ).

(** [supabase.from('concept_mastery').update({..}).eq('id', existing.id)]
    for the row read under [key]. *)
Definition update_concept_mastery (key : string * string * string)
    (row : ConceptMastery) : M (option exn) :=
  failed ← call_fails;
  if failed : bool then mret (Some (DbError "unavailable"))
  else λ σ,
    match concept_mastery σ !! key with
    | None => (Returned None, σ)
    | Some _ =>
        (Returned None,
         {| question_attempts := question_attempts σ;
            concept_mastery := <[key := row]> (concept_mastery σ);
            writes := push (writes σ) (MasteryUpdated key);
            clock := clock σ;
            faults := faults σ |})
    end.

(** [supabase.from('concept_mastery').insert({..})]; the unique constraint
    rejects a second row for the same triple (Postgres code 23505). *)
Definition insert_concept_mastery (key : string * string * string)
    (row : ConceptMastery) : M (option exn) :=
  failed ← call_fails;
  if failed : bool then mret (Some (DbError "unavailable"))
  else λ σ,
    match concept_mastery σ !! key with
    | Some _ => (Returned (Some (DbError "23505")), σ)
    | None =>
        (Returned None,
         {| question_attempts := question_attempts σ;
            concept_mastery := <[key := row]> (concept_mastery σ);
            writes := push (writes σ) (MasteryInserted key);
            clock := clock σ;
            faults := faults σ |})
    end.

(** [if (error) throw error] *)
Definition throw_if_error (error : option exn) : M unit :=
  match error with
  | Some e => throw e
  | None => mret tt
  end.

(** ** MasteryUpdater *)

(** [updateConceptMastery], lines 188-244. *)
Definition updateConceptMastery (userId chapterId concept : string)
    (isCorrect : bool) (timeSpent : Z) : M unit :=
  try_catchM
    (existing ← select_concept_mastery (userId, chapterId, concept);
     match existing with
     | Some existing =>
         let newAttemptsCount := attempts_count existing + 1 in
         let newCorrectAttempts :=
           correct_attempts existing + (if isCorrect then 1 else 0) in
         let newMasteryLevel :=
           Qmin 1 (inject_Z newCorrectAttempts / inject_Z newAttemptsCount) in
         now ← Date_now;
         error ← update_concept_mastery (userId, chapterId, concept)
           {| attempts_count := newAttemptsCount;
              correct_attempts := newCorrectAttempts;
              mastery_level := newMasteryLevel;
              last_practiced_at := now;
              time_to_master_minutes :=
                time_to_master_minutes existing + timeSpent `div` 60 |};
         throw_if_error error
     | None =>
         now ← Date_now;
         error ← insert_concept_mastery (userId, chapterId, concept)
           {| mastery_level := if isCorrect then 1 else 0;
              attempts_count := 1;
              correct_attempts := if isCorrect then 1 else 0;
              last_practiced_at := now;
              time_to_master_minutes := timeSpent `div` 60 |};
         throw_if_error error
     end)
    (λ error, throw error).

(** ** AttemptRecorder *)

(** Truthiness of an optional string: [undefined] and the empty string are falsy. *)
Definition truthy (s : option string) : bool :=
  match s with
  | Some s => negb (String.eqb s EmptyString)
  | None => false
  end.

(** [recordQuestionAttempt], lines 104-126. *)
Definition recordQuestionAttempt (attempt : QuestionAttempt) : M unit :=
  try_catchM
    (error ← insert_question_attempt attempt;
     throw_if_error error;;
     if truthy (qa_concept attempt) && truthy (qa_chapter_id attempt) then
       updateConceptMastery
         (qa_user_id attempt)
         (default EmptyString (qa_chapter_id attempt))
         (default EmptyString (qa_concept attempt))
         (is_correct attempt)
         (time_taken_seconds attempt)
     else mret tt)
    (λ error, throw error).

(** Calls of [updateConceptMastery] issued one after the other; a caller
    that sees a call throw goes on with the next one.  The result pairs every
    call with how it ended. *)
Record mastery_call := {
  mc_user : string;
  mc_chapter : string;
  mc_concept : string;
  mc_correct : bool;
  mc_seconds : Z
}.

Definition mc_key (c : mastery_call) : string * string * string :=
  (mc_user c, mc_chapter c, mc_concept c).

Fixpoint run_updates (calls : list mastery_call) (σ : store)
  : list (mastery_call * outcome unit) * store :=
  match calls with
  | [] => ([], σ)
  | c :: calls =>
      let '(r, σ1) :=
        updateConceptMastery (mc_user c) (mc_chapter c) (mc_concept c)
          (mc_correct c) (mc_seconds c) σ in
      let '(rs, σ2) := run_updates calls σ1 in
      ((c, r) :: rs, σ2)
  end.

(** ** ProgressReportBuilder: aggregates *)

Inductive session_type_t := st_study | st_quiz | st_diagnostic | st_practice.
Inductive report_type_t := daily | weekly | monthly | chapter.

Record StudySession := {
  ss_user_id : string;
  session_type : session_type_t;
  ss_chapter_id : option string;
  ss_topic : option string;
  started_at : Z;
  ended_at : option Z;
  (** a nullable integer column *)
  duration_minutes : option Z;
  ss_questions_attempted : Z;
  ss_questions_correct : Z;
  concepts_covered : list string;
  session_data : string
}.

Record ProgressReport := {
  pr_user_id : string;
  report_type : report_type_t;
  pr_chapter_id : option string;
  overall_progress : Q;
  time_spent_minutes : Z;
  questions_attempted : Z;
  accuracy_percentage : Q;
  concepts_mastered : list string
}.

(** [x || 0] on a number: [0] stays [0], everything else stays itself. *)
Definition or_zero (x : Z) : Z := if x =? 0 then 0 else x.

(** [calculateOverallProgress], lines 541-546. *)
Definition calculateOverallProgress
    (masteryData : list (string * string * string * ConceptMastery)) : Q :=
  if jslength masteryData =? 0 then 0%Q
  else
    let totalMastery :=
      fold_left (λ sum m, (sum + mastery_level m.2)%Q) masteryData 0%Q in
    ((totalMastery / inject_Z (jslength masteryData)) * 100)%Q.

(** The metrics of [generateProgressReport], lines 443-446. [attempts] and
    [sessions] are the [data] fields of the two window queries, [null] when
    a query failed. *)
Definition totalAttempts_of (attempts : option (list QuestionAttempt)) : Z :=
  or_zero (from_option jslength 0 attempts).

Definition correctAttempts_of (attempts : option (list QuestionAttempt)) : Z :=
  or_zero (from_option (λ a, jslength (filter (λ x, is_correct x = true) a)) 0 attempts).

Definition accuracyPercentage_of (attempts : option (list QuestionAttempt)) : Q :=
  let totalAttempts := totalAttempts_of attempts in
  let correctAttempts := correctAttempts_of attempts in
  if 0 <? totalAttempts
  then ((inject_Z correctAttempts / inject_Z totalAttempts) * 100)%Q
  else 0%Q.

Definition totalTimeSpent_of (sessions : option (list StudySession)) : Z :=
  or_zero
    (from_option
       (λ s, fold_left (λ sum s, sum + default 0 (duration_minutes s)) s 0)
       0 sessions).

(** The [report] object of [generateProgressReport], lines 471-491,
    restricted to the fields computed without the generation oracle. *)
Definition assembleProgressReport (userId : string) (reportType : report_type_t)
    (chapterId : option string)
    (attempts : option (list QuestionAttempt))
    (sessions : option (list StudySession))
    (mastery : option (list (string * string * string * ConceptMastery)))
  : ProgressReport :=
  let masteredConcepts :=
    from_option
      (λ m, map (λ m, m.1.2)
              (filter (λ m, Qgeb (mastery_level m.2) (8 # 10) = true) m))
      [] mastery in
  {| pr_user_id := userId;
     report_type := reportType;
     pr_chapter_id := chapterId;
     overall_progress := calculateOverallProgress (default [] mastery);
     time_spent_minutes := totalTimeSpent_of sessions;
     questions_attempted := totalAttempts_of attempts;
     accuracy_percentage := accuracyPercentage_of attempts;
     concepts_mastered := masteredConcepts |}.

(** ** DiagnosticAnalyzer (diagnosticService.ts, both revisions) *)

Record DiagnosticQuestion := {
  dq_id : string;
  dq_question : string;
  dq_options : list string;
  dq_correct_answer : string;
  dq_explanation : string;
  dq_difficulty : difficulty_t;
  topic : string;
  concept : string
}.

(** An element of the [answers] argument. *)
Record DiagnosticAnswer := {
  questionId : string;
  answer : string;
  correct : bool
}.

(** [{ correct: number; total: number }] *)
Record tally := {
  t_correct : Z;
  t_total : Z
}.

(** The property names that every object inherits from [Object.prototype].
    Read on a dictionary [{}], such a key gives the inherited value, which
    counts as true: [if (!obj[key])] then makes no entry of its own, and
    [Object.entries] lists none. *)
Definition inherited_names : list string :=
  ["constructor"; "__defineGetter__"; "__defineSetter__"; "hasOwnProperty";
   "__lookupGetter__"; "__lookupSetter__"; "isPrototypeOf";
   "propertyIsEnumerable"; "toString"; "valueOf"; "__proto__"; "toLocaleString"].

(** A label under which a dictionary holds an entry of its own. *)
Definition own_label (label : string) : Prop := label ∉ inherited_names.

(** An object used as a dictionary, [{ [key: string]: V }]: its own keys in
    insertion order, which is the order [Object.entries] lists them in.
    This is the object as the code sees it under keys that are [own_label]s.
    (Keys that spell an array index are listed first by JavaScript; the
    properties below speak of what is listed, not of the order among such
    keys.) *)
Fixpoint obj_get {V : Type} (obj : list (string * V)) (key : string) : option V :=
  match obj with
  | [] => None
  | (k, v) :: obj => if String.eqb k key then Some v else obj_get obj key
  end.

(** [obj[key] = v] *)
Fixpoint obj_set {V : Type} (obj : list (string * V)) (key : string) (v : V)
  : list (string * V) :=
  match obj with
  | [] => [(key, v)]
  | (k, v') :: obj =>
      if String.eqb k key then (k, v) :: obj else (k, v') :: obj_set obj key v
  end.

(** A field update on the object stored under [key], as in
    [obj[key].total++]. *)
Definition obj_modify {V : Type} (obj : list (string * V)) (key : string)
    (f : V → V) : list (string * V) :=
  match obj_get obj key with
  | Some v => obj_set obj key (f v)
  | None => obj
  end.

(** [arr.forEach((x, index) => body)] *)
Fixpoint forEach_indexed {A St : Type} (arr : list A) (body : St → A → nat → St)
    (index : nat) (s : St) : St :=
  match arr with
  | [] => s
  | x :: arr => forEach_indexed arr body (S index) (body s x index)
  end.

(** The four statements that track one dictionary in the loop body,
    lines 133-138 (topics) and 140-145 (concepts). *)
Definition track (scores : list (string * tally)) (key : string)
    (is_correct : bool) : list (string * tally) :=
  let scores :=
    if obj_get scores key is Some _ then scores
    else obj_set scores key {| t_correct := 0; t_total := 0 |} in
  let scores :=
    obj_modify scores key
      (λ t, {| t_correct := t_correct t; t_total := t_total t + 1 |}) in
  if is_correct then
    obj_modify scores key
      (λ t, {| t_correct := t_correct t + 1; t_total := t_total t |})
  else scores.

(** The [answers.forEach] loop, lines 129-146; the result is
    [(topicScores, conceptScores)]. *)
Definition tallyScores (answers : list DiagnosticAnswer)
    (questions : list DiagnosticQuestion)
  : list (string * tally) * list (string * tally) :=
  forEach_indexed answers
    (λ '(topicScores, conceptScores) answer index,
       match questions !! index with
       | None => (topicScores, conceptScores)
       | Some question =>
           (track topicScores (topic question) (correct answer),
            track conceptScores (concept question) (correct answer))
       end)
    0%nat ([], []).

(** [(scores.correct / scores.total) * 100] *)
Definition percentage_of (scores : tally) : Q :=
  (inject_Z (t_correct scores) / inject_Z (t_total scores)) * 100.

(** The callback of the [Object.entries(topicScores).forEach] loop, lines
    153-166, on the three arrays it pushes to. *)
Definition classify_entry (acc : list string * list string * list string)
    (entry : string * tally) : list string * list string * list string :=
  let '(strengths, weaknesses, gaps) := acc in
  let '(topic, scores) := entry in
  let percentage := percentage_of scores in
  let '(strengths, weaknesses) :=
    if Qgeb percentage 80 then (push strengths topic, weaknesses)
    else if Qgeb percentage 50 then (strengths, weaknesses)
    else (strengths, push weaknesses topic) in
  let gaps := if Qltb percentage 30 then push gaps topic else gaps in
  (strengths, weaknesses, gaps).

(** The loop itself; the result is [(strengths, weaknesses, gaps)]. *)
Definition classifyTopics (topicScores : list (string * tally))
  : list string * list string * list string :=
  forEach topicScores classify_entry ([], [], []).

(** *** The generation oracle and JSON values *)

#[local] Unset Elimination Schemes.
Inductive json :=
  | JNull
  | JBool (b : bool)
  | JNumber (q : Q)
  | JString (s : string)
  | JArray (items : list json)
  | JObject (props : list (string * json)).
#[local] Set Elimination Schemes.

Global Instance outcome_ret : MRet outcome := λ A a, Returned a.

Global Instance outcome_bind : MBind outcome := λ A B k m,
  match m with
  | Returned a => k a
  | Thrown e => Thrown e
  end.

(** A value read out of a reply is an [option json], [None] being
    [undefined].  [v?.name], for the property names the services read:
    primitives and arrays have no such property. *)
Definition prop (name : string) (v : option json) : option json :=
  match v with
  | Some (JObject props) => obj_get props name
  | _ => None
  end.

(** [v?.[0]] *)
Definition at0 (v : option json) : option json :=
  match v with
  | Some (JArray items) => head items
  | Some (JObject props) => obj_get props "0"
  | Some (JString (String c _)) => Some (JString (String c EmptyString))
  | _ => None
  end.

(** Truthiness of a value in an [if]. *)
Definition truthy_json (v : option json) : bool :=
  match v with
  | None | Some JNull => false
  | Some (JBool b) => b
  | Some (JNumber q) => negb (Qeq_bool q 0)
  | Some (JString s) => negb (String.eqb s EmptyString)
  | Some (JArray _) | Some (JObject _) => true
  end.

(** The white space that [String.prototype.trim] and [\s] remove: the
    characters 9 to 13 and 32, which [Ascii.is_space] tests, and U+00A0,
    U+1680, U+2000 to U+200A, U+2028, U+2029, U+202F, U+205F, U+3000 and
    U+FEFF.  A string is the sequence of the bytes of its UTF-8 encoding, in
    which U+00A0 is the two bytes 194 160 and the others take three. *)
Definition white2 (a b : ascii) : bool :=
  Ascii.eqb a "194" && Ascii.eqb b "160".

Definition white3 (a b c : ascii) : bool :=
  (Ascii.eqb a "225" && Ascii.eqb b "154" && Ascii.eqb c "128")
  || (Ascii.eqb a "226" && Ascii.eqb b "128"
      && ((128 <=? N_of_ascii c)%N && (N_of_ascii c <=? 138)%N
          || Ascii.eqb c "168" || Ascii.eqb c "169" || Ascii.eqb c "175"))
  || (Ascii.eqb a "226" && Ascii.eqb b "129" && Ascii.eqb c "159")
  || (Ascii.eqb a "227" && Ascii.eqb b "128" && Ascii.eqb c "128")
  || (Ascii.eqb a "239" && Ascii.eqb b "187" && Ascii.eqb c "191").

(** The same two tests on bytes read from the end of a string. *)
Definition white2_back (a b : ascii) : bool := white2 b a.

Definition white3_back (a b c : ascii) : bool := white3 c b a.

(** [s] without the white space it starts with, [w2] and [w3] telling the
    characters of two and of three bytes. *)
Fixpoint strip_white (w2 : ascii → ascii → bool) (w3 : ascii → ascii → ascii → bool)
    (s : string) : string :=
  match s with
  | EmptyString => EmptyString
  | String a rest =>
      if Ascii.is_space a then strip_white w2 w3 rest
      else
        match rest with
        | EmptyString => s
        | String b rest2 =>
            if w2 a b then strip_white w2 w3 rest2
            else
              match rest2 with
              | EmptyString => s
              | String c rest3 =>
                  if w3 a b c then strip_white w2 w3 rest3 else s
              end
        end
  end.

(** [s.trimStart()], and [s.replace(/^\s*/, '')]. *)
Definition trimStart (s : string) : string := strip_white white2 white3 s.

(** [s.trimEnd()]: the white space is stripped from the reversed string. *)
Definition trimEnd (s : string) : string :=
  String.rev (strip_white white2_back white3_back (String.rev s)).

(** [s.trim()] on a string. *)
Definition trim (s : string) : string := trimEnd (trimStart s).

(** [v.trim()] on a truthy value: only strings have the method. *)
Definition call_trim (v : option json) : outcome string :=
  match v with
  | Some (JString s) => Returned (trim s)
  | _ => Thrown TypeError
  end.

Fixpoint indexOf_from (s : string) (c : ascii) (i : nat) : Z :=
  match s with
  | EmptyString => -1
  | String a rest => if Ascii.eqb a c then Z.of_nat i else indexOf_from rest c (S i)
  end.

(** [s.indexOf(c)] for a one-character [c]. *)
Definition indexOf (s : string) (c : ascii) : Z := indexOf_from s c 0.

Fixpoint lastIndexOf_from (s : string) (c : ascii) (i : nat) (found : Z) : Z :=
  match s with
  | EmptyString => found
  | String a rest =>
      lastIndexOf_from rest c (S i) (if Ascii.eqb a c then Z.of_nat i else found)
  end.

(** [s.lastIndexOf(c)] for a one-character [c]. *)
Definition lastIndexOf (s : string) (c : ascii) : Z := lastIndexOf_from s c 0 (-1).

(** [s.substring(from, to)] for [0 <= from <= to]. *)
Definition substring (s : string) (from to : Z) : string :=
  String.substring (Z.to_nat from) (Z.to_nat (to - from)) s.

Definition lower (c : ascii) : ascii :=
  let n := nat_of_ascii c in
  if ((65 <=? n) && (n <=? 90))%nat then ascii_of_nat (n + 32) else c.

(** The rest of [s] after the prefix [p], compared without regard to case. *)
Fixpoint strip_prefix_ci (p s : string) : option string :=
  match p, s with
  | EmptyString, _ => Some s
  | String a p, String b s =>
      if Ascii.eqb (lower a) (lower b) then strip_prefix_ci p s else None
  | String _ _, EmptyString => None
  end.

(** [s.replace(/^<fence>\s*/i, '')] *)
Definition replace_leading (fence s : string) : string :=
  match strip_prefix_ci fence s with
  | Some rest => trimStart rest
  | None => s
  end.

(** [s.replace(/<fence>$/i, '')] *)
Definition replace_trailing (fence s : string) : string :=
  match strip_prefix_ci (String.rev fence) (String.rev s) with
  | Some rest => String.rev rest
  | None => s
  end.

(** What [fetch] resolves to: [response.ok] and the result of
    [response.json()], which rejects on a body that is not JSON. *)
Record response := {
  ok : bool;
  body_json : outcome json
}.

(** The emoji of the fallback texts; the two revisions store them in
    different encodings. *)
Record emoji := {
  party : string;
  books : string;
  biceps : string;
  star : string;
  rocket : string
}.

(** The emoji as the Gemini revision spells them. *)
Definition emoji_gemini : emoji :=
  {| party := "🎉"; books := "📚"; biceps := "💪"; star := "🌟"; rocket := "🚀" |}.

(** The same five as stored in the Groq revision. *)
Definition emoji_groq : emoji :=
  {| party := "ðŸŽ‰"; books := "ðŸ“š"; biceps := "ðŸ’ª"; star := "ðŸŒŸ"; rocket := "ðŸš€" |}.

(** The fallback list, lines 243-258 (Gemini revision) and 397-412 (Groq
    revision). *)
Definition fallbackRecommendations (e : emoji)
    (strengths weaknesses : list string) (score totalQuestions : Z) : list string :=
  let fallbackRecommendations :=
    [ "You scored " +:+ pretty score +:+ "/" +:+ pretty totalQuestions +:+ "! "
        +:+ party e +:+ " Every step forward is progress.";
      "Focus on daily practice - even 15 minutes makes a difference! " +:+ books e;
      "Don't worry about mistakes - they're stepping stones to success! " +:+ biceps e ] in
  let fallbackRecommendations :=
    if 0 <? jslength strengths then
      push fallbackRecommendations
        ("You're doing great with " +:+ default "undefined" (head strengths)
           +:+ "! " +:+ star e +:+ " Keep it up!")
    else fallbackRecommendations in
  let fallbackRecommendations :=
    if 0 <? jslength weaknesses then
      push fallbackRecommendations
        ("Let's work on " +:+ default "undefined" (head weaknesses)
           +:+ " together - you've got this! " +:+ rocket e)
    else fallbackRecommendations in
  fallbackRecommendations.

Record DiagnosticResult := {
  dr_id : string;
  dr_user_id : string;
  dr_score : Z;
  dr_total_questions : Z;
  dr_strengths : list string;
  dr_weaknesses : list string;
  dr_gaps : list string;
  dr_recommendations : list json;
  dr_completed_at : Z
}.

Section Oracle.

(** [JSON.parse]; it throws a [SyntaxError] on text that is not JSON. *)
Variable JSON_parse : string → outcome json.

(** [generateRecommendations] of the Groq revision, lines 326-413.  [reply]
    is what the [fetch] of the prompt settles to.  The [try] block yields
    [Some] array when it reaches its [return]. *)
Definition generateRecommendations (e : emoji)
    (strengths weaknesses gaps : list string) (score totalQuestions : Z)
    (reply : outcome response) : outcome (list json) :=
  returned ←
    try_catch
      (response ← reply;
       if ok response then
         data ← body_json response;
         let content := prop "content" (prop "message" (at0 (prop "choices" (Some data)))) in
         if truthy_json content then
           text ← call_trim content;
           let firstBracket := indexOf text "[" in
           let lastBracket := lastIndexOf text "]" in
           if negb (firstBracket =? -1) && negb (lastBracket =? -1)
              && (firstBracket <? lastBracket) then
             let jsonString := substring text firstBracket (lastBracket + 1) in
             try_catch
               (recommendations ← JSON_parse jsonString;
                match recommendations with
                | JArray items => Returned (Some items)
                | _ => Returned None
                end)
               (λ parseError, Returned None)
           else Returned None
         else Returned None
       else Returned None)
      (λ error, Returned None);
  match returned with
  | Some recommendations => Returned recommendations
  | None =>
      Returned (JString <$> fallbackRecommendations e strengths weaknesses score totalQuestions)
  end.

(** [generateRecommendations] of the Gemini revision, lines 184-259. *)
Definition generateRecommendations_gemini (e : emoji)
    (strengths weaknesses gaps : list string) (score totalQuestions : Z)
    (reply : outcome response) : outcome (list json) :=
  returned ←
    try_catch
      (response ← reply;
       data ← body_json response;
       let text :=
         prop "text" (at0 (prop "parts" (prop "content"
           (at0 (prop "candidates" (Some data)))))) in
       if truthy_json text then
         text ← call_trim text;
         let text :=
           trim (replace_trailing "```"
                   (replace_leading "```"
                      (replace_leading "```json" text))) in
         recommendations ← JSON_parse text;
         match recommendations with
         | JArray items => Returned (Some items)
         | _ => Returned None
         end
       else Returned None)
      (λ error, Returned None);
  match returned with
  | Some recommendations => Returned recommendations
  | None =>
      Returned (JString <$> fallbackRecommendations e strengths weaknesses score totalQuestions)
  end.

(** [analyzeDiagnosticResults], lines 118-182 (Gemini revision) and
    260-324 (Groq revision); the two differ in the [generateRecommendations]
    they call.  [now] is the clock read by [Date.now()]. *)
Definition analyzeDiagnosticResults_with
    (generateRecommendations :
       list string → list string → list string → Z → Z → outcome (list json))
    (answers : list DiagnosticAnswer) (questions : list DiagnosticQuestion)
    (now : Z) : outcome DiagnosticResult :=
  let score := jslength (filter (λ a, correct a = true) answers) in
  let totalQuestions := jslength questions in
  let '(topicScores, conceptScores) := tallyScores answers questions in
  let '(strengths, weaknesses, gaps) := classifyTopics topicScores in
  recommendations ←
    generateRecommendations strengths weaknesses gaps score totalQuestions;
  Returned
    {| dr_id := pretty now;
       dr_user_id := EmptyString;
       dr_score := score;
       dr_total_questions := totalQuestions;
       dr_strengths := strengths;
       dr_weaknesses := weaknesses;
       dr_gaps := gaps;
       dr_recommendations := recommendations;
       dr_completed_at := now |}.

Definition analyzeDiagnosticResults (e : emoji)
    (answers : list DiagnosticAnswer) (questions : list DiagnosticQuestion)
    (reply : outcome response) (now : Z) : outcome DiagnosticResult :=
  analyzeDiagnosticResults_with
    (λ strengths weaknesses gaps score totalQuestions,
       generateRecommendations e strengths weaknesses gaps score totalQuestions reply)
    answers questions now.

Definition analyzeDiagnosticResults_gemini (e : emoji)
    (answers : list DiagnosticAnswer) (questions : list DiagnosticQuestion)
    (reply : outcome response) (now : Z) : outcome DiagnosticResult :=
  analyzeDiagnosticResults_with
    (λ strengths weaknesses gaps score totalQuestions,
       generateRecommendations_gemini e strengths weaknesses gaps score totalQuestions reply)
    answers questions now.

End Oracle.

(** The service as either revision runs it. *)
Inductive revision := Gemini | Groq.

Definition emoji_of (rev : revision) : emoji :=
  match rev with
  | Gemini => emoji_gemini
  | Groq => emoji_groq
  end.

Definition analyze (JSON_parse : string → outcome json) (rev : revision)
    (answers : list DiagnosticAnswer) (questions : list DiagnosticQuestion)
    (reply : outcome response) (now : Z) : outcome DiagnosticResult :=
  match rev with
  | Gemini => analyzeDiagnosticResults_gemini JSON_parse emoji_gemini answers questions reply now
  | Groq => analyzeDiagnosticResults JSON_parse emoji_groq answers questions reply now
  end.

(** ** Reference notions the properties are stated with *)

(** The three closing steps every learning sequence ends with. *)
Definition closing_steps : list string :=
  ["Core Chapter Concepts"; "Advanced Applications"; "Chapter Assessment"].

(** The two steps planned for one weakness. *)
Definition weakness_steps (weakness : string) : list string :=
  ["Focus on: " +:+ weakness; "Practice: " +:+ weakness +:+ " Problems"].

(** Every outcome with the question it is paired with: the one at the same
    position of the bank. *)
Definition paired (answers : list DiagnosticAnswer)
    (questions : list DiagnosticQuestion)
  : list (DiagnosticAnswer * DiagnosticQuestion) :=
  zip answers questions.

(** How many paired outcomes fall on topic [t], and how many of them are
    correct. *)
Definition topic_total (t : string) (answers : list DiagnosticAnswer)
    (questions : list DiagnosticQuestion) : Z :=
  jslength (filter (λ p, topic p.2 = t) (paired answers questions)).

Definition topic_correct (t : string) (answers : list DiagnosticAnswer)
    (questions : list DiagnosticQuestion) : Z :=
  jslength (filter (λ p, topic p.2 = t ∧ correct p.1 = true)
              (paired answers questions)).

(** The accuracy of a topic, in percent. *)
Definition topic_accuracy (t : string) (answers : list DiagnosticAnswer)
    (questions : list DiagnosticQuestion) : Q :=
  (inject_Z (topic_correct t answers questions)
   / inject_Z (topic_total t answers questions)) * 100.

(** One turn of the tallying loop on an outcome and its question. *)
Definition tally_step (scores : list (string * tally) * list (string * tally))
    (p : DiagnosticAnswer * DiagnosticQuestion)
  : list (string * tally) * list (string * tally) :=
  (track scores.1 (topic p.2) (correct p.1),
   track scores.2 (concept p.2) (correct p.1)).

(** The tally a topic must end up with after the pairs [l]: none when no
    pair falls on it. *)
Definition tally_of (t : string) (l : list (DiagnosticAnswer * DiagnosticQuestion))
  : option tally :=
  let total := jslength (filter (λ p, topic p.2 = t) l) in
  if decide (total = 0) then None
  else Some {| t_correct := jslength (filter (λ p, topic p.2 = t ∧ correct p.1 = true) l);
               t_total := total |}.

(** Two answer lists that differ at most in their [questionId] fields. *)
Definition same_up_to_questionId (answers answers' : list DiagnosticAnswer) : Prop :=
  Forall2 (λ a a', answer a = answer a' ∧ correct a = correct a') answers answers'.

(** The row [updateConceptMastery] leaves behind when it succeeds, from the
    row it found. *)
Definition next_row (existing : option ConceptMastery) (isCorrect : bool)
    (timeSpent now : Z) : ConceptMastery :=
  match existing with
  | Some existing =>
      {| mastery_level :=
           Qmin 1 (inject_Z (correct_attempts existing + (if isCorrect then 1 else 0))
                   / inject_Z (attempts_count existing + 1));
         attempts_count := attempts_count existing + 1;
         correct_attempts := correct_attempts existing + (if isCorrect then 1 else 0);
         last_practiced_at := now;
         time_to_master_minutes :=
           time_to_master_minutes existing + timeSpent `div` 60 |}
  | None =>
      {| mastery_level := if isCorrect then 1 else 0;
         attempts_count := 1;
         correct_attempts := if isCorrect then 1 else 0;
         last_practiced_at := now;
         time_to_master_minutes := timeSpent `div` 60 |}
  end.

Definition is_returned {A : Type} (r : outcome A) : bool :=
  match r with
  | Returned _ => true
  | Thrown _ => false
  end.

(** The calls on the triple [k] that ended without an error. *)
Definition completed_on (k : string * string * string)
    (log : list (mastery_call * outcome unit)) : list mastery_call :=
  (filter (λ cr, mc_key cr.1 = k ∧ is_returned cr.2 = true) log).*1.

(** The data-model invariant of a [concept_mastery] row. *)
Definition row_ok (row : ConceptMastery) : Prop :=
  (0 <= mastery_level row)%Q ∧ (mastery_level row <= 1)%Q ∧
  0 ≤ correct_attempts row ∧ correct_attempts row ≤ attempts_count row.

Definition mastery_ok (σ : store) : Prop :=
  ∀ k row, concept_mastery σ !! k = Some row → row_ok row.

(** The environment of the service: time passes and the store's
    availability changes. *)
Definition with_environment (now : Z) (script : list bool) (σ : store) : store :=
  {| question_attempts := question_attempts σ;
     concept_mastery := concept_mastery σ;
     writes := writes σ;
     clock := now;
     faults := script |}.

(** The stores the service can get to from an empty [concept_mastery]
    table. *)
Inductive reachable : store → Prop :=
  | reachable_init σ :
      concept_mastery σ = ∅ → reachable σ
  | reachable_environment now script σ :
      reachable σ → reachable (with_environment now script σ)
  | reachable_update userId chapterId concept isCorrect timeSpent σ :
      reachable σ →
      reachable (updateConceptMastery userId chapterId concept isCorrect timeSpent σ).2
  | reachable_record attempt σ :
      reachable σ → reachable (recordQuestionAttempt attempt σ).2.

(** A diagnostic with the given weaknesses, gaps and score. *)
Definition diagnostic_of (ws gs : list string) (s : Q) : ChapterDiagnostic :=
  {| cd_user_id := "u"; cd_chapter_id := "ch"; total_questions := 20;
     correct_answers := 0; score_percentage := s; time_taken_minutes := 10;
     strengths := []; weaknesses := ws; knowledge_gaps := gs;
     prerequisite_concepts := []; difficulty_level := beginner;
     raw_responses := "{}" |}.

(** Where each revision looks for the oracle's text in the reply:
    [data.choices[0].message.content] (Groq) and
    [data.candidates[0].content.parts[0].text] (Gemini). *)
Definition reply_text (rev : revision) (data : json) : option json :=
  match rev with
  | Groq => prop "content" (prop "message" (at0 (prop "choices" (Some data))))
  | Gemini =>
      prop "text" (at0 (prop "parts" (prop "content"
        (at0 (prop "candidates" (Some data))))))
  end.

(** The part of the oracle's text that is expected to be a JSON array: for
    Groq the substring from the first opening bracket to the last closing
    bracket of the trimmed text, if they come in this order; for Gemini the
    trimmed text without its code-fence markers. *)
Definition json_part (rev : revision) (text : string) : option string :=
  match rev with
  | Groq =>
      let text := trim text in
      let first := indexOf text "[" in
      let last := lastIndexOf text "]" in
      if decide (first ≠ -1 ∧ last ≠ -1 ∧ first < last)
      then Some (substring text first (last + 1))
      else None
  | Gemini =>
      Some (trim (replace_trailing "```"
                    (replace_leading "```"
                       (replace_leading "```json" (trim text)))))
  end.

(** The oracle call succeeds and its output parses as the JSON array
    [items]. *)
Inductive oracle_array (JSON_parse : string → outcome json) (rev : revision)
    (reply : outcome response) (items : list json) : Prop :=
  | oracle_array_intro response data text part :
      reply = Returned response →
      (rev = Groq → ok response = true) →
      body_json response = Returned data →
      reply_text rev data = Some (JString text) →
      text ≠ EmptyString →
      json_part rev text = Some part →
      JSON_parse part = Returned (JArray items) →
      oracle_array JSON_parse rev reply items.

(** [generateRecommendations] as either revision has it. *)
Definition recommend (JSON_parse : string → outcome json) (rev : revision)
    (strengths weaknesses gaps : list string) (score totalQuestions : Z)
    (reply : outcome response) : outcome (list json) :=
  match rev with
  | Gemini =>
      generateRecommendations_gemini JSON_parse emoji_gemini
        strengths weaknesses gaps score totalQuestions reply
  | Groq =>
      generateRecommendations JSON_parse emoji_groq
        strengths weaknesses gaps score totalQuestions reply
  end.

(** Sample inputs. *)
Definition sample_question (id t c : string) : DiagnosticQuestion :=
  {| dq_id := id; dq_question := "What is 2/3 + 1/4?";
     dq_options := ["5/7"; "11/12"; "3/7"; "5/12"]; dq_correct_answer := "11/12";
     dq_explanation := "8/12 + 3/12 = 11/12"; dq_difficulty := medium;
     topic := t; concept := c |}.

Definition sample_answer (id : string) (is_correct : bool) : DiagnosticAnswer :=
  {| questionId := id;
     answer := if is_correct then "11/12" else "5/7";
     correct := is_correct |}.

(** A store with empty tables that serves every call. *)
Definition empty_store : store :=
  {| question_attempts := []; concept_mastery := ∅; writes := [];
     clock := 1757588750; faults := [] |}.

Definition sample_attempt (chapter_id concept : option string) (is_correct : bool)
  : QuestionAttempt :=
  {| qa_user_id := "user-1"; qa_question_id := "q-17";
     qa_question_text := "What is 2/3 + 1/4?"; qa_question_type := qt_practice;
     qa_chapter_id := chapter_id; qa_topic := Some "Fractions";
     qa_concept := concept; qa_difficulty := medium;
     qa_user_answer := "11/12"; qa_correct_answer := "11/12";
     is_correct := is_correct; time_taken_seconds := 95; hints_used := 0;
     qa_attempts_count := 1; confidence_level := 4; qa_session_id := None |}.

(** An attempt that carries a concept and no chapter. *)
Definition attempt_without_chapter : QuestionAttempt :=
  sample_attempt None (Some "Addition of fractions") true.

Definition sample_call (concept : string) (is_correct : bool) (seconds : Z)
  : mastery_call :=
  {| mc_user := "user-1"; mc_chapter := "ch-1"; mc_concept := concept;
     mc_correct := is_correct; mc_seconds := seconds |}.

(** Three updates, two of them on one concept. *)
Definition sample_calls : list mastery_call :=
  [sample_call "Addition of fractions" true 125;
   sample_call "Simple equations" false 30;
   sample_call "Addition of fractions" false 70].

(** A reply whose text is not JSON. *)
Definition garbage_reply : outcome response :=
  Returned
    {| ok := true;
       body_json :=
         Returned
           (JObject
              [("choices",
                JArray
                  [JObject
                     [("message",
                       JObject
                         [("content",
                           JString "Sorry, I cannot help with that.")])]])]) |}.

(** A [JSON.parse] that rejects every text. *)
Definition parse_nothing (text : string) : outcome json := Thrown SyntaxError.

(** Two questions on one topic, the first answered correctly. *)
Definition half_right_answers : list DiagnosticAnswer :=
  [sample_answer "diag_1" true; sample_answer "diag_2" false].

(** The same answers under other question ids. *)
Definition relabelled_answers : list DiagnosticAnswer :=
  [sample_answer "diag_2" true; sample_answer "no-such-question" false].

Definition fractions_bank : list DiagnosticQuestion :=
  [sample_question "diag_1" "Fractions" "Addition of fractions";
   sample_question "diag_2" "Fractions" "Subtraction of fractions"].

(** A bank of two topics, and the same bank in the other order. *)
Definition two_topic_bank : list DiagnosticQuestion :=
  [sample_question "diag_1" "Fractions" "Addition of fractions";
   sample_question "diag_2" "Algebra" "Simple equations"].

Definition two_topic_bank_swapped : list DiagnosticQuestion :=
  [sample_question "diag_2" "Algebra" "Simple equations";
   sample_question "diag_1" "Fractions" "Addition of fractions"].

(** The sum of a list of integers. *)
Definition Zsum (xs : list Z) : Z := foldr Z.add 0 xs.

(** The arithmetic mean of a list of numbers. *)
Definition mean (xs : list Q) : Q :=
  foldr Qplus 0%Q xs / inject_Z (jslength xs).

(** ** Further reference notions *)

(** [x > y] on numbers. *)
Definition Qgtb (x y : Q) : bool := negb (Qle_bool x y).

(** [supabase.from('concept_mastery').select('*').eq('user_id', userId)]
    when it is served: the user's rows, in the order the store lists them. *)
Definition mastery_of_user (userId : string) (σ : store)
  : list (string * string * string * ConceptMastery) :=
  filter (λ m, m.1.1.1 = userId) (map_to_list (concept_mastery σ)).

(** Two banks with the same topic at every position. *)
Definition same_topics (questions questions' : list DiagnosticQuestion) : Prop :=
  Forall2 (λ q q', topic q = topic q') questions questions'.

(** The same bank with other concepts, ids and difficulties. *)
Definition two_topic_bank_recast : list DiagnosticQuestion :=
  [{| dq_id := "q-1"; dq_question := "What is 1/2 + 1/3?";
      dq_options := ["5/6"; "2/5"]; dq_correct_answer := "5/6";
      dq_explanation := "3/6 + 2/6 = 5/6"; dq_difficulty := hard;
      topic := "Fractions"; concept := "Common denominators" |};
   {| dq_id := "q-2"; dq_question := "If 3x = 15, what is x?";
      dq_options := ["3"; "5"]; dq_correct_answer := "5";
      dq_explanation := "x = 15 / 3"; dq_difficulty := easy;
      topic := "Algebra"; concept := "Linear equations" |}].

(** A diagnostic with more weaknesses, more gaps and a lower score than
    [diagnostic_of ["a"] [] 70]. *)
Definition harder_diagnostic : ChapterDiagnostic :=
  diagnostic_of ["a"; "b"] ["a"] 45.

(** A store holding one mastery row, whose next lookup fails. *)
Definition store_with_failing_lookup : store :=
  {| question_attempts := [];
     concept_mastery :=
       {[ ("user-1", "ch-1", "Addition of fractions") :=
            {| mastery_level := 1; attempts_count := 3; correct_attempts := 3;
               last_practiced_at := 1757588000; time_to_master_minutes := 4 |} ]};
     writes := [];
     clock := 1757588750;
     faults := [true; false] |}.

(** An empty store that serves the attempt insert and the mastery lookup
    and refuses the mastery write. *)
Definition store_refusing_mastery_write : store :=
  {| question_attempts := []; concept_mastery := ∅; writes := [];
     clock := 1757588750; faults := [false; false; true] |}.



(** An attempt carries no concept, or one with an entry of its own. *)
Definition own_concept (attempt : QuestionAttempt) : Prop :=
  from_option own_label True (qa_concept attempt).

(** ** ProgressReportBuilder: concept, difficulty and session statistics *)

(** An entry of [conceptStats]. *)
Record concept_stats := {
  cs_total : Z;
  cs_correct : Z;
  cs_accuracy : Q;
  cs_avgTime : Q;
  cs_totalTime : Z
}.

(** The callback of the first loop of [analyzeConceptPerformance], lines
    512-528. *)
Definition concept_performance_step (conceptStats : list (string * concept_stats))
    (attempt : QuestionAttempt) : list (string * concept_stats) :=
  if negb (truthy (qa_concept attempt)) then conceptStats
  else
    let concept := default EmptyString (qa_concept attempt) in
    let conceptStats :=
      if obj_get conceptStats concept is Some _ then conceptStats
      else obj_set conceptStats concept
             {| cs_total := 0; cs_correct := 0; cs_accuracy := 0;
                cs_avgTime := 0; cs_totalTime := 0 |} in
    let conceptStats :=
      obj_modify conceptStats concept
        (λ s, {| cs_total := cs_total s + 1; cs_correct := cs_correct s;
                 cs_accuracy := cs_accuracy s; cs_avgTime := cs_avgTime s;
                 cs_totalTime := cs_totalTime s |}) in
    let conceptStats :=
      if is_correct attempt then
        obj_modify conceptStats concept
          (λ s, {| cs_total := cs_total s; cs_correct := cs_correct s + 1;
                   cs_accuracy := cs_accuracy s; cs_avgTime := cs_avgTime s;
                   cs_totalTime := cs_totalTime s |})
      else conceptStats in
    obj_modify conceptStats concept
      (λ s, {| cs_total := cs_total s; cs_correct := cs_correct s;
               cs_accuracy := cs_accuracy s; cs_avgTime := cs_avgTime s;
               cs_totalTime := cs_totalTime s + time_taken_seconds attempt |}).

(** The assignments of the second loop, lines 532-534. *)
Definition concept_averages (stats : concept_stats) : concept_stats :=
  {| cs_total := cs_total stats;
     cs_correct := cs_correct stats;
     cs_accuracy := (inject_Z (cs_correct stats) / inject_Z (cs_total stats)) * 100;
     cs_avgTime := inject_Z (cs_totalTime stats) / inject_Z (cs_total stats);
     cs_totalTime := cs_totalTime stats |}.

(** [analyzeConceptPerformance], lines 509-538; the second loop runs over
    [Object.keys(conceptStats)]. *)
Definition analyzeConceptPerformance (attempts : list QuestionAttempt)
  : list (string * concept_stats) :=
  let conceptStats := forEach attempts concept_performance_step [] in
  forEach conceptStats.*1
    (λ conceptStats concept, obj_modify conceptStats concept concept_averages)
    conceptStats.

(** [strengths] and [weaknesses] of [generateProgressReport], lines
    449-455, from [attempts || []]. *)
Definition report_strengths (attempts : option (list QuestionAttempt)) : list string :=
  map fst (filter (λ e, Qgtb (cs_accuracy e.2) 80 = true)
             (analyzeConceptPerformance (default [] attempts))).

Definition report_weaknesses (attempts : option (list QuestionAttempt)) : list string :=
  map fst (filter (λ e, Qltb (cs_accuracy e.2) 60 = true)
             (analyzeConceptPerformance (default [] attempts))).

(** An entry of the [progression] object; [accuracy] is set by the second
    loop only. *)
Record difficulty_stats := {
  ds_total : Z;
  ds_correct : Z;
  ds_accuracy : option Q
}.

(** [{ easy: .., medium: .., hard: .. }] *)
Record progression := {
  p_easy : difficulty_stats;
  p_medium : difficulty_stats;
  p_hard : difficulty_stats
}.

(** [progression[difficulty]] *)
Definition progression_get (p : progression) (d : difficulty_t) : difficulty_stats :=
  match d with
  | easy => p_easy p
  | medium => p_medium p
  | hard => p_hard p
  end.

(** A field update on [progression[difficulty]]. *)
Definition progression_modify (p : progression) (d : difficulty_t)
    (f : difficulty_stats → difficulty_stats) : progression :=
  match d with
  | easy => {| p_easy := f (p_easy p); p_medium := p_medium p; p_hard := p_hard p |}
  | medium => {| p_easy := p_easy p; p_medium := f (p_medium p); p_hard := p_hard p |}
  | hard => {| p_easy := p_easy p; p_medium := p_medium p; p_hard := f (p_hard p) |}
  end.

(** The callback of the first loop of [analyzeDifficultyProgression], lines
    587-594; [progression[attempt.difficulty]] is an object for each of the
    three difficulties. *)
Definition difficulty_step (p : progression) (attempt : QuestionAttempt) : progression :=
  let p :=
    progression_modify p (qa_difficulty attempt)
      (λ s, {| ds_total := ds_total s + 1; ds_correct := ds_correct s;
               ds_accuracy := ds_accuracy s |}) in
  if is_correct attempt then
    progression_modify p (qa_difficulty attempt)
      (λ s, {| ds_total := ds_total s; ds_correct := ds_correct s + 1;
               ds_accuracy := ds_accuracy s |})
  else p.

(** The assignment of the second loop, line 599. *)
Definition difficulty_accuracy (diff : difficulty_stats) : difficulty_stats :=
  {| ds_total := ds_total diff;
     ds_correct := ds_correct diff;
     ds_accuracy :=
       Some (if 0 <? ds_total diff
             then (inject_Z (ds_correct diff) / inject_Z (ds_total diff)) * 100
             else 0)%Q |}.

(** [analyzeDifficultyProgression], lines 580-603. *)
Definition analyzeDifficultyProgression (attempts : list QuestionAttempt) : progression :=
  let zero := {| ds_total := 0; ds_correct := 0; ds_accuracy := None |} in
  let progression :=
    forEach attempts difficulty_step
      {| p_easy := zero; p_medium := zero; p_hard := zero |} in
  forEach [easy; medium; hard]
    (λ progression difficulty,
       progression_modify progression difficulty difficulty_accuracy)
    progression.

(** An entry of [breakdown.byType]. *)
Record type_stats := {
  ts_count : Z;
  ts_totalTime : Z
}.

(** An entry of [breakdown.byDay]. *)
Record day_stats := {
  day_sessions : Z;
  day_totalTime : Z
}.

Record session_breakdown := {
  byType : list (string * type_stats);
  byDay : list (string * day_stats);
  avgDuration : Q
}.

(** The value of [session.session_type]. *)
Definition session_type_name (t : session_type_t) : string :=
  match t with
  | st_study => "study"
  | st_quiz => "quiz"
  | st_diagnostic => "diagnostic"
  | st_practice => "practice"
  end.

Section SessionBreakdown.

(** [new Date(t).toDateString()]: the calendar day of an instant, in the
    time zone of the process. *)
Variable toDateString : Z → string.

(** The callback of the loop of [analyzeSessionBreakdown], lines 556-571.
    A [null] duration adds 0. *)
Definition session_breakdown_step (breakdown : session_breakdown)
    (session : StudySession) : session_breakdown :=
  let type := session_type_name (session_type session) in
  let byType := byType breakdown in
  let byType :=
    if obj_get byType type is Some _ then byType
    else obj_set byType type {| ts_count := 0; ts_totalTime := 0 |} in
  let byType :=
    obj_modify byType type
      (λ s, {| ts_count := ts_count s + 1; ts_totalTime := ts_totalTime s |}) in
  let byType :=
    obj_modify byType type
      (λ s, {| ts_count := ts_count s;
               ts_totalTime := ts_totalTime s + default 0 (duration_minutes session) |}) in
  let day := toDateString (started_at session) in
  let byDay := byDay breakdown in
  let byDay :=
    if obj_get byDay day is Some _ then byDay
    else obj_set byDay day {| day_sessions := 0; day_totalTime := 0 |} in
  let byDay :=
    obj_modify byDay day
      (λ s, {| day_sessions := day_sessions s + 1; day_totalTime := day_totalTime s |}) in
  let byDay :=
    obj_modify byDay day
      (λ s, {| day_sessions := day_sessions s;
               day_totalTime := day_totalTime s + default 0 (duration_minutes session) |}) in
  {| byType := byType; byDay := byDay; avgDuration := avgDuration breakdown |}.

(** [analyzeSessionBreakdown], lines 549-577. *)
Definition analyzeSessionBreakdown (sessions : list StudySession) : session_breakdown :=
  let breakdown :=
    forEach sessions session_breakdown_step
      {| byType := []; byDay := []; avgDuration := 0 |} in
  let totalTime :=
    fold_left (λ sum s, sum + default 0 (duration_minutes s)) sessions 0 in
  {| byType := byType breakdown;
     byDay := byDay breakdown;
     avgDuration :=
       if 0 <? jslength sessions
       then inject_Z totalTime / inject_Z (jslength sessions)
       else 0 |}.

End SessionBreakdown.

(** The attempts of a window that carry the concept [c]. *)
Definition attempts_on (c : string) (attempts : list QuestionAttempt)
  : list QuestionAttempt :=
  filter (λ a, qa_concept a = Some c) attempts.

(** The accuracy on a concept over a window, in percent. *)
Definition concept_accuracy (c : string) (attempts : list QuestionAttempt) : Q :=
  (inject_Z (jslength (filter (λ a, is_correct a = true) (attempts_on c attempts)))
   / inject_Z (jslength (attempts_on c attempts))) * 100.

(** The entry [analyzeConceptPerformance] must hold for a concept: none for
    the empty label and for a concept without attempts. *)
Definition stats_of (c : string) (attempts : list QuestionAttempt)
  : option concept_stats :=
  let mine := attempts_on c attempts in
  if decide (c = EmptyString ∨ mine = []) then None
  else
    Some {| cs_total := jslength mine;
            cs_correct := jslength (filter (λ a, is_correct a = true) mine);
            cs_accuracy := concept_accuracy c attempts;
            cs_avgTime :=
              inject_Z (Zsum (map time_taken_seconds mine)) / inject_Z (jslength mine);
            cs_totalTime := Zsum (map time_taken_seconds mine) |}.

(** What the first loop holds for a concept after the attempts [seen]. *)
Definition counted (c : string) (seen : list QuestionAttempt) : option concept_stats :=
  let mine := attempts_on c seen in
  if decide (c = EmptyString ∨ mine = []) then None
  else
    Some {| cs_total := jslength mine;
            cs_correct := jslength (filter (λ a, is_correct a = true) mine);
            cs_accuracy := 0;
            cs_avgTime := 0;
            cs_totalTime := Zsum (map time_taken_seconds mine) |}.

Global Instance difficulty_eq_dec : EqDecision difficulty_t.
Proof. solve_decision. Defined.

(** The attempts of a window at one difficulty. *)
Definition attempts_at (d : difficulty_t) (attempts : list QuestionAttempt)
  : list QuestionAttempt :=
  filter (λ a, qa_difficulty a = d) attempts.

(** [s.duration_minutes] as a summand: [null] counts as 0. *)
Definition minutes_of (s : StudySession) : Z := default 0 (duration_minutes s).

(** The statements that count one session into a dictionary of
    [(count, total time)] entries, for any record with these two fields:
    lines 558-562 with [type_stats] and 566-570 with [day_stats]. *)
Definition bucket_add {V : Type} (mk : Z → Z → V) (cnt tot : V → Z)
    (obj : list (string * V)) (key : string) (d : Z) : list (string * V) :=
  let obj :=
    if obj_get obj key is Some _ then obj else obj_set obj key (mk 0 0) in
  let obj := obj_modify obj key (λ s, mk (cnt s + 1) (tot s)) in
  obj_modify obj key (λ s, mk (cnt s) (tot s + d)).

(** The entry a dictionary of [(count, total time)] must hold under [key]
    after the elements [l], each counted under [kf x] with time [df x]. *)
Definition bucket_of {A V : Type} (mk : Z → Z → V) (kf : A → string) (df : A → Z)
    (key : string) (l : list A) : option V :=
  let mine := filter (λ x, kf x = key) l in
  if decide (mine = []) then None
  else Some (mk (jslength mine) (Zsum (map df mine))).

(** The sum of a field over the entries of a dictionary. *)
Definition dict_sum {V : Type} (g : V → Z) (obj : list (string * V)) : Z :=
  Zsum (map (λ e, g e.2) obj).

(** ** DiagnosticTestGenerator (diagnosticService.ts, both revisions) *)

(** What the body of [generateDiagnosticTest] can throw: what a callee
    threw, or [new Error(..)], whose message is only logged. *)
Inductive raised := Propagated (e : exn) | Error.

Inductive tried (A : Type) :=
  | Done (a : A)
  | Raised (r : raised).
Arguments Done {A} a.
Arguments Raised {A} r.

Global Instance tried_ret : MRet tried := λ A a, Done a.

Global Instance tried_bind : MBind tried := λ A B k m,
  match m with
  | Done a => k a
  | Raised r => Raised r
  end.

(** A call of, or an [await] on, something that may throw. *)
Definition await {A : Type} (o : outcome A) : tried A :=
  match o with
  | Returned a => Done a
  | Thrown e => Raised (Propagated e)
  end.

(** [try { body } catch (error) { handler }] around such a body. *)
Definition try_catch_raised {A : Type} (body : tried A) (handler : raised → tried A)
  : tried A :=
  match body with
  | Done a => Done a
  | Raised r => handler r
  end.

(** The characters the services look for. *)
Definition quote : ascii := "034"%char.
Definition LF : ascii := "010"%char.

(** The rest of [s] after the prefix [p]. *)
Fixpoint strip_prefix (p s : string) : option string :=
  match p, s with
  | EmptyString, _ => Some s
  | String a p, String b s => if Ascii.eqb a b then strip_prefix p s else None
  | String _ _, EmptyString => None
  end.

(** [s.startsWith(p)] and [s.endsWith(p)] *)
Definition startsWith (s p : string) : bool := bool_decide (is_Some (strip_prefix p s)).

Definition endsWith (s p : string) : bool := startsWith (String.rev s) (String.rev p).

(** [s.includes(c)] for a one-character [c]. *)
Fixpoint includes (s : string) (c : ascii) : bool :=
  match s with
  | EmptyString => false
  | String a rest => Ascii.eqb a c || includes rest c
  end.

(** [(s.match(/c/g) || []).length] for a one-character [c]. *)
Fixpoint count_char (c : ascii) (s : string) : Z :=
  match s with
  | EmptyString => 0
  | String a rest => (if Ascii.eqb a c then 1 else 0) + count_char c rest
  end.

(** [s.split(c)] for a one-character [c]. *)
Fixpoint split (s : string) (c : ascii) : list string :=
  match s with
  | EmptyString => [EmptyString]
  | String a rest =>
      if Ascii.eqb a c then EmptyString :: split rest c
      else match split rest c with
           | piece :: pieces => String a piece :: pieces
           | [] => [String a EmptyString]
           end
  end.

(** [pieces.join(sep)] *)
Definition join (pieces : list string) (sep : string) : string :=
  String.concat sep pieces.

(** [s.replace(/\n/g, ' ')] *)
Fixpoint replace_newlines (s : string) : string :=
  match s with
  | EmptyString => EmptyString
  | String a rest =>
      String (if Ascii.eqb a LF then " "%char else a) (replace_newlines rest)
  end.

(** [s] consists of characters other than the quote, then one quote, then
    the end. *)
Fixpoint closes_at_end (s : string) : bool :=
  match s with
  | EmptyString => false
  | String a rest =>
      if Ascii.eqb a quote then String.eqb rest EmptyString else closes_at_end rest
  end.

(** Whether the regular expression of line 140 finds a match in [s]: some
    quote of [s] is followed by characters other than the quote, one more
    quote, and the end. *)
Fixpoint ends_quoted (s : string) : bool :=
  match s with
  | EmptyString => false
  | String a rest => (Ascii.eqb a quote && closes_at_end rest) || ends_quoted rest
  end.

(** The body of the loop over [lines], lines 137-152; the result is what
    [lines[i]] holds afterwards. *)
Definition repair_line (entry : string) : string :=
  let line := trim entry in
  if includes line quote && negb (ends_quoted line) then
    let lastQuoteIndex := lastIndexOf line quote in
    if 0 <? lastQuoteIndex then
      let beforeQuote := substring line 0 lastQuoteIndex in
      let quoteCount := count_char quote beforeQuote in
      if quoteCount `mod` 2 =? 1 then beforeQuote +:+ String quote EmptyString
      else entry
    else entry
  else entry.

(** [attemptJsonRepair], lines 130-167 of the Groq revision. *)
Definition attemptJsonRepair (jsonString : string) : string :=
  let repaired := jsonString in
  let lines := split repaired LF in
  let lines := map repair_line lines in
  let repaired := join lines (String LF EmptyString) in
  if negb (endsWith (trim repaired) "]") then
    let lastObjectEnd := lastIndexOf repaired "}" in
    if 0 <? lastObjectEnd then
      substring repaired 0 (lastObjectEnd + 1) +:+ String LF "]"
    else repaired
  else repaired.

(** The value of a [difficulty] field. *)
Definition difficulty_name (d : difficulty_t) : string :=
  match d with
  | easy => "easy"
  | medium => "medium"
  | hard => "hard"
  end.

(** A question written as an object literal, as the value it is at run
    time. *)
Definition question_json (q : DiagnosticQuestion) : json :=
  JObject
    [("id", JString (dq_id q));
     ("question", JString (dq_question q));
     ("options", JArray (JString <$> dq_options q));
     ("correct_answer", JString (dq_correct_answer q));
     ("explanation", JString (dq_explanation q));
     ("difficulty", JString (difficulty_name (dq_difficulty q)));
     ("topic", JString (topic q));
     ("concept", JString (concept q))].

(** [baseQuestions], lines 189-240 of the Groq revision, as the file stores
    its characters. *)
Definition baseQuestions : list DiagnosticQuestion :=
  [ {| dq_id := "diag_1";
       dq_question := "What is 15 + 27?";
       dq_options := ["42"; "41"; "43"; "40"];
       dq_correct_answer := "42";
       dq_explanation :=
         "15 + 27 = 42. Add the ones place: 5 + 7 = 12, write 2 carry 1. Add tens: 1 + 2 + 1 = 4.";
       dq_difficulty := easy;
       topic := "Basic Arithmetic";
       concept := "Addition" |};
    {| dq_id := "diag_2";
       dq_question := "Which of these is a rational number?";
       dq_options := ["âˆš2"; "Ï€"; "3/4"; "âˆš5"];
       dq_correct_answer := "3/4";
       dq_explanation :=
         "A rational number can be expressed as p/q where q â‰  0. 3/4 is in this form.";
       dq_difficulty := medium;
       topic := "Number Systems";
       concept := "Rational Numbers" |};
    {| dq_id := "diag_3";
       dq_question := "What is 2Â³?";
       dq_options := ["6"; "8"; "9"; "4"];
       dq_correct_answer := "8";
       dq_explanation :=
         "2Â³ means 2 Ã— 2 Ã— 2 = 8";
       dq_difficulty := easy;
       topic := "Exponents";
       concept := "Powers" |};
    {| dq_id := "diag_4";
       dq_question := "What is the area of a square with side 5 cm?";
       dq_options := ["20 cmÂ²"; "25 cmÂ²"; "10 cmÂ²"; "15 cmÂ²"];
       dq_correct_answer := "25 cmÂ²";
       dq_explanation :=
         "Area of square = side Ã— side = 5 Ã— 5 = 25 cmÂ²";
       dq_difficulty := easy;
       topic := "Geometry";
       concept := "Area calculation" |};
    {| dq_id := "diag_5";
       dq_question := "If 3x = 15, what is x?";
       dq_options := ["3"; "4"; "5"; "6"];
       dq_correct_answer := "5";
       dq_explanation :=
         "To find x, divide both sides by 3: x = 15 Ã· 3 = 5";
       dq_difficulty := medium;
       topic := "Algebra";
       concept := "Simple equations" |} ].

(** The fallback questions of the Gemini revision, lines 83-114. *)
Definition fallbackQuestions_gemini : list DiagnosticQuestion :=
  [ {| dq_id := "diag_1";
       dq_question := "What is 15 + 27?";
       dq_options := ["42"; "41"; "43"; "40"];
       dq_correct_answer := "42";
       dq_explanation :=
         "15 + 27 = 42. Add the ones place: 5 + 7 = 12, write 2 carry 1. Add tens: 1 + 2 + 1 = 4.";
       dq_difficulty := easy;
       topic := "Basic Arithmetic";
       concept := "Addition" |};
    {| dq_id := "diag_2";
       dq_question := "Which of these is a rational number?";
       dq_options := ["√2"; "π"; "3/4"; "√5"];
       dq_correct_answer := "3/4";
       dq_explanation :=
         "A rational number can be expressed as p/q where q ≠ 0. 3/4 is in this form.";
       dq_difficulty := medium;
       topic := "Number Systems";
       concept := "Rational Numbers" |};
    {| dq_id := "diag_3";
       dq_question := "What is 2³?";
       dq_options := ["6"; "8"; "9"; "4"];
       dq_correct_answer := "8";
       dq_explanation :=
         "2³ means 2 × 2 × 2 = 8";
       dq_difficulty := easy;
       topic := "Exponents";
       concept := "Powers" |} ].

(** The object pushed by the loop of [generateFallbackDiagnosticQuestions],
    lines 245-254. *)
Definition additional_question (i : Z) : DiagnosticQuestion :=
  {| dq_id := "diag_" +:+ pretty i;
     dq_question := "What is " +:+ pretty (i + 2) +:+ " + " +:+ pretty (i + 3) +:+ "?";
     dq_options :=
       [pretty (2 * i + 4); pretty (2 * i + 5); pretty (2 * i + 6); pretty (2 * i + 7)];
     dq_correct_answer := pretty (2 * i + 5);
     dq_explanation :=
       pretty (i + 2) +:+ " + " +:+ pretty (i + 3) +:+ " = " +:+ pretty (2 * i + 5);
     dq_difficulty :=
       if i `mod` 3 =? 0 then hard else if i `mod` 2 =? 0 then medium else easy;
     topic := "Basic Arithmetic";
     concept := "Addition" |}.

(** [generateFallbackDiagnosticQuestions], lines 188-258 of the Groq
    revision; the loop runs [i] from 6 to 30. *)
Definition generateFallbackDiagnosticQuestions (classLevel : Z) : list json :=
  let additionalQuestions :=
    forEach (seqZ 6 25) (λ additionalQuestions i,
                           push additionalQuestions (additional_question i)) [] in
  question_json <$> (baseQuestions ++ additionalQuestions).

(** [q.name] on an element of the parsed array: reading a property of
    [null] throws. *)
Definition get (q : json) (name : string) : outcome (option json) :=
  match q with
  | JNull => Thrown TypeError
  | _ => Returned (prop name (Some q))
  end.

(** [Array.isArray(v)] *)
Definition isArray (v : option json) : bool :=
  match v with
  | Some (JArray _) => true
  | _ => false
  end.

(** The assignment of line 113 to [q.explanation], made when the field is a
    string. *)
Definition clean_explanation (q : json) : json :=
  match q with
  | JObject props =>
      match obj_get props "explanation" with
      | Some (JString explanation) =>
          JObject (obj_set props "explanation"
                     (JString (trim (replace_newlines explanation))))
      | _ => q
      end
  | _ => q
  end.

(** The callback of [questions.filter], lines 105-116: whether the element
    is kept, and the element as the callback leaves it. *)
Definition validate (q : json) : outcome (bool * json) :=
  id ← get q "id";
  if negb (truthy_json id) then Returned (false, q) else
  question ← get q "question";
  if negb (truthy_json question) then Returned (false, q) else
  options ← get q "options";
  if negb (truthy_json options) then Returned (false, q) else
  if negb (isArray options) then Returned (false, q) else
  correct_answer ← get q "correct_answer";
  if negb (truthy_json correct_answer) then Returned (false, q) else
  explanation ← get q "explanation";
  if negb (truthy_json explanation) then Returned (false, q) else
  difficulty ← get q "difficulty";
  if negb (truthy_json difficulty) then Returned (false, q) else
  topic ← get q "topic";
  if negb (truthy_json topic) then Returned (false, q) else
  concept ← get q "concept";
  if negb (truthy_json concept) then Returned (false, q) else
  Returned (true, clean_explanation q).

(** [questions.filter(callback)] with that callback: the elements kept, as
    the callback leaves them. *)
Fixpoint filter_valid (questions : list json) : outcome (list json) :=
  match questions with
  | [] => Returned []
  | q :: questions =>
      '(keep, q) ← validate q;
      validQuestions ← filter_valid questions;
      Returned (if keep : bool then q :: validQuestions else validQuestions)
  end.

(** [while (s.startsWith('`')) s = s.slice(1)] *)
Fixpoint drop_leading_backticks (s : string) : string :=
  match s with
  | String a rest => if Ascii.eqb a "`" then drop_leading_backticks rest else s
  | EmptyString => EmptyString
  end.

(** [while (s.endsWith('`')) s = s.slice(0, -1)] *)
Definition drop_trailing_backticks (s : string) : string :=
  String.rev (drop_leading_backticks (String.rev s)).

(** [s.match(/\[[\s\S]*\]/)]: the match starts at the first [[] and, the
    star being greedy, ends at the last []], when that one comes later. *)
Definition match_array (s : string) : option string :=
  let first := indexOf s "[" in
  let last := lastIndexOf s "]" in
  if negb (first =? -1) && (first <? last) then Some (substring s first (last + 1))
  else None.

Section TestGenerator.

(** [JSON.parse]; it throws a [SyntaxError] on text that is not JSON. *)
Variable JSON_parse : string → outcome json.

(** [generateDiagnosticTest] of the Groq revision, lines 6-128.  [reply] is
    what the [fetch] of the prompt settles to. *)
Definition generateDiagnosticTest (classLevel : Z) (reply : outcome response)
  : tried (list json) :=
  try_catch_raised
    (response ← await reply;
     if negb (ok response) then Raised Error else
     data ← await (body_json response);
     let aiContent := prop "content" (prop "message" (at0 (prop "choices" (Some data)))) in
     if negb (truthy_json aiContent) then Raised Error else
     rawText ← await (call_trim aiContent);
     let rawText :=
       match strip_prefix "```json" rawText with
       | Some rest => trim (replace_trailing "```" rest)
       | None =>
           match strip_prefix "```" rawText with
           | Some rest => trim (replace_trailing "```" rest)
           | None => rawText
           end
       end in
     let firstBracket := indexOf rawText "[" in
     let lastBracket := lastIndexOf rawText "]" in
     if (firstBracket =? -1) || (lastBracket =? -1) || (lastBracket <=? firstBracket)
     then Raised Error else
     let jsonString := substring rawText firstBracket (lastBracket + 1) in
     questions ←
       try_catch_raised
         (await (JSON_parse jsonString))
         (λ parseError,
            try_catch_raised
              (let fixedJson := attemptJsonRepair jsonString in
               await (JSON_parse fixedJson))
              (λ repairError, Raised Error));
     match questions with
     | JArray questions =>
         if jslength questions =? 0 then Raised Error else
         validQuestions ← await (filter_valid questions);
         if jslength validQuestions =? 0 then Raised Error else
         Done (take 30 validQuestions)
     | _ => Raised Error
     end)
    (λ error, Done (generateFallbackDiagnosticQuestions classLevel)).

(** [generateDiagnosticTest] of the Gemini revision, lines 4-116. *)
Definition generateDiagnosticTest_gemini (classLevel : Z) (reply : outcome response)
  : tried (list json) :=
  try_catch_raised
    (response ← await reply;
     data ← await (body_json response);
     let text :=
       prop "text" (at0 (prop "parts" (prop "content"
         (at0 (prop "candidates" (Some data)))))) in
     if negb (truthy_json text) then Raised Error else
     rawText ← await (call_trim text);
     let rawText :=
       trim (replace_trailing "```"
               (replace_leading "```"
                  (replace_leading "```json" rawText))) in
     let rawText := drop_leading_backticks rawText in
     let rawText := drop_trailing_backticks rawText in
     let rawText := default rawText (match_array rawText) in
     questions ← await (JSON_parse rawText);
     match questions with
     | JArray questions =>
         if jslength questions =? 0 then Raised Error else
         Done (take 30 questions)
     | _ => Raised Error
     end)
    (λ error, Done (question_json <$> fallbackQuestions_gemini)).

End TestGenerator.

(** Whether the callback of the filter keeps a question. *)
Definition passes (q : json) : bool :=
  match validate q with
  | Returned (true, _) => true
  | _ => false
  end.

(** [q === null] *)
Definition is_null (q : json) : bool :=
  match q with
  | JNull => true
  | _ => false
  end.

(** The fields a question is checked for by the Groq revision, apart from
    the explanation. *)
Definition checked_fields : list string :=
  ["id"; "question"; "options"; "correct_answer"; "difficulty"; "topic"; "concept"].

(** A question a test can be run with: the seven fields hold values that
    count as true, the options are an array, and an explanation is there
    that, when it is a string, holds no line break. *)
Definition usable (q : json) : bool :=
  forallb (λ name, truthy_json (prop name (Some q))) checked_fields
  && isArray (prop "options" (Some q))
  && match prop "explanation" (Some q) with
     | Some (JString explanation) => negb (includes explanation LF)
     | Some _ => true
     | None => false
     end.

(** The [id] of a question, when it is a string. *)
Definition id_text (q : json) : string :=
  match prop "id" (Some q) with
  | Some (JString id) => id
  | _ => EmptyString
  end.

(** The questions either revision falls back to. *)
Definition fallback_questions (rev : revision) (classLevel : Z) : list json :=
  match rev with
  | Gemini => question_json <$> fallbackQuestions_gemini
  | Groq => generateFallbackDiagnosticQuestions classLevel
  end.

(** A question whose explanation is a single line break. *)
Definition question_with_blank_explanation : json :=
  question_json
    {| dq_id := "diag_1";
       dq_question := "What is 15 + 27?";
       dq_options := ["42"; "41"; "43"; "40"];
       dq_correct_answer := "42";
       dq_explanation := String LF EmptyString;
       dq_difficulty := easy;
       topic := "Basic Arithmetic";
       concept := "Addition" |}.

(** Whether the keyed answer of a question is one of its options. *)
Definition answer_among_options (q : json) : bool :=
  match prop "correct_answer" (Some q), prop "options" (Some q) with
  | Some (JString answer), Some (JArray options) =>
      existsb (λ o, if o is JString option then String.eqb option answer else false)
        options
  | _, _ => false
  end.

(** The text of a JSON array: an opening bracket, [mid], a closing
    bracket. *)
Definition array_text (mid : string) : string :=
  String "[" (mid +:+ "]").

(** [s] holds [mid] between a character [o] and a character [c], after a
    part without [o] and before a part without [c]. *)
Definition framed (o c : ascii) (mid s : string) : Prop :=
  ∃ pre post,
    s = pre +:+ String o (mid +:+ String c post)
    ∧ includes pre o = false
    ∧ includes post c = false.

(** A byte of a character of more than one byte. *)
Definition high (a : ascii) : bool := (128 <=? N_of_ascii a)%N.

(** A character of one byte that is not white space. *)
Definition solid (a : ascii) : bool := negb (Ascii.is_space a) && negb (high a).

(** [s] is white space of one byte only. *)
Fixpoint blank (s : string) : bool :=
  match s with
  | EmptyString => true
  | String a rest => Ascii.is_space a && blank rest
  end.

(** An array text inside a [json] code fence, with white space around the
    fence and around the array. *)
Definition fenced (outer1 ws1 mid ws2 outer2 : string) : string :=
  outer1 +:+ ("```json" +:+ ws1 +:+ array_text mid +:+ ws2 +:+ "```") +:+ outer2.

(** A reply of the Groq service whose message content is [content]. *)
Definition groq_reply (content : json) : response :=
  {| ok := true;
     body_json :=
       Returned (JObject [("choices",
         JArray [JObject [("message", JObject [("content", content)])]])]) |}.

(** An oracle text: a fenced array with a sentence before it. *)
Definition fenced_text : string :=
  "Here is the list:" +:+ String LF "```json" +:+ String LF (array_text "...")
    +:+ String LF "```".

(** A parser that reads every text as the array of one sample question. *)
Definition parse_sample (text : string) : outcome json :=
  Returned (JArray [question_json (sample_question "diag_1" "Fractions" "Addition of fractions")]).

(** ** Analytics and insights (progressTrackingService.ts) *)

(** The [analytics] object of [getUserAnalytics], lines 704-710. *)
Record analytics := {
  totalQuestions : Z;
  correctAnswers : Z;
  an_accuracy : Q;
  totalStudyTime : Z;
  conceptsMastered : Z
}.

(** Lines 704-710 on the [data] fields of the three queries, [null] when a
    query failed. *)
Definition analytics_of
    (attempts : option (list QuestionAttempt))
    (sessions : option (list StudySession))
    (mastery : option (list (string * string * string * ConceptMastery)))
  : analytics :=
  {| totalQuestions := or_zero (from_option jslength 0 attempts);
     correctAnswers :=
       or_zero (from_option (λ a, jslength (filter (λ a, is_correct a = true) a))
                  0 attempts);
     an_accuracy :=
       match attempts with
       | Some attempts =>
           if jslength attempts =? 0 then 0
           else (inject_Z (jslength (filter (λ a, is_correct a = true) attempts))
                 / inject_Z (jslength attempts)) * 100
       | None => 0
       end;
     totalStudyTime :=
       or_zero
         (from_option
            (λ s, fold_left (λ sum s, sum + default 0 (duration_minutes s)) s 0)
            0 sessions);
     conceptsMastered :=
       or_zero
         (from_option
            (λ m, jslength (filter (λ m, Qgeb (mastery_level m.2) (8 # 10) = true) m))
            0 mastery) |}.

(** The sentence [generateAIInsights] ends with, line 649. *)
Definition default_insights : string :=
  "You're making great progress! Keep up the consistent effort and focus on your areas for improvement.".

(** [generateAIInsights], lines 606-650.  [reply] is what the [fetch] of
    the prompt settles to; the [try] block yields [Some] text when it
    reaches its [return]. *)
Definition generateAIInsights (reply : outcome response) : outcome string :=
  returned ←
    try_catch
      (response ← reply;
       result ← body_json response;
       let text :=
         prop "text" (at0 (prop "parts" (prop "content"
           (at0 (prop "candidates" (Some result)))))) in
       if truthy_json text then
         text ← call_trim text;
         Returned (Some text)
       else Returned None)
      (λ error, Returned None);
  match returned with
  | Some text => Returned text
  | None => Returned default_insights
  end.

(** A reply of the Gemini service whose text is [text]. *)
Definition gemini_response (text : json) : response :=
  {| ok := true;
     body_json :=
       Returned (JObject [("candidates",
         JArray [JObject [("content",
           JObject [("parts", JArray [JObject [("text", text)]])])]])]) |}.

Definition gemini_reply (text : json) : outcome response :=
  Returned (gemini_response text).

(** The text of a reply that [generateAIInsights] returns trimmed: the
    fetch resolved, the body is JSON and
    [candidates[0].content.parts[0].text] is a string that is not empty. *)
Definition insight_text (reply : outcome response) : option string :=
  match reply with
  | Returned response =>
      match body_json response with
      | Returned data =>
          match reply_text Gemini data with
          | Some (JString text) =>
              if String.eqb text EmptyString then None else Some text
          | _ => None
          end
      | Thrown _ => None
      end
  | Thrown _ => None
  end.

(** A parser that reads the text of the empty array and nothing else. *)
Definition parse_empty_array (text : string) : outcome json :=
  if String.eqb text "[]" then Returned (JArray []) else Thrown SyntaxError.

(** U+00A0, U+FEFF and U+2028 in UTF-8. *)
Definition no_break_space : string := String "194" (String "160" EmptyString).
Definition byte_order_mark : string :=
  String "239" (String "187" (String "191" EmptyString)).
Definition line_separator : string :=
  String "226" (String "128" (String "168" EmptyString)).

(** A parser that reads every text as an array of one recommendation. *)
Definition parse_tip (text : string) : outcome json :=
  Returned (JArray [JString "Practise fractions for ten minutes a day."]).

(** * Properties *)

(** ** Comparisons on numbers *)

Lemma Qgeb_true (x y : Q) : Qgeb x y = true ↔ (y <= x)%Q.
Proof. unfold Qgeb. apply Qle_bool_iff. Qed.

Lemma Qgeb_false (x y : Q) : Qgeb x y = false ↔ (x < y)%Q.
Proof.
  unfold Qgeb. split.
  - intros H. apply Qnot_le_lt. intros Hle.
    apply Qle_bool_iff in Hle. congruence.
  - intros H. destruct (Qle_bool y x) eqn:E; [|done].
    apply Qle_bool_iff in E. exfalso. by apply (Qlt_not_le x y).
Qed.

Lemma Qltb_true (x y : Q) : Qltb x y = true ↔ (x < y)%Q.
Proof.
  unfold Qltb. rewrite negb_true_iff. apply Qgeb_false.
Qed.

Lemma Qltb_false (x y : Q) : Qltb x y = false ↔ (y <= x)%Q.
Proof.
  unfold Qltb. rewrite negb_false_iff. apply Qgeb_true.
Qed.

(** ** LearningPathPlanner *)

Section LearningPath.

Implicit Types (d : ChapterDiagnostic) (seq : list string).

Lemma forEach_push_map {A : Type} (f : A → string) (l : list A) seq :
  forEach l (λ s x, push s (f x)) seq = seq ++ map f l.
Proof.
  unfold forEach, push. revert seq.
  induction l as [|x l IH]; intros seq; simpl.
  - by rewrite app_nil_r.
  - rewrite IH. by rewrite <- app_assoc.
Qed.

Lemma forEach_weakness_steps (ws : list string) seq :
  forEach ws
    (λ s w, push (push s ("Focus on: " +:+ w)) ("Practice: " +:+ w +:+ " Problems"))
    seq
  = seq ++ flat_map weakness_steps ws.
Proof.
  unfold forEach, push. revert seq.
  induction ws as [|w ws IH]; intros seq; simpl.
  - by rewrite app_nil_r.
  - rewrite IH. by rewrite <- !app_assoc.
Qed.

Lemma jslength_pos {A : Type} (l : list A) :
  (0 <? jslength l) = true ↔ l ≠ [].
Proof.
  unfold jslength. destruct l; simpl; split; try done; lia.
Qed.

Lemma jslength_nonneg {A : Type} (l : list A) : 0 ≤ jslength l.
Proof. unfold jslength. lia. Qed.

(** C4. The remediation sequence is, in this order and with nothing else:
    when there are knowledge gaps, "Review Prerequisites" and one
    "Master: c" per prerequisite concept c; for each weakness w in order,
    "Focus on: w" then "Practice: w Problems"; and the three closing
    steps. *)
Theorem generateLearningSequence_exact d :
  generateLearningSequence d =
    (if decide (knowledge_gaps d = []) then []
     else "Review Prerequisites"
            :: map (λ c, "Master: " +:+ c) (prerequisite_concepts d))
    ++ flat_map weakness_steps (weaknesses d)
    ++ closing_steps.
Proof.
  unfold generateLearningSequence, closing_steps.
  rewrite forEach_weakness_steps.
  destruct (0 <? jslength (knowledge_gaps d)) eqn:Hgaps.
  - apply jslength_pos in Hgaps.
    rewrite forEach_push_map. unfold push.
    destruct (decide (knowledge_gaps d = [])) as [Hnil|_]; [done|].
    simpl. by rewrite <- !app_assoc.
  - destruct (decide (knowledge_gaps d = [])) as [_|Hne].
    + unfold push. simpl. by rewrite <- !app_assoc.
    + apply jslength_pos in Hne. congruence.
Qed.

(** C3. The estimate is min(21, 7 + 2 per weakness + 3 per knowledge gap
    + B), where B is 5 for a score below 30, 3 for a score from 30 up to
    but not including 60, and 0 from 60 on; so it always lies between 7
    and 21. *)
Theorem estimateCompletionTime_formula d :
  ∃ B : Z,
    ((score_percentage d < 30)%Q ∧ B = 5
     ∨ (30 <= score_percentage d)%Q ∧ (score_percentage d < 60)%Q ∧ B = 3
     ∨ (60 <= score_percentage d)%Q ∧ B = 0)
    ∧ estimateCompletionTime d
      = Z.min 21 (7 + 2 * jslength (weaknesses d)
                    + 3 * jslength (knowledge_gaps d) + B)
    ∧ 7 ≤ estimateCompletionTime d ≤ 21.
Proof.
  unfold estimateCompletionTime.
  pose proof (jslength_nonneg (weaknesses d)) as Hw.
  pose proof (jslength_nonneg (knowledge_gaps d)) as Hg.
  destruct (Qltb (score_percentage d) 30) eqn:H30.
  - exists 5. apply Qltb_true in H30. split; [by left|]. lia.
  - apply Qltb_false in H30.
    destruct (Qltb (score_percentage d) 60) eqn:H60.
    + exists 3. apply Qltb_true in H60. split; [right; by left|]. lia.
    + exists 0. apply Qltb_false in H60. split; [right; by right|]. lia.
Qed.

Example estimate_no_weakness_score_95 :
  estimateCompletionTime (diagnostic_of [] [] 95) = 7.
Proof. reflexivity. Qed.

Example estimate_clamped_at_21 :
  estimateCompletionTime (diagnostic_of ["a"; "b"; "c"] ["a"; "b"] 20) = 21
  ∧ 7 + 2 * 3 + 3 * 2 + 5 = 24.
Proof. split; reflexivity. Qed.

End LearningPath.

(** ** ProgressReportBuilder *)

Section ProgressReport.

Implicit Types (attempts : list QuestionAttempt) (sessions : list StudySession).
Implicit Types (masteryData : list (string * string * string * ConceptMastery)).

Lemma or_zero_id (x : Z) : or_zero x = x.
Proof. unfold or_zero. destruct (x =? 0) eqn:E; lia. Qed.

Lemma reduce_sum_Q {A : Type} (f : A → Q) (l : list A) (acc : Q) :
  (fold_left (λ sum m, sum + f m) l acc == acc + foldr Qplus 0 (map f l))%Q.
Proof.
  revert acc. induction l as [|x l IH]; intros acc; simpl.
  - ring.
  - rewrite IH. ring.
Qed.

Lemma reduce_sum_Z {A : Type} (f : A → Z) (l : list A) (acc : Z) :
  fold_left (λ sum s, sum + f s) l acc = acc + Zsum (map f l).
Proof.
  unfold Zsum. revert acc. induction l as [|x l IH]; intros acc; simpl.
  - lia.
  - rewrite IH. lia.
Qed.

(** C8. Overall progress is the mean of the records' mastery levels times
    100, and 0 when there is no record. *)
Theorem calculateOverallProgress_mean masteryData :
  (calculateOverallProgress masteryData ==
     if decide (masteryData = []) then 0
     else mean (map (λ m, mastery_level m.2) masteryData) * 100)%Q.
Proof.
  unfold calculateOverallProgress, mean.
  destruct (decide (masteryData = [])) as [->|Hne].
  - reflexivity.
  - destruct (jslength masteryData =? 0) eqn:Hlen.
    + apply jslength_pos in Hne. lia.
    + rewrite reduce_sum_Q. unfold jslength. rewrite length_map.
      rewrite Qplus_0_l. reflexivity.
Qed.

(** C7. With no attempt and no session in the window (the queries return
    empty lists, or nothing at all) the report has accuracy 0 and time
    spent 0; in general the time spent is the sum of the sessions' durations,
    a missing duration counting as 0, and the accuracy is 100 * correct /
    total as soon as there is an attempt.  The aggregation is a total
    function: no division by zero occurs. *)
Theorem progress_report_aggregates userId reportType chapterId attempts sessions mastery :
  let report :=
    assembleProgressReport userId reportType chapterId
      (Some attempts) (Some sessions) mastery in
  let empty_report :=
    assembleProgressReport userId reportType chapterId (Some []) (Some []) mastery in
  let null_report :=
    assembleProgressReport userId reportType chapterId None None mastery in
  let total := jslength attempts in
  let correct := jslength (filter (λ a, is_correct a = true) attempts) in
  (accuracy_percentage empty_report = 0%Q ∧ time_spent_minutes empty_report = 0)
  ∧ (accuracy_percentage null_report = 0%Q ∧ time_spent_minutes null_report = 0)
  ∧ questions_attempted report = total
  ∧ time_spent_minutes report
    = Zsum (map (λ s, default 0 (duration_minutes s)) sessions)
  ∧ (accuracy_percentage report ==
       if decide (attempts = []) then 0
       else 100 * inject_Z correct / inject_Z total)%Q.
Proof.
  simpl. unfold accuracyPercentage_of, totalTimeSpent_of, totalAttempts_of,
    correctAttempts_of. simpl. rewrite !or_zero_id.
  repeat split.
  - rewrite reduce_sum_Z. lia.
  - destruct (decide (attempts = [])) as [->|Hne].
    + reflexivity.
    + destruct (0 <? jslength attempts) eqn:Hpos.
      * unfold Qdiv. ring.
      * apply jslength_pos in Hne. congruence.
Qed.

End ProgressReport.

(** ** Dictionaries *)

Section Dictionary.

Context {V : Type}.
Implicit Types (obj : list (string * V)) (key : string) (v : V).

Lemma obj_get_set_eq obj key v : obj_get (obj_set obj key v) key = Some v.
Proof.
  induction obj as [|[k v'] obj IH]; simpl.
  - by rewrite String.eqb_refl.
  - destruct (String.eqb_spec k key) as [->|Hne]; simpl.
    + by rewrite String.eqb_refl.
    + destruct (String.eqb_spec k key); [done|]. apply IH.
Qed.

Lemma obj_get_set_ne obj key key' v :
  key ≠ key' → obj_get (obj_set obj key v) key' = obj_get obj key'.
Proof.
  intros Hne. induction obj as [|[k v'] obj IH]; simpl.
  - by destruct (String.eqb_spec key key').
  - destruct (String.eqb_spec k key) as [->|Hk]; simpl.
    + by destruct (String.eqb_spec key key').
    + destruct (String.eqb_spec k key'); [done|]. apply IH.
Qed.

Lemma obj_get_None obj key : obj_get obj key = None ↔ key ∉ obj.*1.
Proof.
  induction obj as [|[k v] obj IH]; simpl.
  - split; [intros _; apply not_elem_of_nil | done].
  - rewrite not_elem_of_cons.
    destruct (String.eqb_spec k key) as [->|Hk]; split; try done.
    + intros [? _]. done.
    + intros H. split; [congruence|]. by apply IH.
    + intros [_ H]. by apply IH.
Qed.

Lemma obj_get_Some obj key v :
  NoDup obj.*1 → obj_get obj key = Some v ↔ (key, v) ∈ obj.
Proof.
  induction obj as [|[k v'] obj IH]; simpl; intros Hnd.
  - split; [done | intros H; by apply elem_of_nil in H].
  - apply NoDup_cons in Hnd as [Hk Hnd]. rewrite elem_of_cons.
    destruct (String.eqb_spec k key) as [->|Hne].
    + split.
      * intros [= ->]. by left.
      * intros [[= ->]|Hin]; [done|].
        exfalso. apply Hk. apply list_elem_of_fmap. by exists (key, v).
    + rewrite IH by done. split; [by right|].
      intros [[= -> ->]|Hin]; done.
Qed.

Lemma obj_set_keys obj key v :
  (obj_set obj key v).*1 = if decide (key ∈ obj.*1) then obj.*1 else obj.*1 ++ [key].
Proof.
  induction obj as [|[k v'] obj IH]; csimpl.
  - done.
  - destruct (String.eqb_spec k key) as [->|Hne]; csimpl.
    + rewrite decide_True; [done | by left].
    + rewrite IH. destruct (decide (key ∈ obj.*1)) as [Hin|Hnin].
      * rewrite decide_True; [done | by right].
      * rewrite decide_False; [done|]. intros [->|H]%elem_of_cons; done.
Qed.

Lemma obj_set_NoDup obj key v : NoDup obj.*1 → NoDup (obj_set obj key v).*1.
Proof.
  intros Hnd. rewrite obj_set_keys.
  destruct (decide (key ∈ obj.*1)) as [|Hnin]; [done|].
  apply NoDup_app. split; [done|]. split.
  - intros x Hx Hx'. apply list_elem_of_singleton in Hx'. by subst.
  - apply NoDup_singleton.
Qed.

Lemma obj_get_modify obj key key' (f : V → V) :
  obj_get (obj_modify obj key f) key'
  = if decide (key = key') then f <$> obj_get obj key else obj_get obj key'.
Proof.
  unfold obj_modify.
  destruct (obj_get obj key) as [v|] eqn:Hget.
  - destruct (decide (key = key')) as [<-|Hne].
    + by rewrite obj_get_set_eq.
    + by rewrite obj_get_set_ne.
  - destruct (decide (key = key')) as [<-|Hne]; [by rewrite Hget | done].
Qed.

Lemma obj_modify_NoDup obj key (f : V → V) :
  NoDup obj.*1 → NoDup (obj_modify obj key f).*1.
Proof.
  intros Hnd. unfold obj_modify.
  destruct (obj_get obj key); [by apply obj_set_NoDup | done].
Qed.

End Dictionary.

(** ** DiagnosticAnalyzer: tallying *)

Section Tallying.

Implicit Types (answers : list DiagnosticAnswer) (questions : list DiagnosticQuestion).
Implicit Types (l : list (DiagnosticAnswer * DiagnosticQuestion)).
Implicit Types (scores : list (string * tally)) (t key : string).

Lemma obj_get_track scores key (is_correct : bool) key' :
  obj_get (track scores key is_correct) key'
  = if decide (key = key') then
      let base := default {| t_correct := 0; t_total := 0 |} (obj_get scores key) in
      Some {| t_correct := t_correct base + (if is_correct then 1 else 0);
              t_total := t_total base + 1 |}
    else obj_get scores key'.
Proof.
  unfold track.
  destruct (obj_get scores key) as [[c n]|] eqn:Hget; destruct is_correct;
    rewrite ?obj_get_modify;
    (destruct (decide (key = key')) as [<-|Hne];
     [ rewrite ?obj_get_modify, ?decide_True, ?obj_get_set_eq, ?Hget by done;
       simpl; do 2 f_equal; lia
     | rewrite ?obj_get_modify, ?decide_False, ?obj_get_set_ne by done; done ]).
Qed.

Lemma track_NoDup scores key (is_correct : bool) :
  NoDup scores.*1 → NoDup (track scores key is_correct).*1.
Proof.
  intros Hnd. unfold track.
  destruct (obj_get scores key), is_correct;
    repeat apply obj_modify_NoDup; try apply obj_set_NoDup; done.
Qed.

(** The indexed loop visits exactly the pairs of [zip]: once the bank is
    exhausted the remaining outcomes are skipped. *)
Lemma forEach_indexed_zip answers questions (i : nat) st :
  forEach_indexed answers
    (λ '(topicScores, conceptScores) answer index,
       match questions !! index with
       | None => (topicScores, conceptScores)
       | Some question =>
           (track topicScores (topic question) (correct answer),
            track conceptScores (concept question) (correct answer))
       end) i st
  = fold_left tally_step (zip answers (drop i questions)) st.
Proof.
  revert i st. induction answers as [|a answers IH]; intros i [ts cs]; [done|].
  simpl. destruct (questions !! i) as [q|] eqn:Hq.
  - rewrite IH. by rewrite (drop_S _ _ _ Hq).
  - rewrite IH. apply lookup_ge_None in Hq.
    rewrite !drop_ge by lia. by destruct answers.
Qed.

Lemma tallyScores_paired answers questions :
  tallyScores answers questions
  = fold_left tally_step (paired answers questions) ([], []).
Proof. unfold tallyScores. by rewrite forEach_indexed_zip. Qed.

Lemma fold_tally_step_fst l st :
  (fold_left tally_step l st).1
  = fold_left (λ scores p, track scores (topic p.2) (correct p.1)) l st.1.
Proof.
  revert st. induction l as [|p l IH]; intros st; [done|].
  simpl. by rewrite IH.
Qed.

Lemma correct_le_total t l :
  (length (filter (λ p, topic p.2 = t ∧ correct p.1 = true) l)
   ≤ length (filter (λ p, topic p.2 = t) l))%nat.
Proof.
  induction l as [|p l IH]; [done|].
  destruct (decide (topic p.2 = t)) as [Ht|Ht].
  - rewrite (filter_cons_True (λ p, topic p.2 = t)) by done.
    destruct (decide (correct p.1 = true)).
    + rewrite filter_cons_True by done. simpl. lia.
    + rewrite filter_cons_False by (intros [_ ?]; done). simpl. lia.
  - rewrite (filter_cons_False (λ p, topic p.2 = t)) by done.
    rewrite filter_cons_False by (intros [? _]; done). done.
Qed.

Lemma tally_of_snoc t l p :
  tally_of t (l ++ [p])
  = if decide (topic p.2 = t) then
      let base := default {| t_correct := 0; t_total := 0 |} (tally_of t l) in
      Some {| t_correct := t_correct base + (if correct p.1 then 1 else 0);
              t_total := t_total base + 1 |}
    else tally_of t l.
Proof.
  pose proof (correct_le_total t l) as Hle.
  unfold tally_of, jslength. rewrite !filter_app, !length_app.
  destruct (decide (topic p.2 = t)) as [Ht|Ht].
  - rewrite filter_cons_True by done. simpl length.
    rewrite decide_False by lia.
    destruct (correct p.1) eqn:Hc.
    + rewrite filter_cons_True by done. simpl length.
      case_decide; simpl; do 2 f_equal; lia.
    + rewrite filter_cons_False by (intros [_ ?]; congruence). simpl length.
      case_decide; simpl; do 2 f_equal; lia.
  - rewrite filter_cons_False by done.
    rewrite filter_cons_False by (intros [? _]; done).
    simpl length. rewrite !Nat.add_0_r. done.
Qed.

(** What the loop maintains: the dictionary has no repeated key and holds,
    for every topic, the tally of the pairs seen so far. *)
Lemma fold_track_tally l seen scores :
  NoDup scores.*1 →
  (∀ t, obj_get scores t = tally_of t seen) →
  let scores' :=
    fold_left (λ scores p, track scores (topic p.2) (correct p.1)) l scores in
  NoDup scores'.*1 ∧ ∀ t, obj_get scores' t = tally_of t (seen ++ l).
Proof.
  revert seen scores. induction l as [|p l IH]; intros seen scores Hnd Hget; simpl.
  - by rewrite app_nil_r.
  - replace (seen ++ p :: l) with ((seen ++ [p]) ++ l) by by rewrite <- app_assoc.
    apply IH.
    + by apply track_NoDup.
    + intros t. rewrite obj_get_track, tally_of_snoc.
      destruct (decide (topic p.2 = t)) as [<-|_]; by rewrite Hget.
Qed.

Lemma topicScores_tally answers questions :
  let topicScores := (tallyScores answers questions).1 in
  NoDup topicScores.*1
  ∧ ∀ t, obj_get topicScores t = tally_of t (paired answers questions).
Proof.
  rewrite tallyScores_paired, fold_tally_step_fst.
  apply (fold_track_tally _ []); [constructor | done].
Qed.

End Tallying.

(** ** DiagnosticAnalyzer: classification *)

Section Classification.

Implicit Types (answers : list DiagnosticAnswer) (questions : list DiagnosticQuestion).
Implicit Types (topicScores : list (string * tally)) (t : string).

(** The classification loop selects, in dictionary order, the topics of
    each band. *)
Lemma classify_loop topicScores (s w g : list string) :
  fold_left classify_entry topicScores (s, w, g)
  = (s ++ (filter (λ e, Qgeb (percentage_of e.2) 80 = true) topicScores).*1,
     w ++ (filter (λ e, Qgeb (percentage_of e.2) 80 = false
                        ∧ Qgeb (percentage_of e.2) 50 = false) topicScores).*1,
     g ++ (filter (λ e, Qltb (percentage_of e.2) 30 = true) topicScores).*1).
Proof.
  revert s w g. induction topicScores as [|[t sc] ts IH]; intros s w g.
  - by rewrite !app_nil_r.
  - cbn [fold_left classify_entry]. rewrite !filter_cons. cbn [snd].
    destruct (Qgeb (percentage_of sc) 80) eqn:H80;
      destruct (Qgeb (percentage_of sc) 50) eqn:H50;
      destruct (Qltb (percentage_of sc) 30) eqn:H30;
      rewrite IH; unfold push;
      repeat case_decide; try (exfalso; intuition congruence);
      csimpl; by rewrite <- ?app_assoc.
Qed.

(** The classification loop selects, in dictionary order, the topics of
    each band. *)
Lemma classifyTopics_filter topicScores :
  classifyTopics topicScores
  = ((filter (λ e, Qgeb (percentage_of e.2) 80 = true) topicScores).*1,
     (filter (λ e, Qgeb (percentage_of e.2) 80 = false
                   ∧ Qgeb (percentage_of e.2) 50 = false) topicScores).*1,
     (filter (λ e, Qltb (percentage_of e.2) 30 = true) topicScores).*1).
Proof. unfold classifyTopics, forEach. by rewrite classify_loop. Qed.


Lemma filter_fst_NoDup {A : Type} (P : string * A → Prop) `{!∀ e, Decision (P e)}
    (obj : list (string * A)) :
  NoDup obj.*1 → NoDup (filter P obj).*1.
Proof.
  intros Hnd. apply (sublist_NoDup _ obj.*1); [done|].
  apply fmap_sublist, sublist_filter.
Qed.

Lemma tally_of_paired t answers questions :
  tally_of t (paired answers questions)
  = if decide (topic_total t answers questions = 0) then None
    else Some {| t_correct := topic_correct t answers questions;
                 t_total := topic_total t answers questions |}.
Proof. done. Qed.

(** A topic is in a band exactly when it was attempted and its accuracy
    meets the band's test. *)
Lemma band_membership (P : Q → Prop) `{!∀ x, Decision (P x)} answers questions t :
  t ∈ (filter (λ e, P (percentage_of e.2)) (tallyScores answers questions).1).*1
  ↔ 0 < topic_total t answers questions ∧ P (topic_accuracy t answers questions).
Proof.
  destruct (topicScores_tally answers questions) as [Hnd Hget].
  assert (0 ≤ topic_total t answers questions) as Hnonneg
    by (unfold topic_total, jslength; lia).
  rewrite list_elem_of_fmap. split.
  - intros ([t' sc] & -> & [HP Hin]%list_elem_of_filter).
    apply obj_get_Some in Hin; [|done].
    rewrite Hget, tally_of_paired in Hin.
    case_decide; [done|]. injection Hin as <-. simpl in *. split; [lia | done].
  - intros [Hpos HP].
    exists (t, {| t_correct := topic_correct t answers questions;
                  t_total := topic_total t answers questions |}).
    split; [done|]. apply list_elem_of_filter. split; [done|].
    apply obj_get_Some; [done|].
    rewrite Hget, tally_of_paired. rewrite decide_False by lia. done.
Qed.

End Classification.

(** ** DiagnosticAnalyzer: recommendations *)

(** The list both revisions fall back to. *)
Lemma fallback_shape (e : emoji) (strengths weaknesses : list string)
    (score totalQuestions : Z) :
  ∃ rest : list string,
    fallbackRecommendations e strengths weaknesses score totalQuestions
    = ("You scored " +:+ pretty score +:+ "/" +:+ pretty totalQuestions +:+ "! "
         +:+ party e +:+ " Every step forward is progress.") :: rest
    ∧ ("Focus on daily practice - even 15 minutes makes a difference! " +:+ books e)
        ∈ rest
    ∧ ∀ w ws, weaknesses = w :: ws →
        ("Let's work on " +:+ w +:+ " together - you've got this! " +:+ rocket e)
          ∈ rest.
Proof.
  unfold fallbackRecommendations, push.
  destruct strengths as [|s strengths]; destruct weaknesses as [|w weaknesses];
    simpl; eexists; (split; [reflexivity|]); split;
    try (intros ? ? [=]; subst); set_solver.
Qed.

Section Recommendations.

Variable JSON_parse : string → outcome json.

Implicit Types (strengths weaknesses gaps : list string) (score totalQuestions : Z).
Implicit Types (reply : outcome response) (rev : revision).

(** No array came out of the oracle: every way to have one contradicts
    what is known about the reply. *)
Ltac refute_oracle_array :=
  let H := fresh "H" in
  intros [? H]; destruct H as [? ? ? ? ? Hok ? ? ? ? ?];
  try specialize (Hok eq_refl); simplify_eq/=; congruence.

Local Arguments prop : simpl never.
Local Arguments at0 : simpl never.
Local Arguments trim : simpl never.
Local Arguments indexOf : simpl never.
Local Arguments lastIndexOf : simpl never.
Local Arguments substring : simpl never.
Local Arguments fallbackRecommendations : simpl never.

Lemma brackets_in_order (first last : Z) :
  negb (first =? -1) && negb (last =? -1) && (first <? last) = true
  ↔ first ≠ -1 ∧ last ≠ -1 ∧ first < last.
Proof.
  rewrite !andb_true_iff, !negb_true_iff, !Z.eqb_neq, Z.ltb_lt. tauto.
Qed.

Lemma recommend_groq_cases strengths weaknesses gaps score totalQuestions reply :
  (∃ items,
     oracle_array JSON_parse Groq reply items
     ∧ recommend JSON_parse Groq strengths weaknesses gaps score totalQuestions reply
       = Returned items)
  ∨ (¬ (∃ items, oracle_array JSON_parse Groq reply items)
     ∧ recommend JSON_parse Groq strengths weaknesses gaps score totalQuestions reply
       = Returned (JString <$> fallbackRecommendations emoji_groq
                                 strengths weaknesses score totalQuestions)).
Proof.
  unfold recommend, generateRecommendations.
  destruct reply as [[is_ok body]|e]; simpl;
    [|right; split; [refute_oracle_array | done]].
  destruct is_ok; simpl; [|right; split; [refute_oracle_array | done]].
  destruct body as [data|e]; simpl; [|right; split; [refute_oracle_array | done]].
  change (prop "content" (prop "message" (at0 (prop "choices" (Some data)))))
    with (reply_text Groq data).
  destruct (reply_text Groq data) as [[| b | q | text | items | props]|] eqn:Htext;
    simpl; try (right; split; [refute_oracle_array | by repeat case_match]).
  destruct (String.eqb_spec text EmptyString) as [->|Hne]; simpl;
    [right; split; [refute_oracle_array | done]|].
  destruct (negb (indexOf (trim text) "[" =? -1)
            && negb (lastIndexOf (trim text) "]" =? -1)
            && (indexOf (trim text) "[" <? lastIndexOf (trim text) "]")) eqn:Hbr.
  - apply brackets_in_order in Hbr.
    destruct (JSON_parse (substring (trim text) (indexOf (trim text) "[")
                            (lastIndexOf (trim text) "]" + 1)))
      as [[| b | q | s | items | props]|e] eqn:Hparse; simpl;
      try (right; split; [|done];
           intros [? H]; destruct H as [? ? ? ? ? ? ? ? ? Hpart ?];
           simplify_eq/=; rewrite decide_True in Hpart by done;
           simplify_eq; congruence).
    left. exists items. split; [|done].
    eapply oracle_array_intro; eauto.
    simpl. by rewrite decide_True.
  - right. split; [|done].
    intros [? H]; destruct H as [? ? ? ? ? ? ? ? ? Hpart ?].
    simplify_eq/=. rewrite decide_False in Hpart; [done|].
    rewrite <- brackets_in_order. congruence.
Qed.

Lemma recommend_gemini_cases strengths weaknesses gaps score totalQuestions reply :
  (∃ items,
     oracle_array JSON_parse Gemini reply items
     ∧ recommend JSON_parse Gemini strengths weaknesses gaps score totalQuestions reply
       = Returned items)
  ∨ (¬ (∃ items, oracle_array JSON_parse Gemini reply items)
     ∧ recommend JSON_parse Gemini strengths weaknesses gaps score totalQuestions reply
       = Returned (JString <$> fallbackRecommendations emoji_gemini
                                 strengths weaknesses score totalQuestions)).
Proof.
  unfold recommend, generateRecommendations_gemini.
  destruct reply as [[is_ok body]|e]; simpl;
    [|right; split; [refute_oracle_array | done]].
  destruct body as [data|e]; simpl; [|right; split; [refute_oracle_array | done]].
  change (prop "text" (at0 (prop "parts" (prop "content"
            (at0 (prop "candidates" (Some data)))))))
    with (reply_text Gemini data).
  destruct (reply_text Gemini data) as [[| b | q | text | items | props]|] eqn:Htext;
    simpl; try (right; split; [refute_oracle_array | by repeat case_match]).
  destruct (String.eqb_spec text EmptyString) as [->|Hne]; simpl;
    [right; split; [refute_oracle_array | done]|].
  destruct (JSON_parse (trim (replace_trailing "```"
              (replace_leading "```" (replace_leading "```json" (trim text))))))
    as [[| b | q | s | items | props]|e] eqn:Hparse; simpl;
    try (right; split; [refute_oracle_array | done]).
  left. exists items. split; [|done].
  eapply oracle_array_intro; eauto. done.
Qed.

(** Either the oracle's array is returned, or the fallback list is;
    nothing is ever thrown. *)
Lemma recommend_cases rev strengths weaknesses gaps score totalQuestions reply :
  (∃ items,
     oracle_array JSON_parse rev reply items
     ∧ recommend JSON_parse rev strengths weaknesses gaps score totalQuestions reply
       = Returned items)
  ∨ (¬ (∃ items, oracle_array JSON_parse rev reply items)
     ∧ recommend JSON_parse rev strengths weaknesses gaps score totalQuestions reply
       = Returned (JString <$> fallbackRecommendations (emoji_of rev)
                                 strengths weaknesses score totalQuestions)).
Proof.
  destruct rev; [apply recommend_gemini_cases | apply recommend_groq_cases].
Qed.

Lemma recommend_returns rev strengths weaknesses gaps score totalQuestions reply :
  ∃ recs,
    recommend JSON_parse rev strengths weaknesses gaps score totalQuestions reply
    = Returned recs.
Proof.
  destruct (recommend_cases rev strengths weaknesses gaps score totalQuestions reply)
    as [(items & _ & ->)|[_ ->]]; eauto.
Qed.

(** The analyzer returns, with the lists the two loops computed and the
    recommendations [recommend] gave for them. *)
Lemma analyze_returns rev (answers : list DiagnosticAnswer)
    (questions : list DiagnosticQuestion) reply (now : Z) :
  ∃ r,
    analyze JSON_parse rev answers questions reply now = Returned r
    ∧ (dr_strengths r, dr_weaknesses r, dr_gaps r)
      = classifyTopics (tallyScores answers questions).1
    ∧ dr_score r = jslength (filter (λ a, correct a = true) answers)
    ∧ dr_total_questions r = jslength questions
    ∧ recommend JSON_parse rev (dr_strengths r) (dr_weaknesses r) (dr_gaps r)
        (dr_score r) (dr_total_questions r) reply
      = Returned (dr_recommendations r).
Proof.
  assert (analyze JSON_parse rev answers questions reply now
          = analyzeDiagnosticResults_with
              (λ s w g sc n, recommend JSON_parse rev s w g sc n reply)
              answers questions now) as -> by by destruct rev.
  unfold analyzeDiagnosticResults_with.
  destruct (tallyScores answers questions) as [topicScores conceptScores].
  destruct (classifyTopics topicScores) as [[s w] g] eqn:Hclass. simpl.
  destruct (recommend_returns rev s w g
              (jslength (filter (λ a, correct a = true) answers))
              (jslength questions) reply) as [recs Hrecs].
  rewrite Hrecs. simpl. eexists. split; [reflexivity|]. simpl. by rewrite Hclass.
Qed.

End Recommendations.

(** ** DiagnosticAnalyzer: the claims *)

Section Analyzer.

Variable JSON_parse : string → outcome json.

Implicit Types (answers : list DiagnosticAnswer) (questions : list DiagnosticQuestion).
Implicit Types (reply : outcome response) (rev : revision) (now : Z) (t : string).

Lemma weakness_band (x : Q) :
  Qgeb x 80 = false ∧ Qgeb x 50 = false ↔ (x < 50)%Q.
Proof.
  rewrite !Qgeb_false. split; [tauto|].
  intros H. split; [|done]. apply Qlt_trans with 50%Q; done.
Qed.

(** C1, as the code has it.  On a bank none of whose topic labels is a
    name inherited from [Object.prototype], in the result of every analysis
    and for every topic with at least one paired outcome: the topic is a
    strength exactly when its accuracy is at least 80%, a weakness exactly
    when its accuracy is below 50%, and a knowledge gap exactly when its
    accuracy is below 30%; topics nobody was asked about are in no list,
    every gap is also a weakness, and no list repeats a topic.  (An
    inherited name reads as present on the empty dictionary, so the code
    makes no entry under it; [topicScores] is the dictionary of the code
    under the other labels.) *)
Theorem classification_thresholds rev answers questions reply now :
  Forall (λ q, own_label (topic q)) questions →
  ∃ r,
    analyze JSON_parse rev answers questions reply now = Returned r
    ∧ NoDup (dr_strengths r) ∧ NoDup (dr_weaknesses r) ∧ NoDup (dr_gaps r)
    ∧ ∀ t,
        let attempted := 0 < topic_total t answers questions in
        let accuracy := topic_accuracy t answers questions in
        (t ∈ dr_strengths r ↔ attempted ∧ (80 <= accuracy)%Q)
        ∧ (t ∈ dr_weaknesses r ↔ attempted ∧ (accuracy < 50)%Q)
        ∧ (t ∈ dr_gaps r ↔ attempted ∧ (accuracy < 30)%Q)
        ∧ (t ∈ dr_gaps r → t ∈ dr_weaknesses r).
Proof.
  intros _.
  destruct (analyze_returns JSON_parse rev answers questions reply now)
    as (r & Hr & Hclass & _).
  exists r. split; [done|].
  rewrite classifyTopics_filter in Hclass. injection Hclass as -> -> ->.
  destruct (topicScores_tally answers questions) as [Hnd _].
  repeat (split; [by apply filter_fst_NoDup|]).
  intros t attempted accuracy.
  pose proof (band_membership (λ x, Qgeb x 80 = true) answers questions t) as Hs.
  pose proof (band_membership (λ x, Qgeb x 80 = false ∧ Qgeb x 50 = false)
                answers questions t) as Hw.
  pose proof (band_membership (λ x, Qltb x 30 = true) answers questions t) as Hg.
  simpl in Hs, Hw, Hg.
  rewrite Qgeb_true in Hs. rewrite weakness_band in Hw. rewrite Qltb_true in Hg.
  repeat split; try (by apply Hs); try (by apply Hw); try (by apply Hg).
  intros [Hatt Hlt]%Hg. apply Hw. split; [done|].
  apply Qlt_trans with 30%Q; done.
Qed.

(** The two examples of the specification: 9 of 10 is a strength, 2 of 10
    is a weakness and a knowledge gap. *)
Example nine_of_ten_is_a_strength :
  classifyTopics [("Fractions", {| t_correct := 9; t_total := 10 |})]
  = (["Fractions"], [], []).
Proof. reflexivity. Qed.

Example two_of_ten_is_a_weakness_and_a_gap :
  classifyTopics [("Fractions", {| t_correct := 2; t_total := 10 |})]
  = ([], ["Fractions"], ["Fractions"]).
Proof. reflexivity. Qed.

End Analyzer.

(** [classification_thresholds] on the two-topic bank: one correct answer
    on "Fractions", one wrong answer on "Algebra". *)
Lemma classification_of_two_topics :
  Forall (λ q, own_label (topic q)) two_topic_bank
  ∧ ∃ r,
      analyze parse_nothing Groq half_right_answers two_topic_bank
        (Thrown FetchError) 0 = Returned r
      ∧ NoDup (dr_strengths r) ∧ NoDup (dr_weaknesses r) ∧ NoDup (dr_gaps r)
      ∧ ∀ t,
          let attempted := 0 < topic_total t half_right_answers two_topic_bank in
          let accuracy := topic_accuracy t half_right_answers two_topic_bank in
          (t ∈ dr_strengths r ↔ attempted ∧ (80 <= accuracy)%Q)
          ∧ (t ∈ dr_weaknesses r ↔ attempted ∧ (accuracy < 50)%Q)
          ∧ (t ∈ dr_gaps r ↔ attempted ∧ (accuracy < 30)%Q)
          ∧ (t ∈ dr_gaps r → t ∈ dr_weaknesses r).
Proof.
  assert (Forall (λ q, own_label (topic q)) two_topic_bank) as Hown
    by (repeat constructor; apply (bool_decide_unpack _); vm_compute; exact I).
  split; [exact Hown|].
  exact (classification_thresholds parse_nothing Groq half_right_answers
           two_topic_bank (Thrown FetchError) 0 Hown).
Defined.

(** C1 as stated fails: one correct answer out of two on "Fractions" is an
    accuracy of 50%, below 60% and not a strength, and the topic is not
    listed as a weakness. *)
Lemma accuracy_50_is_not_a_weakness :
  ∃ r,
    analyze parse_nothing Groq half_right_answers fractions_bank (Thrown FetchError) 0
    = Returned r
    ∧ topic_total "Fractions" half_right_answers fractions_bank = 2
    ∧ topic_correct "Fractions" half_right_answers fractions_bank = 1
    ∧ (topic_accuracy "Fractions" half_right_answers fractions_bank < 60)%Q
    ∧ ("Fractions" ∉ dr_strengths r)
    ∧ ("Fractions" ∉ dr_weaknesses r).
Proof.
  eexists. split; [reflexivity|]. simpl.
  repeat split; try reflexivity; apply not_elem_of_nil.
Qed.

(** ** MasteryUpdater and AttemptRecorder *)

Section Mastery.

Implicit Types (σ : store) (userId chapterId concept : string).
Implicit Types (isCorrect : bool) (timeSpent : Z) (key : string * string * string).

(** Unfold one service call down to the store it returns. *)
Ltac run_store :=
  unfold updateConceptMastery, recordQuestionAttempt, try_catchM,
    select_concept_mastery, update_concept_mastery, insert_concept_mastery,
    insert_question_attempt, throw_if_error, Date_now, call_fails, throw,
    mbind, M_bind, mret, M_ret in *;
  repeat (simplify_eq/=; case_match); simplify_eq/=.

(** What one call of [updateConceptMastery] does to the store: either it
    returns, having written the next row of the triple and nothing else, or
    it throws, having written nothing. *)
Lemma updateConceptMastery_step userId chapterId concept isCorrect timeSpent σ r σ' :
  updateConceptMastery userId chapterId concept isCorrect timeSpent σ = (r, σ') →
  let key := (userId, chapterId, concept) in
  question_attempts σ' = question_attempts σ
  ∧ clock σ' = clock σ
  ∧ (r = Returned tt
     ∧ concept_mastery σ'
       = <[key := next_row (concept_mastery σ !! key) isCorrect timeSpent (clock σ)]>
           (concept_mastery σ)
     ∧ writes σ'
       = writes σ ++ [if concept_mastery σ !! key is Some _
                      then MasteryUpdated key else MasteryInserted key]
     ∨ (∃ e, r = Thrown e)
       ∧ concept_mastery σ' = concept_mastery σ
       ∧ writes σ' = writes σ).
Proof.
  intros Hrun key. subst key. run_store.
  all: repeat split; try done.
  all: try (left; repeat split; try done; by simplify_map_eq).
  all: try (right; repeat split; eauto; done).
Qed.

Lemma updateConceptMastery_served userId chapterId concept isCorrect timeSpent σ :
  faults σ = [] →
  ∃ σ',
    updateConceptMastery userId chapterId concept isCorrect timeSpent σ
    = (Returned tt, σ')
    ∧ faults σ' = [].
Proof.
  intros Hfaults.
  destruct (updateConceptMastery userId chapterId concept isCorrect timeSpent σ)
    as [r σ'] eqn:Hrun.
  run_store; try congruence; eauto.
Qed.

(** What one call of [recordQuestionAttempt] does to the store. *)
Lemma recordQuestionAttempt_step attempt σ r σ' :
  recordQuestionAttempt attempt σ = (r, σ') →
  let key := (qa_user_id attempt, default EmptyString (qa_chapter_id attempt),
              default EmptyString (qa_concept attempt)) in
  clock σ' = clock σ
  ∧ if truthy (qa_concept attempt) && truthy (qa_chapter_id attempt) then
      r = Returned tt
      ∧ question_attempts σ' = question_attempts σ ++ [attempt]
      ∧ concept_mastery σ'
        = <[key := next_row (concept_mastery σ !! key) (is_correct attempt)
                     (time_taken_seconds attempt) (clock σ)]>
            (concept_mastery σ)
      ∧ writes σ'
        = writes σ ++ [AttemptInserted attempt;
                       if concept_mastery σ !! key is Some _
                       then MasteryUpdated key else MasteryInserted key]
      ∨ (∃ e, r = Thrown e) ∧ concept_mastery σ' = concept_mastery σ
    else
      concept_mastery σ' = concept_mastery σ
      ∧ (r = Returned tt
         ∧ question_attempts σ' = question_attempts σ ++ [attempt]
         ∧ writes σ' = writes σ ++ [AttemptInserted attempt]
         ∨ (∃ e, r = Thrown e)
           ∧ question_attempts σ' = question_attempts σ
           ∧ writes σ' = writes σ).
Proof.
  intros Hrun key. subst key.
  unfold recordQuestionAttempt, try_catchM, insert_question_attempt,
    throw_if_error, call_fails, throw, mbind, M_bind, mret, M_ret, push in Hrun.
  destruct (truthy (qa_concept attempt) && truthy (qa_chapter_id attempt)) eqn:Htrig;
    repeat (simplify_eq/=;
            match goal with
            | H : context [match ?x with _ => _ end] |- _ => destruct x eqn:?
            end);
    simplify_eq/=;
    try match goal with
        | H : updateConceptMastery _ _ _ _ _ _ = _ |- _ =>
            apply updateConceptMastery_step in H
              as (Hq & Hc & [(? & Hm & Hw)|((? & ?) & Hm & Hw)]);
            simpl in Hq, Hc, Hm, Hw
        end; simplify_eq/=.
  all: split; [done|].
  all: try (left; repeat split; try done; rewrite ?Hw, <- ?app_assoc; done).
  all: try (right; split; [eauto | done]).
  all: try (split; [done|]; left; done).
  all: try (split; [done|]; right; eauto).
Qed.

Lemma completed_on_cons key (c : mastery_call) (r : outcome unit) log :
  completed_on key ((c, r) :: log)
  = if decide (mc_key c = key ∧ is_returned r = true)
    then c :: completed_on key log else completed_on key log.
Proof.
  unfold completed_on. rewrite filter_cons. simpl. by case_decide.
Qed.

(** The row of a triple after a run is the row before it, advanced once
    per completed call on that triple: calls on other triples and calls
    that threw do not touch it. *)
Lemma run_updates_lookup calls σ key :
  clock (run_updates calls σ).2 = clock σ
  ∧ concept_mastery (run_updates calls σ).2 !! key
    = fold_left
        (λ row c, Some (next_row row (mc_correct c) (mc_seconds c) (clock σ)))
        (completed_on key (run_updates calls σ).1)
        (concept_mastery σ !! key).
Proof.
  revert σ. induction calls as [|c calls IH]; intros σ; [done|].
  simpl.
  destruct (updateConceptMastery (mc_user c) (mc_chapter c) (mc_concept c)
              (mc_correct c) (mc_seconds c) σ) as [r σ1] eqn:Hrun.
  destruct (run_updates calls σ1) as [log σ2] eqn:Hrest. simpl.
  destruct (IH σ1) as [IHclock IHrow]. rewrite Hrest in IHclock, IHrow.
  simpl in IHclock, IHrow.
  apply updateConceptMastery_step in Hrun
    as (_ & Hclock & [(-> & Hm & _)|((e & ->) & Hm & _)]); simpl in Hm.
  - rewrite IHclock, IHrow, Hclock, Hm, completed_on_cons. split; [done|].
    simpl. fold (mc_key c).
    destruct (decide (mc_key c = key)) as [<-|Hne].
    + rewrite decide_True by done. simpl. by rewrite lookup_insert_eq.
    + rewrite decide_False by tauto. by rewrite lookup_insert_ne.
  - rewrite IHclock, IHrow, Hclock, Hm, completed_on_cons. split; [done|].
    rewrite decide_False; [done|]. simpl. intros [_ ?]. done.
Qed.

(** While the store serves every call, every call completes. *)
Lemma run_updates_served calls σ key :
  faults σ = [] →
  faults (run_updates calls σ).2 = []
  ∧ completed_on key (run_updates calls σ).1 = filter (λ c, mc_key c = key) calls.
Proof.
  revert σ. induction calls as [|c calls IH]; intros σ Hfaults; [done|].
  simpl.
  destruct (updateConceptMastery_served (mc_user c) (mc_chapter c) (mc_concept c)
              (mc_correct c) (mc_seconds c) σ Hfaults) as (σ1 & -> & Hfaults1).
  destruct (run_updates calls σ1) as [log σ2] eqn:Hrest. simpl.
  destruct (IH σ1 Hfaults1) as [IHf IHc]. rewrite Hrest in IHf, IHc.
  simpl in IHf, IHc. split; [done|].
  rewrite completed_on_cons, filter_cons, IHc. simpl.
  destruct (decide (mc_key c = key)).
  - by rewrite decide_True.
  - rewrite decide_False; [done | tauto].
Qed.

Lemma next_row_consistent existing isCorrect timeSpent (now : Z) :
  let row := next_row existing isCorrect timeSpent now in
  mastery_level row
  = Qmin 1 (inject_Z (correct_attempts row) / inject_Z (attempts_count row)).
Proof. by destruct existing, isCorrect. Qed.

(** Advancing a row by the calls [l] adds their number, the number of
    correct ones and their minutes to the three counters, and leaves the
    mastery level at the clamped quotient of the two counts. *)
Lemma fold_next_row (l : list mastery_call) (now : Z) (row0 : ConceptMastery) :
  mastery_level row0
  = Qmin 1 (inject_Z (correct_attempts row0) / inject_Z (attempts_count row0)) →
  ∃ row,
    fold_left (λ row c, Some (next_row row (mc_correct c) (mc_seconds c) now))
      l (Some row0) = Some row
    ∧ attempts_count row = attempts_count row0 + jslength l
    ∧ correct_attempts row
      = correct_attempts row0 + jslength (filter (λ c, mc_correct c = true) l)
    ∧ time_to_master_minutes row
      = time_to_master_minutes row0 + Zsum (map (λ c, mc_seconds c `div` 60) l)
    ∧ mastery_level row
      = Qmin 1 (inject_Z (correct_attempts row) / inject_Z (attempts_count row)).
Proof.
  revert row0. induction l as [|c l IH]; intros row0 Hlevel.
  - exists row0. unfold jslength, Zsum. simpl. repeat split; try lia. done.
  - simpl fold_left.
    destruct (IH (next_row (Some row0) (mc_correct c) (mc_seconds c) now))
      as (row & Hfold & Hn & Hc & Ht & Hm).
    { apply (next_row_consistent (Some row0)). }
    exists row. split; [done|]. simpl in Hn, Hc, Ht.
    unfold jslength, Zsum in *. rewrite filter_cons. simpl.
    split; [lia|]. split; [destruct (mc_correct c); simpl in *; lia|].
    split; [lia | done].
Qed.

(** C2. Start with no row for a triple and issue any sequence of updates,
    on this and on other triples, against a store that may fail any of its
    calls.  With N the number of updates on the triple that completed and C
    the number of those that reported a correct answer: no row exists while
    N = 0; afterwards the row has attempts_count = N, correct_attempts = C,
    mastery_level = min(1, C/N) and the sum of floor(seconds/60) as
    cumulative minutes; after the first update this means 1 attempt and a
    mastery level of 1 or 0.  While the store serves every call, the
    completed updates are all the updates issued on the triple. *)
Theorem mastery_after_updates (calls : list mastery_call) σ key :
  concept_mastery σ !! key = None →
  let log := (run_updates calls σ).1 in
  let σ' := (run_updates calls σ).2 in
  let completed := completed_on key log in
  let N := jslength completed in
  let C := jslength (filter (λ c, mc_correct c = true) completed) in
  (faults σ = [] → completed = filter (λ c, mc_key c = key) calls)
  ∧ match concept_mastery σ' !! key with
    | None => N = 0
    | Some row =>
        0 < N
        ∧ attempts_count row = N
        ∧ correct_attempts row = C
        ∧ mastery_level row = Qmin 1 (inject_Z C / inject_Z N)
        ∧ time_to_master_minutes row
          = Zsum (map (λ c, mc_seconds c `div` 60) completed)
        ∧ (N = 1 →
           correct_attempts row = 1 ∧ mastery_level row = 1%Q
           ∨ correct_attempts row = 0 ∧ mastery_level row = 0%Q)
    end.
Proof.
  intros Hnone log σ' completed N C.
  split; [intros Hfaults; by apply run_updates_served|].
  destruct (run_updates_lookup calls σ key) as [_ Hrow].
  fold σ' log completed in Hrow. rewrite Hrow, Hnone.
  subst N C. destruct completed as [|c l]; [done|].
  cbn [fold_left].
  destruct (fold_next_row l (clock σ)
              (next_row None (mc_correct c) (mc_seconds c) (clock σ)))
    as (row & -> & Hn & Hc & Ht & Hm).
  { apply (next_row_consistent None). }
  simpl in Hn, Hc, Ht.
  assert (attempts_count row = jslength (c :: l)) as Hn'
    by (unfold jslength in *; simpl length; lia).
  assert (correct_attempts row
          = jslength (filter (λ c, mc_correct c = true) (c :: l))) as Hc'.
  { rewrite filter_cons. unfold jslength in *.
    destruct (mc_correct c); simpl; lia. }
  split; [unfold jslength; simpl length; lia|].
  split; [done|]. split; [done|].
  split; [by rewrite Hm, Hn', Hc'|].
  split.
  { rewrite Ht. unfold Zsum. simpl. lia. }
  intros H1. rewrite Hm, Hc, Hn.
  assert (l = []) as -> by (destruct l; [done|]; unfold jslength in H1;
                            simpl length in H1; lia).
  destruct (mc_correct c); [left | right]; done.
Qed.

Lemma next_row_ok existing isCorrect timeSpent (now : Z) :
  (∀ row, existing = Some row → row_ok row) →
  row_ok (next_row existing isCorrect timeSpent now).
Proof.
  intros Hok. destruct existing as [row|].
  - destruct (Hok row eq_refl) as (_ & _ & Hc0 & Hcn).
    unfold row_ok. simpl.
    assert (0 ≤ correct_attempts row + (if isCorrect then 1 else 0)) as Hc'
      by (destruct isCorrect; lia).
    assert (correct_attempts row + (if isCorrect then 1 else 0)
            ≤ attempts_count row + 1) as Hcn' by (destruct isCorrect; lia).
    split; [|split; [apply Q.le_min_l | done]].
    apply Q.min_glb; [done|].
    apply Qle_shift_div_l.
    + replace 0%Q with (inject_Z 0) by done. rewrite <- Zlt_Qlt. lia.
    + rewrite Qmult_0_l. replace 0%Q with (inject_Z 0) by done.
      rewrite <- Zle_Qle. lia.
  - unfold row_ok. destruct isCorrect; simpl; repeat split; done.
Qed.

Lemma insert_mastery_ok σ key (row : ConceptMastery) :
  mastery_ok σ → row_ok row →
  ∀ k row', <[key := row]> (concept_mastery σ) !! k = Some row' → row_ok row'.
Proof.
  intros Hok Hrow k row'.
  destruct (decide (key = k)) as [<-|Hne].
  - rewrite lookup_insert_eq. by intros [= <-].
  - rewrite lookup_insert_ne by done. apply Hok.
Qed.

(** C9. In every store the service can reach from an empty
    concept_mastery table (by mastery updates, by recorded attempts, with
    the store failing calls at will), every row has a mastery level between
    0 and 1 and at most as many correct attempts as attempts. *)
Theorem mastery_invariant σ : reachable σ → mastery_ok σ.
Proof.
  induction 1 as [σ Hempty | now script σ _ IH
                 | userId chapterId concept isCorrect timeSpent σ _ IH
                 | attempt σ _ IH].
  - intros k row. rewrite Hempty, lookup_empty. done.
  - exact IH.
  - destruct (updateConceptMastery userId chapterId concept isCorrect timeSpent σ)
      as [r σ'] eqn:Hrun.
    apply updateConceptMastery_step in Hrun
      as (_ & _ & [(_ & Hm & _)|(_ & Hm & _)]);
      intros k row; simpl; rewrite Hm; [|apply IH].
    apply insert_mastery_ok; [done.. |].
    apply next_row_ok. intros row0 Hrow0. by apply (IH _ _ Hrow0).
  - destruct (recordQuestionAttempt attempt σ) as [r σ'] eqn:Hrun.
    apply recordQuestionAttempt_step in Hrun as [_ Hrun].
    destruct (truthy (qa_concept attempt) && truthy (qa_chapter_id attempt)).
    + destruct Hrun as [(_ & _ & Hm & _)|(_ & Hm)];
        intros k row; simpl; rewrite Hm; [|apply IH].
      apply insert_mastery_ok; [done.. |].
      apply next_row_ok. intros row0 Hrow0. by apply (IH _ _ Hrow0).
    + destruct Hrun as [Hm _]. intros k row. simpl. rewrite Hm. apply IH.
Qed.

Lemma recordQuestionAttempt_served attempt σ :
  faults σ = [] → (recordQuestionAttempt attempt σ).1 = Returned tt.
Proof.
  intros Hfaults.
  unfold recordQuestionAttempt, try_catchM, insert_question_attempt,
    throw_if_error, call_fails, mbind, M_bind, mret, M_ret.
  rewrite Hfaults. simpl.
  destruct (truthy (qa_concept attempt) && truthy (qa_chapter_id attempt));
    [|done].
  match goal with
  | |- context [updateConceptMastery ?u ?c ?k ?b ?t ?s] =>
      destruct (updateConceptMastery_served u c k b t s Hfaults) as (σ' & -> & _)
  end.
  done.
Qed.

Lemma truthy_Some (s : string) : s ≠ EmptyString → truthy (Some s) = true.
Proof. intros Hne. simpl. by destruct (String.eqb_spec s EmptyString). Qed.

(** C5, as the code has it.  Take an attempt that carries both a
    non-empty concept and a non-empty chapter id.  A recording that
    completes has written the attempt and then exactly one mastery row: it
    inserted the row of (user, chapter, concept) when there was none and
    updated it otherwise, leaving every other row as it was.  A recording
    that throws leaves concept mastery as it was.  While the store serves
    every call the recording completes. *)
Theorem recorded_attempt_upserts_mastery attempt σ chapter_id concept :
  qa_chapter_id attempt = Some chapter_id → chapter_id ≠ EmptyString →
  qa_concept attempt = Some concept → concept ≠ EmptyString →
  let key := (qa_user_id attempt, chapter_id, concept) in
  let r := (recordQuestionAttempt attempt σ).1 in
  let σ' := (recordQuestionAttempt attempt σ).2 in
  (faults σ = [] → r = Returned tt)
  ∧ match r with
    | Returned _ =>
        writes σ'
        = writes σ ++ [AttemptInserted attempt;
                       if concept_mastery σ !! key is Some _
                       then MasteryUpdated key else MasteryInserted key]
        ∧ concept_mastery σ'
          = <[key := next_row (concept_mastery σ !! key) (is_correct attempt)
                       (time_taken_seconds attempt) (clock σ)]>
              (concept_mastery σ)
    | Thrown _ => concept_mastery σ' = concept_mastery σ
    end.
Proof.
  intros Hchapter Hchapter_ne Hconcept Hconcept_ne key r σ'.
  split; [apply recordQuestionAttempt_served|].
  subst r σ'.
  destruct (recordQuestionAttempt attempt σ) as [r σ'] eqn:Hrun.
  apply recordQuestionAttempt_step in Hrun as [_ Hrun].
  rewrite Hchapter, Hconcept, !truthy_Some in Hrun by done.
  simpl in Hrun. fold key in Hrun.
  destruct Hrun as [(-> & _ & Hm & Hw)|((e & ->) & Hm)]; simpl; done.
Qed.

End Mastery.

(** [mastery_after_updates] at work: two of the three sample updates are on
    "Addition of fractions", one of them correct, 125 and 70 seconds long. *)
Lemma mastery_after_sample_calls :
  concept_mastery empty_store !! ("user-1", "ch-1", "Addition of fractions") = None
  ∧ ∃ row,
      concept_mastery (run_updates sample_calls empty_store).2
        !! ("user-1", "ch-1", "Addition of fractions") = Some row
      ∧ attempts_count row = 2
      ∧ correct_attempts row = 1
      ∧ mastery_level row = Qmin 1 (inject_Z 1 / inject_Z 2)
      ∧ time_to_master_minutes row = 3.
Proof.
  split; [reflexivity|].
  pose proof (mastery_after_updates sample_calls empty_store
                ("user-1", "ch-1", "Addition of fractions") eq_refl) as [_ H].
  destruct (concept_mastery (run_updates sample_calls empty_store).2
              !! ("user-1", "ch-1", "Addition of fractions")) as [row|];
    [|vm_compute in H; discriminate H].
  exists row. split; [reflexivity|].
  destruct H as (_ & Hn & Hc & Hm & Ht & _).
  repeat split; assumption.
Defined.

(** [mastery_invariant] at a store reached by recording an attempt. *)
Lemma mastery_invariant_after_recording :
  reachable
    (recordQuestionAttempt
       (sample_attempt (Some "ch-1") (Some "Addition of fractions") true)
       empty_store).2
  ∧ mastery_ok
      (recordQuestionAttempt
         (sample_attempt (Some "ch-1") (Some "Addition of fractions") true)
         empty_store).2.
Proof.
  assert (reachable (recordQuestionAttempt
            (sample_attempt (Some "ch-1") (Some "Addition of fractions") true)
            empty_store).2) as Hreach.
  { apply reachable_record, reachable_init. reflexivity. }
  split; [exact Hreach | exact (mastery_invariant _ Hreach)].
Defined.

(** [recorded_attempt_upserts_mastery] on an empty store: the attempt is
    written, then the one mastery row. *)
Lemma recorded_sample_attempt_upserts_mastery :
  (qa_chapter_id (sample_attempt (Some "ch-1") (Some "Addition of fractions") true)
   = Some "ch-1"
   ∧ "ch-1" ≠ EmptyString
   ∧ qa_concept (sample_attempt (Some "ch-1") (Some "Addition of fractions") true)
     = Some "Addition of fractions"
   ∧ "Addition of fractions" ≠ EmptyString)
  ∧ (recordQuestionAttempt
       (sample_attempt (Some "ch-1") (Some "Addition of fractions") true)
       empty_store).1 = Returned tt
  ∧ writes
      (recordQuestionAttempt
         (sample_attempt (Some "ch-1") (Some "Addition of fractions") true)
         empty_store).2
    = [AttemptInserted
         (sample_attempt (Some "ch-1") (Some "Addition of fractions") true);
       MasteryInserted ("user-1", "ch-1", "Addition of fractions")].
Proof.
  split; [repeat split; discriminate|].
  destruct (recorded_attempt_upserts_mastery
              (sample_attempt (Some "ch-1") (Some "Addition of fractions") true)
              empty_store "ch-1" "Addition of fractions")
    as [Hreturns Hwrites];
    [reflexivity | discriminate | reflexivity | discriminate |].
  split; [exact (Hreturns eq_refl)|].
  rewrite (Hreturns eq_refl) in Hwrites. exact (proj1 Hwrites).
Defined.

(** C5 as stated fails: an attempt that carries a concept and no chapter id
    is recorded, and no mastery row is created or updated. *)
Lemma attempt_without_chapter_skips_mastery :
  qa_concept attempt_without_chapter = Some "Addition of fractions"
  ∧ recordQuestionAttempt attempt_without_chapter empty_store
    = (Returned tt,
       {| question_attempts := [attempt_without_chapter];
          concept_mastery := ∅;
          writes := [AttemptInserted attempt_without_chapter];
          clock := clock empty_store;
          faults := [] |}).
Proof. split; reflexivity. Qed.

(** ** DiagnosticAnalyzer: pairing by position *)

Section Pairing.

Variable JSON_parse : string → outcome json.

Implicit Types (answers : list DiagnosticAnswer) (questions : list DiagnosticQuestion).
Implicit Types (reply : outcome response) (rev : revision) (now : Z).

Lemma tallyScores_questionId answers answers' questions :
  same_up_to_questionId answers answers' →
  tallyScores answers questions = tallyScores answers' questions.
Proof.
  intros Hsame. rewrite !tallyScores_paired. unfold paired.
  generalize (@nil (string * tally), @nil (string * tally)).
  revert questions.
  induction Hsame as [|a a' answers answers' [_ Hcorrect] _ IH];
    intros [|q questions] st; try done.
  simpl. unfold tally_step at 2 4. simpl. rewrite Hcorrect. apply IH.
Qed.

(** C10. The tallies are built from the pairs (i-th answer, i-th
    question); two answer lists that differ only in their questionId fields
    give the same strengths, weaknesses and gaps, whatever the oracle
    replies; and there are answers and a bank such that the same bank in
    another order gives another classification. *)
Theorem questionId_is_never_read rev :
  (∀ answers questions,
     tallyScores answers questions
     = fold_left tally_step (zip answers questions) ([], []))
  ∧ (∀ answers answers' questions reply reply' now now',
       same_up_to_questionId answers answers' →
       ∃ r r',
         analyze JSON_parse rev answers questions reply now = Returned r
         ∧ analyze JSON_parse rev answers' questions reply' now' = Returned r'
         ∧ dr_strengths r = dr_strengths r'
         ∧ dr_weaknesses r = dr_weaknesses r'
         ∧ dr_gaps r = dr_gaps r')
  ∧ (∀ reply now,
       ∃ answers questions questions' r r',
         questions ≡ₚ questions'
         ∧ analyze JSON_parse rev answers questions reply now = Returned r
         ∧ analyze JSON_parse rev answers questions' reply now = Returned r'
         ∧ dr_strengths r ≠ dr_strengths r'
         ∧ dr_weaknesses r ≠ dr_weaknesses r'
         ∧ dr_gaps r ≠ dr_gaps r').
Proof.
  split; [apply tallyScores_paired|]. split.
  - intros answers answers' questions reply reply' now now' Hsame.
    destruct (analyze_returns JSON_parse rev answers questions reply now)
      as (r & Hr & Hclass & _).
    destruct (analyze_returns JSON_parse rev answers' questions reply' now')
      as (r' & Hr' & Hclass' & _).
    exists r, r'. split; [done|]. split; [done|].
    rewrite <- (tallyScores_questionId _ _ _ Hsame), <- Hclass in Hclass'.
    by injection Hclass' as -> -> ->.
  - intros reply now.
    destruct (analyze_returns JSON_parse rev half_right_answers two_topic_bank
                reply now) as (r & Hr & Hclass & _).
    destruct (analyze_returns JSON_parse rev half_right_answers
                two_topic_bank_swapped reply now) as (r' & Hr' & Hclass' & _).
    exists half_right_answers, two_topic_bank, two_topic_bank_swapped, r, r'.
    split; [apply Permutation_swap|]. split; [done|]. split; [done|].
    change (classifyTopics (tallyScores half_right_answers two_topic_bank).1)
      with (["Fractions"], ["Algebra"], ["Algebra"]) in Hclass.
    change (classifyTopics (tallyScores half_right_answers two_topic_bank_swapped).1)
      with (["Algebra"], ["Fractions"], ["Fractions"]) in Hclass'.
    injection Hclass as -> -> ->. injection Hclass' as -> -> ->.
    repeat split; discriminate.
Qed.

End Pairing.

(** ** DiagnosticAnalyzer: the fallback *)

Section Fallback.

Variable JSON_parse : string → outcome json.

Implicit Types (answers : list DiagnosticAnswer) (questions : list DiagnosticQuestion).
Implicit Types (reply : outcome response) (rev : revision) (now : Z).

(** The two ways the oracle lets the service down: the call fails, or no
    text parses as a JSON array. *)
Lemma no_array_when_call_fails rev (e : exn) :
  ¬ (∃ items, oracle_array JSON_parse rev (Thrown e) items).
Proof. intros [items H]. destruct H as [? ? ? ? Hreply]. discriminate Hreply. Qed.

Lemma no_array_when_unparsable rev reply :
  (∀ part items, JSON_parse part ≠ Returned (JArray items)) →
  ¬ (∃ items, oracle_array JSON_parse rev reply items).
Proof.
  intros Hparse [items H]. destruct H as [? ? ? part _ _ _ _ _ _ Hitems].
  by apply (Hparse part items).
Qed.

(** C6. When the oracle call fails, or its output does not parse as a
    JSON array, the analysis still returns; its recommendations are the
    fallback list for the lists and the score it computed: the first entry
    starts with "You scored <score>/<total>", a later entry is the
    practice-cadence tip, and when there is a weakness a later entry names
    the first one. *)
Theorem fallback_when_oracle_fails rev answers questions reply now :
  ¬ (∃ items, oracle_array JSON_parse rev reply items) →
  ∃ r first rest,
    analyze JSON_parse rev answers questions reply now = Returned r
    ∧ dr_score r = jslength (filter (λ a, correct a = true) answers)
    ∧ dr_total_questions r = jslength questions
    ∧ dr_recommendations r
      = JString <$> fallbackRecommendations (emoji_of rev)
                      (dr_strengths r) (dr_weaknesses r)
                      (dr_score r) (dr_total_questions r)
    ∧ dr_recommendations r = JString <$> first :: rest
    ∧ (∃ tail,
         first = "You scored " +:+ pretty (dr_score r) +:+ "/"
                   +:+ pretty (dr_total_questions r) +:+ tail)
    ∧ (∃ tail,
         ("Focus on daily practice - even 15 minutes makes a difference! " +:+ tail)
           ∈ rest)
    ∧ (∀ w ws, dr_weaknesses r = w :: ws →
         ∃ tail, ("Let's work on " +:+ w +:+ tail) ∈ rest).
Proof.
  intros Hfail.
  destruct (analyze_returns JSON_parse rev answers questions reply now)
    as (r & Hr & _ & Hscore & Htotal & Hrecs).
  destruct (recommend_cases JSON_parse rev (dr_strengths r) (dr_weaknesses r)
              (dr_gaps r) (dr_score r) (dr_total_questions r) reply)
    as [(items & Harray & _)|[_ Hfallback]].
  { exfalso. apply Hfail. by exists items. }
  rewrite Hfallback in Hrecs. injection Hrecs as Hrecs.
  destruct (fallback_shape (emoji_of rev) (dr_strengths r) (dr_weaknesses r)
              (dr_score r) (dr_total_questions r))
    as (rest & Hshape & Htip & Hweak).
  eexists r, _, rest. split; [done|]. split; [done|]. split; [done|].
  split; [done|]. split; [rewrite <- Hrecs, Hshape; reflexivity|].
  split; [by eexists|]. split; [by eexists|].
  intros w ws Hw. eexists. by eapply Hweak.
Qed.

(** Whatever the oracle does, the analysis returns. *)
Lemma analyze_never_throws rev answers questions reply now :
  ∃ r, analyze JSON_parse rev answers questions reply now = Returned r.
Proof.
  destruct (analyze_returns JSON_parse rev answers questions reply now)
    as (r & Hr & _). by exists r.
Qed.

End Fallback.

(** [questionId_is_never_read] at work: the sample answers and the same
    answers under other question ids, on the same bank. *)
Lemma relabelled_answers_classify_alike :
  same_up_to_questionId half_right_answers relabelled_answers
  ∧ ∃ r r',
      analyze parse_nothing Groq half_right_answers two_topic_bank
        (Thrown FetchError) 0 = Returned r
      ∧ analyze parse_nothing Groq relabelled_answers two_topic_bank
          garbage_reply 1 = Returned r'
      ∧ dr_strengths r = dr_strengths r'
      ∧ dr_weaknesses r = dr_weaknesses r'
      ∧ dr_gaps r = dr_gaps r'.
Proof.
  assert (same_up_to_questionId half_right_answers relabelled_answers) as Hsame
    by (repeat constructor).
  split; [exact Hsame|].
  exact (proj1 (proj2 (questionId_is_never_read parse_nothing Groq))
           half_right_answers relabelled_answers two_topic_bank
           (Thrown FetchError) garbage_reply 0 1 Hsame).
Defined.

(** [fallback_when_oracle_fails] at work: the oracle answers with prose. *)
Lemma fallback_on_garbage_reply :
  ¬ (∃ items, oracle_array parse_nothing Groq garbage_reply items)
  ∧ ∃ r,
      analyze parse_nothing Groq half_right_answers two_topic_bank garbage_reply 0
      = Returned r
      ∧ dr_recommendations r
        = JString <$> fallbackRecommendations emoji_groq
                        ["Fractions"] ["Algebra"] 1 2.
Proof.
  assert (¬ (∃ items, oracle_array parse_nothing Groq garbage_reply items))
    as Hfail.
  { intros [items H]. destruct H as [? ? ? ? _ _ _ _ _ _ Hparse].
    discriminate Hparse. }
  split; [exact Hfail|].
  destruct (fallback_when_oracle_fails parse_nothing Groq half_right_answers
              two_topic_bank garbage_reply 0 Hfail)
    as (r & first & rest & Hr & _ & _ & Hrecs & _).
  exists r. split; [exact Hr|].
  rewrite Hrecs.
  change (analyze parse_nothing Groq half_right_answers two_topic_bank
            garbage_reply 0)
    with (Returned
            {| dr_id := pretty 0; dr_user_id := EmptyString; dr_score := 1;
               dr_total_questions := 2; dr_strengths := ["Fractions"];
               dr_weaknesses := ["Algebra"]; dr_gaps := ["Algebra"];
               dr_recommendations :=
                 JString <$> fallbackRecommendations emoji_groq
                               ["Fractions"] ["Algebra"] 1 2;
               dr_completed_at := 0 |}) in Hr.
  injection Hr as <-. reflexivity.
Defined.

(** * Further properties of the code *)

(** ** LearningPathPlanner: the estimate is monotone *)

(** X1. A diagnostic with at least as many weaknesses, at least as many
    knowledge gaps and a score that is not higher never gets a shorter
    estimate. *)
Theorem estimateCompletionTime_monotone (d d' : ChapterDiagnostic) :
  (length (weaknesses d) ≤ length (weaknesses d'))%nat →
  (length (knowledge_gaps d) ≤ length (knowledge_gaps d'))%nat →
  (score_percentage d' <= score_percentage d)%Q →
  estimateCompletionTime d ≤ estimateCompletionTime d'.
Proof.
  intros Hw Hg Hs. unfold estimateCompletionTime, jslength.
  destruct (Qltb (score_percentage d) 30) eqn:H30;
    destruct (Qltb (score_percentage d) 60) eqn:H60;
    destruct (Qltb (score_percentage d') 30) eqn:H30';
    destruct (Qltb (score_percentage d') 60) eqn:H60';
    try lia; exfalso;
    rewrite ?Qltb_true, ?Qltb_false in *; lra.
Qed.

Lemma estimate_grows_with_difficulty :
  ((length (weaknesses (diagnostic_of ["a"] [] 70))
    ≤ length (weaknesses harder_diagnostic))%nat
   ∧ (length (knowledge_gaps (diagnostic_of ["a"] [] 70))
      ≤ length (knowledge_gaps harder_diagnostic))%nat
   ∧ (score_percentage harder_diagnostic
      <= score_percentage (diagnostic_of ["a"] [] 70))%Q)
  ∧ estimateCompletionTime (diagnostic_of ["a"] [] 70)
    ≤ estimateCompletionTime harder_diagnostic.
Proof.
  assert ((score_percentage harder_diagnostic
           <= score_percentage (diagnostic_of ["a"] [] 70))%Q) as Hs
    by (by apply Qle_bool_iff).
  split; [repeat split; [simpl; lia | simpl; lia | exact Hs]|].
  apply (estimateCompletionTime_monotone (diagnostic_of ["a"] [] 70)
           harder_diagnostic); [simpl; lia | simpl; lia | exact Hs].
Defined.

(** ** DiagnosticAnalyzer: what the analysis reads *)

Section AnalyzerInputs.

Variable JSON_parse : string → outcome json.

Implicit Types (answers : list DiagnosticAnswer) (questions : list DiagnosticQuestion).
Implicit Types (reply : outcome response) (rev : revision) (now : Z).

Lemma topicScores_topics answers questions questions' :
  same_topics questions questions' →
  (tallyScores answers questions).1 = (tallyScores answers questions').1.
Proof.
  intros Hsame. rewrite !tallyScores_paired, !fold_tally_step_fst. unfold paired.
  simpl. generalize (@nil (string * tally)). revert answers.
  induction Hsame as [|q q' questions questions' Htopic _ IH];
    intros [|a answers] scores; try done.
  simpl. rewrite Htopic. apply IH.
Qed.

(** X2. Of a question the analysis reads the topic and nothing else: two
    banks with the same topic at every position give the same result, field
    by field, for the same answers, oracle reply and clock. The concept
    tallies are computed and never used. *)
Theorem analysis_reads_topics_only rev answers questions questions' reply now :
  same_topics questions questions' →
  analyze JSON_parse rev answers questions reply now
  = analyze JSON_parse rev answers questions' reply now.
Proof.
  intros Hsame.
  pose proof (topicScores_topics answers _ _ Hsame) as Htopics.
  pose proof (Forall2_length _ _ _ Hsame) as Hlength.
  destruct rev; unfold analyze, analyzeDiagnosticResults,
    analyzeDiagnosticResults_gemini, analyzeDiagnosticResults_with, jslength;
    destruct (tallyScores answers questions) as [ts cs];
    destruct (tallyScores answers questions') as [ts' cs'];
    simpl in Htopics; subst ts'; by rewrite Hlength.
Qed.

Lemma tallyScores_take answers questions :
  tallyScores (take (length questions) answers) questions
  = tallyScores answers questions.
Proof.
  rewrite !tallyScores_paired. unfold paired. by rewrite zip_with_take_l.
Qed.

(** X3. Answers past the end of the bank are left out of the
    classification and counted in the score: cutting the answer list to the
    length of the bank leaves strengths, weaknesses and gaps as they are and
    lowers the score by the number of correct answers cut off. *)
Theorem answers_beyond_the_bank answers questions reply reply' now now' rev :
  ∃ r r',
    analyze JSON_parse rev answers questions reply now = Returned r
    ∧ analyze JSON_parse rev (take (length questions) answers) questions
        reply' now' = Returned r'
    ∧ dr_strengths r = dr_strengths r'
    ∧ dr_weaknesses r = dr_weaknesses r'
    ∧ dr_gaps r = dr_gaps r'
    ∧ dr_total_questions r = dr_total_questions r'
    ∧ dr_score r
      = dr_score r'
        + jslength (filter (λ a, correct a = true)
                      (drop (length questions) answers)).
Proof.
  destruct (analyze_returns JSON_parse rev answers questions reply now)
    as (r & Hr & Hclass & Hscore & Htotal & _).
  destruct (analyze_returns JSON_parse rev (take (length questions) answers)
              questions reply' now')
    as (r' & Hr' & Hclass' & Hscore' & Htotal' & _).
  exists r, r'. split; [done|]. split; [done|].
  rewrite tallyScores_take, <- Hclass in Hclass'.
  injection Hclass' as -> -> ->.
  repeat split; try done; [congruence|].
  rewrite Hscore, Hscore'. unfold jslength.
  rewrite <- (take_drop (length questions) answers) at 1.
  rewrite filter_app, length_app. lia.
Qed.

End AnalyzerInputs.

(** [analysis_reads_topics_only] on the two-topic bank and its recast. *)
Lemma recast_bank_analyses_alike :
  same_topics two_topic_bank two_topic_bank_recast
  ∧ analyze parse_nothing Groq half_right_answers two_topic_bank garbage_reply 0
    = analyze parse_nothing Groq half_right_answers two_topic_bank_recast
        garbage_reply 0.
Proof.
  assert (same_topics two_topic_bank two_topic_bank_recast) as Hsame
    by (repeat constructor).
  split; [exact Hsame|].
  exact (analysis_reads_topics_only parse_nothing Groq half_right_answers
           two_topic_bank two_topic_bank_recast garbage_reply 0 Hsame).
Defined.

(** ** MasteryUpdater and AttemptRecorder: failures and history *)

Section MasteryHistory.

Implicit Types (σ : store) (userId chapterId concept : string).
Implicit Types (isCorrect : bool) (timeSpent : Z) (key : string * string * string).

Lemma next_row_grows (row : ConceptMastery) isCorrect timeSpent (now : Z) :
  let row' := next_row (Some row) isCorrect timeSpent now in
  attempts_count row' = attempts_count row + 1
  ∧ correct_attempts row ≤ correct_attempts row' ≤ correct_attempts row + 1.
Proof. simpl. destruct isCorrect; lia. Qed.

Lemma insert_row_grows σ key (row : ConceptMastery) isCorrect timeSpent k :
  concept_mastery σ !! k = Some row →
  ∃ row',
    <[key := next_row (concept_mastery σ !! key) isCorrect timeSpent (clock σ)]>
      (concept_mastery σ) !! k = Some row'
    ∧ attempts_count row ≤ attempts_count row' ≤ attempts_count row + 1
    ∧ correct_attempts row ≤ correct_attempts row' ≤ correct_attempts row + 1.
Proof.
  intros Hrow. destruct (decide (key = k)) as [->|Hne].
  - rewrite lookup_insert_eq, Hrow. eexists. split; [done|].
    pose proof (next_row_grows row isCorrect timeSpent (clock σ)) as [Hn Hc].
    simpl in Hn, Hc. simpl. lia.
  - rewrite lookup_insert_ne by done. exists row. split; [done|]. lia.
Qed.

(** X4. No call of the service deletes a mastery row or lowers its
    counters: after [updateConceptMastery] or [recordQuestionAttempt],
    whether it returns or throws, every row that existed still exists, with
    attempts_count and correct_attempts each kept or raised by one. *)
Theorem mastery_rows_persist σ k (row : ConceptMastery) :
  concept_mastery σ !! k = Some row →
  (∀ userId chapterId concept isCorrect timeSpent,
     ∃ row',
       concept_mastery
         (updateConceptMastery userId chapterId concept isCorrect timeSpent σ).2
         !! k = Some row'
       ∧ attempts_count row ≤ attempts_count row' ≤ attempts_count row + 1
       ∧ correct_attempts row ≤ correct_attempts row' ≤ correct_attempts row + 1)
  ∧ (∀ attempt,
       ∃ row',
         concept_mastery (recordQuestionAttempt attempt σ).2 !! k = Some row'
         ∧ attempts_count row ≤ attempts_count row' ≤ attempts_count row + 1
         ∧ correct_attempts row ≤ correct_attempts row' ≤ correct_attempts row + 1).
Proof.
  intros Hrow. split.
  - intros userId chapterId concept isCorrect timeSpent.
    destruct (updateConceptMastery userId chapterId concept isCorrect timeSpent σ)
      as [r σ'] eqn:Hrun.
    apply updateConceptMastery_step in Hrun
      as (_ & _ & [(_ & Hm & _)|(_ & Hm & _)]); simpl; rewrite Hm.
    + by apply insert_row_grows.
    + exists row. split; [done|]. lia.
  - intros attempt.
    destruct (recordQuestionAttempt attempt σ) as [r σ'] eqn:Hrun.
    apply recordQuestionAttempt_step in Hrun as [_ Hrun]. simpl.
    destruct (truthy (qa_concept attempt) && truthy (qa_chapter_id attempt)).
    + destruct Hrun as [(_ & _ & Hm & _)|(_ & Hm)]; rewrite Hm.
      * by apply insert_row_grows.
      * exists row. split; [done|]. lia.
    + destruct Hrun as [Hm _]. rewrite Hm. exists row. split; [done|]. lia.
Qed.

(** X5. Recording is not atomic: when the store serves the attempt insert
    and the mastery lookup and then refuses the mastery write,
    [recordQuestionAttempt] throws the store's error although the attempt
    row has been written; concept mastery is left as it was. *)
Theorem attempt_kept_when_mastery_write_fails attempt σ (rest : list bool) :
  truthy (qa_concept attempt) && truthy (qa_chapter_id attempt) = true →
  faults σ = false :: false :: true :: rest →
  recordQuestionAttempt attempt σ
  = (Thrown (DbError "unavailable"),
     {| question_attempts := question_attempts σ ++ [attempt];
        concept_mastery := concept_mastery σ;
        writes := writes σ ++ [AttemptInserted attempt];
        clock := clock σ;
        faults := rest |}).
Proof.
  intros Htrigger Hfaults.
  unfold recordQuestionAttempt, updateConceptMastery, try_catchM,
    insert_question_attempt, select_concept_mastery, update_concept_mastery,
    insert_concept_mastery, throw_if_error, Date_now, call_fails, throw,
    mbind, M_bind, mret, M_ret, push.
  rewrite Hfaults. simpl. rewrite Htrigger. simpl.
  by destruct (concept_mastery σ !! _).
Qed.

(** X6. A lookup that fails reads as "no row": [updateConceptMastery] then
    tries to insert a first row.  When the row exists the unique constraint
    rejects the insert, the call throws and the row keeps its counters; when
    there is none the first row is created as usual. *)
Theorem failed_lookup_never_resets userId chapterId concept isCorrect timeSpent σ
    (rest : list bool) :
  faults σ = true :: false :: rest →
  let key := (userId, chapterId, concept) in
  updateConceptMastery userId chapterId concept isCorrect timeSpent σ
  = match concept_mastery σ !! key with
    | Some _ =>
        (Thrown (DbError "23505"),
         {| question_attempts := question_attempts σ;
            concept_mastery := concept_mastery σ;
            writes := writes σ;
            clock := clock σ;
            faults := rest |})
    | None =>
        (Returned tt,
         {| question_attempts := question_attempts σ;
            concept_mastery :=
              <[key := {| mastery_level := if isCorrect then 1 else 0;
                          attempts_count := 1;
                          correct_attempts := if isCorrect then 1 else 0;
                          last_practiced_at := clock σ;
                          time_to_master_minutes := timeSpent `div` 60 |}]>
                (concept_mastery σ);
            writes := writes σ ++ [MasteryInserted key];
            clock := clock σ;
            faults := rest |})
    end.
Proof.
  intros Hfaults key. subst key.
  unfold updateConceptMastery, try_catchM, select_concept_mastery,
    insert_concept_mastery, throw_if_error, Date_now, call_fails, throw,
    mbind, M_bind, mret, M_ret, push.
  rewrite Hfaults. simpl.
  by destruct (concept_mastery σ !! _).
Qed.

End MasteryHistory.

(** [mastery_rows_persist] on the store with one row. *)
Lemma sample_row_persists :
  concept_mastery store_with_failing_lookup
    !! ("user-1", "ch-1", "Addition of fractions")
  = Some {| mastery_level := 1; attempts_count := 3; correct_attempts := 3;
            last_practiced_at := 1757588000; time_to_master_minutes := 4 |}
  ∧ ∃ row',
      concept_mastery
        (recordQuestionAttempt
           (sample_attempt (Some "ch-1") (Some "Addition of fractions") false)
           store_with_failing_lookup).2
        !! ("user-1", "ch-1", "Addition of fractions") = Some row'
      ∧ 3 ≤ attempts_count row' ≤ 3 + 1
      ∧ 3 ≤ correct_attempts row' ≤ 3 + 1.
Proof.
  split; [reflexivity|].
  exact (proj2 (mastery_rows_persist store_with_failing_lookup
                  ("user-1", "ch-1", "Addition of fractions") _ eq_refl)
           (sample_attempt (Some "ch-1") (Some "Addition of fractions") false)).
Defined.

(** [attempt_kept_when_mastery_write_fails] on an empty store. *)
Lemma sample_attempt_kept_when_mastery_write_fails :
  (truthy (qa_concept (sample_attempt (Some "ch-1") (Some "Addition of fractions") true))
   && truthy (qa_chapter_id
                (sample_attempt (Some "ch-1") (Some "Addition of fractions") true))
   = true
   ∧ faults store_refusing_mastery_write = [false; false; true])
  ∧ (recordQuestionAttempt
       (sample_attempt (Some "ch-1") (Some "Addition of fractions") true)
       store_refusing_mastery_write).1
    = Thrown (DbError "unavailable")
  ∧ question_attempts
      (recordQuestionAttempt
         (sample_attempt (Some "ch-1") (Some "Addition of fractions") true)
         store_refusing_mastery_write).2
    = [sample_attempt (Some "ch-1") (Some "Addition of fractions") true].
Proof.
  split; [split; reflexivity|].
  rewrite (attempt_kept_when_mastery_write_fails
             (sample_attempt (Some "ch-1") (Some "Addition of fractions") true)
             store_refusing_mastery_write [] eq_refl eq_refl).
  split; reflexivity.
Defined.

(** [failed_lookup_never_resets] on the store with one row. *)
Lemma sample_failed_lookup_keeps_the_row :
  faults store_with_failing_lookup = [true; false]
  ∧ (updateConceptMastery "user-1" "ch-1" "Addition of fractions" false 60
       store_with_failing_lookup).1
    = Thrown (DbError "23505")
  ∧ concept_mastery
      (updateConceptMastery "user-1" "ch-1" "Addition of fractions" false 60
         store_with_failing_lookup).2
    = concept_mastery store_with_failing_lookup.
Proof.
  split; [reflexivity|].
  rewrite (failed_lookup_never_resets "user-1" "ch-1" "Addition of fractions"
             false 60 store_with_failing_lookup [] eq_refl).
  split; reflexivity.
Defined.

(** ** Percentages stay percentages *)

Section Percentages.

Implicit Types (σ : store) (attempts : option (list QuestionAttempt)).

Lemma ratio_bounds (c n : Z) :
  0 ≤ c → c ≤ n → 0 < n →
  (0 <= inject_Z c / inject_Z n)%Q ∧ (inject_Z c / inject_Z n <= 1)%Q.
Proof.
  intros Hc Hcn Hn.
  assert (0 < inject_Z n)%Q as Hn'
    by (replace 0%Q with (inject_Z 0) by done; by rewrite <- Zlt_Qlt).
  split.
  - apply Qle_shift_div_l; [done|]. rewrite Qmult_0_l.
    replace 0%Q with (inject_Z 0) by done. by rewrite <- Zle_Qle.
  - apply Qle_shift_div_r; [done|]. rewrite Qmult_1_l. by rewrite <- Zle_Qle.
Qed.

(** X7. The accuracy of a progress report is a percentage: between 0 and
    100 whatever the window queries returned. *)
Theorem accuracy_is_a_percentage attempts :
  (0 <= accuracyPercentage_of attempts)%Q
  ∧ (accuracyPercentage_of attempts <= 100)%Q.
Proof.
  unfold accuracyPercentage_of, totalAttempts_of, correctAttempts_of.
  rewrite !or_zero_id.
  destruct attempts as [attempts|]; simpl; [|done].
  destruct (0 <? jslength attempts) eqn:Hpos; [|done].
  apply Z.ltb_lt in Hpos.
  destruct (ratio_bounds
              (jslength (filter (λ x, is_correct x = true) attempts))
              (jslength attempts)) as [H0 H1]; [| |done|].
  - unfold jslength. lia.
  - unfold jslength. pose proof (length_filter (λ x, is_correct x = true) attempts).
    lia.
  - split; lra.
Qed.

Lemma reachable_rows_ok σ : reachable σ → mastery_ok σ.
Proof.
  induction 1 as [σ Hempty | now script σ _ IH
                 | userId chapterId concept isCorrect timeSpent σ _ IH
                 | attempt σ _ IH].
  - intros k row. rewrite Hempty, lookup_empty. done.
  - exact IH.
  - destruct (updateConceptMastery userId chapterId concept isCorrect timeSpent σ)
      as [r σ'] eqn:Hrun.
    apply updateConceptMastery_step in Hrun
      as (_ & _ & [(_ & Hm & _)|(_ & Hm & _)]);
      intros k row; simpl; rewrite Hm; [|apply IH].
    apply insert_mastery_ok; [done.. |].
    apply next_row_ok. intros row0 Hrow0. by apply (IH _ _ Hrow0).
  - destruct (recordQuestionAttempt attempt σ) as [r σ'] eqn:Hrun.
    apply recordQuestionAttempt_step in Hrun as [_ Hrun].
    destruct (truthy (qa_concept attempt) && truthy (qa_chapter_id attempt)).
    + destruct Hrun as [(_ & _ & Hm & _)|(_ & Hm)];
        intros k row; simpl; rewrite Hm; [|apply IH].
      apply insert_mastery_ok; [done.. |].
      apply next_row_ok. intros row0 Hrow0. by apply (IH _ _ Hrow0).
    + destruct Hrun as [Hm _]. intros k row. simpl. rewrite Hm. apply IH.
Qed.

Lemma sum_of_levels_bounds (l : list (string * string * string * ConceptMastery)) :
  (∀ m, m ∈ l → row_ok m.2) →
  (0 <= foldr Qplus 0 (map (λ m, mastery_level m.2) l))%Q
  ∧ (foldr Qplus 0 (map (λ m, mastery_level m.2) l) <= inject_Z (jslength l))%Q.
Proof.
  induction l as [|m l IH]; intros Hok; simpl.
  - split; done.
  - destruct IH as [IH0 IH1].
    { intros m' Hm'. apply Hok. by right. }
    destruct (Hok m) as (H0 & H1 & _); [by left|].
    split; [lra|].
    replace (jslength (m :: l)) with (1 + jslength l)
      by (unfold jslength; simpl length; lia).
    rewrite inject_Z_plus. change (inject_Z 1) with 1%Q. lra.
Qed.

(** X8. In every store the service can reach, the overall progress computed
    from a user's mastery rows is a percentage: between 0 and 100. *)
Theorem overall_progress_is_a_percentage σ (userId : string) :
  reachable σ →
  (0 <= calculateOverallProgress (mastery_of_user userId σ))%Q
  ∧ (calculateOverallProgress (mastery_of_user userId σ) <= 100)%Q.
Proof.
  intros Hreach. pose proof (reachable_rows_ok σ Hreach) as Hok.
  unfold calculateOverallProgress.
  destruct (jslength (mastery_of_user userId σ) =? 0) eqn:Hlen; [done|].
  apply Z.eqb_neq in Hlen.
  assert (0 < jslength (mastery_of_user userId σ)) as Hpos
    by (unfold jslength in *; lia).
  destruct (sum_of_levels_bounds (mastery_of_user userId σ)) as [H0 H1].
  { intros [k row] [_ Hin]%list_elem_of_filter.
    apply elem_of_map_to_list in Hin. by apply (Hok k). }
  rewrite reduce_sum_Q, Qplus_0_l.
  assert (0 < inject_Z (jslength (mastery_of_user userId σ)))%Q as Hn
    by (replace 0%Q with (inject_Z 0) by done; by rewrite <- Zlt_Qlt).
  set (total := foldr Qplus 0%Q _) in *.
  set (n := inject_Z _) in *.
  assert (0 <= total / n)%Q as Hq0
    by (apply Qle_shift_div_l; [done | lra]).
  assert (total / n <= 1)%Q as Hq1
    by (apply Qle_shift_div_r; [done | lra]).
  split; lra.
Qed.

End Percentages.

(** [overall_progress_is_a_percentage] after one recorded attempt. *)
Lemma overall_progress_after_recording :
  reachable
    (recordQuestionAttempt
       (sample_attempt (Some "ch-1") (Some "Addition of fractions") true)
       empty_store).2
  ∧ (0 <= calculateOverallProgress
            (mastery_of_user "user-1"
               (recordQuestionAttempt
                  (sample_attempt (Some "ch-1") (Some "Addition of fractions") true)
                  empty_store).2))%Q
  ∧ (calculateOverallProgress
       (mastery_of_user "user-1"
          (recordQuestionAttempt
             (sample_attempt (Some "ch-1") (Some "Addition of fractions") true)
             empty_store).2) <= 100)%Q.
Proof.
  assert (reachable (recordQuestionAttempt
            (sample_attempt (Some "ch-1") (Some "Addition of fractions") true)
            empty_store).2) as Hreach.
  { apply reachable_record, reachable_init. reflexivity. }
  split; [exact Hreach|].
  exact (overall_progress_is_a_percentage _ "user-1" Hreach).
Defined.

(** ** When a concept counts as mastered *)

Section Mastered.

Implicit Types (σ : store) (key : string * string * string).





End Mastered.


(** ** Concept statistics of a report *)

Section ConceptStatistics.

Lemma obj_get_concept_step stats a c :
  obj_get (concept_performance_step stats a) c
  = if decide (truthy (qa_concept a) = true ∧ qa_concept a = Some c) then
      let base :=
        default {| cs_total := 0; cs_correct := 0; cs_accuracy := 0;
                   cs_avgTime := 0; cs_totalTime := 0 |} (obj_get stats c) in
      Some {| cs_total := cs_total base + 1;
              cs_correct := cs_correct base + (if is_correct a then 1 else 0);
              cs_accuracy := cs_accuracy base;
              cs_avgTime := cs_avgTime base;
              cs_totalTime := cs_totalTime base + time_taken_seconds a |}
    else obj_get stats c.
Proof.
  unfold concept_performance_step.
  destruct (qa_concept a) as [k|] eqn:Hk; cbn [truthy negb default from_option id].
  2: { case_decide as H; [by destruct H | done]. }
  destruct (String.eqb_spec k EmptyString) as [->|Hne]; cbn [negb].
  { case_decide as H; [by destruct H | done]. }
  destruct (decide (k = c)) as [->|Hkc].
  - rewrite decide_True by done.
    destruct (obj_get stats c) as [s|] eqn:Hget, (is_correct a);
      rewrite ?obj_get_modify, ?decide_True by done;
      rewrite ?obj_get_set_eq, ?Hget; simpl; do 2 f_equal; lia.
  - rewrite decide_False by (intros [_ [=]]; done).
    destruct (obj_get stats k) as [s|] eqn:Hget, (is_correct a);
      rewrite ?obj_get_modify, ?decide_False by done;
      rewrite ?obj_get_set_ne by done; done.
Qed.

Lemma concept_step_NoDup stats a :
  NoDup stats.*1 → NoDup (concept_performance_step stats a).*1.
Proof.
  intros Hnd. unfold concept_performance_step.
  destruct (negb (truthy (qa_concept a))); [done|].
  destruct (obj_get stats _), (is_correct a);
    repeat apply obj_modify_NoDup; try apply obj_set_NoDup; done.
Qed.

Lemma Zsum_app (l1 l2 : list Z) : Zsum (l1 ++ l2) = Zsum l1 + Zsum l2.
Proof. unfold Zsum. induction l1 as [|x l1 IH]; simpl; lia. Qed.

Lemma attempts_on_snoc c seen a :
  attempts_on c (seen ++ [a])
  = attempts_on c seen ++ (if decide (qa_concept a = Some c) then [a] else []).
Proof.
  unfold attempts_on. rewrite filter_app. f_equal.
Qed.

Lemma counted_snoc c seen a :
  counted c (seen ++ [a])
  = if decide (truthy (qa_concept a) = true ∧ qa_concept a = Some c) then
      let base :=
        default {| cs_total := 0; cs_correct := 0; cs_accuracy := 0;
                   cs_avgTime := 0; cs_totalTime := 0 |} (counted c seen) in
      Some {| cs_total := cs_total base + 1;
              cs_correct := cs_correct base + (if is_correct a then 1 else 0);
              cs_accuracy := cs_accuracy base;
              cs_avgTime := cs_avgTime base;
              cs_totalTime := cs_totalTime base + time_taken_seconds a |}
    else counted c seen.
Proof.
  unfold counted. rewrite attempts_on_snoc.
  destruct (decide (qa_concept a = Some c)) as [Hc|Hc].
  - rewrite Hc. cbn [truthy].
    destruct (String.eqb_spec c EmptyString) as [->|Hne]; cbn [negb].
    + rewrite (decide_False (P := _ ∧ _)) by (by intros [? _]).
      rewrite !decide_True by (by left). done.
    + rewrite (decide_True (P := _ ∧ _)) by done.
      rewrite decide_False by (intros [?|[_ ?]%app_eq_nil]; done).
      destruct (attempts_on c seen) as [|x mine] eqn:Hmine.
      * rewrite decide_True by (by right). simpl.
        rewrite filter_cons. destruct (is_correct a) eqn:Hok.
        -- rewrite decide_True by done. simpl. do 2 f_equal. lia.
        -- rewrite decide_False by done. simpl. do 2 f_equal. lia.
      * rewrite decide_False by (intros [?|?]; done). cbn [default from_option id].
        rewrite filter_app, map_app, Zsum_app, !(filter_cons _ a), filter_nil.
        unfold jslength. rewrite !length_app.
        f_equal. f_equal.
        -- simpl. lia.
        -- destruct (is_correct a).
           ++ rewrite decide_True by done. cbn [length cs_correct]. lia.
           ++ rewrite decide_False by done. cbn [length cs_correct]. lia.
        -- cbn [cs_totalTime]. unfold Zsum at 2. simpl. lia.
  - rewrite app_nil_r. rewrite (decide_False (P := _ ∧ _)) by (by intros [_ ?]).
    done.
Qed.

Lemma fold_concept_step l seen stats :
  NoDup stats.*1 →
  (∀ c, obj_get stats c = counted c seen) →
  let stats' := fold_left concept_performance_step l stats in
  NoDup stats'.*1 ∧ ∀ c, obj_get stats' c = counted c (seen ++ l).
Proof.
  revert seen stats. induction l as [|a l IH]; intros seen stats Hnd Hget; simpl.
  - by rewrite app_nil_r.
  - destruct (IH (seen ++ [a]) (concept_performance_step stats a)) as [Hnd' Hget'].
    + by apply concept_step_NoDup.
    + intros c. rewrite obj_get_concept_step, counted_snoc, Hget. done.
    + split; [done|]. intros c. rewrite Hget'. by rewrite <- app_assoc.
Qed.

Lemma obj_modify_keys {V : Type} (obj : list (string * V)) key (f : V → V) :
  (obj_modify obj key f).*1 = obj.*1.
Proof.
  unfold obj_modify. destruct (obj_get obj key) as [v|] eqn:Hget; [|done].
  rewrite obj_set_keys. rewrite decide_True; [done|].
  destruct (decide (key ∈ obj.*1)) as [|Hnin]; [done|].
  apply obj_get_None in Hnin. congruence.
Qed.

Lemma fold_modify_keys {V : Type} (f : V → V) (l : list string)
    (obj : list (string * V)) :
  (fold_left (λ o k, obj_modify o k f) l obj).*1 = obj.*1.
Proof.
  revert obj. induction l as [|k l IH]; intros obj; simpl; [done|].
  by rewrite IH, obj_modify_keys.
Qed.

Lemma fold_modify_get {V : Type} (f : V → V) (l : list string)
    (obj : list (string * V)) c :
  NoDup l →
  obj_get (fold_left (λ o k, obj_modify o k f) l obj) c
  = if decide (c ∈ l) then f <$> obj_get obj c else obj_get obj c.
Proof.
  revert obj. induction l as [|k l IH]; intros obj Hnd; cbn [fold_left].
  - rewrite decide_False; [done | apply not_elem_of_nil].
  - apply NoDup_cons in Hnd as [Hk Hnd]. rewrite IH by done.
    rewrite obj_get_modify.
    destruct (decide (k = c)) as [->|Hne].
    + rewrite decide_False by done. rewrite decide_True; [done | by left].
    + destruct (decide (c ∈ l)) as [Hin|Hnin].
      * rewrite decide_True; [done | by right].
      * rewrite decide_False; [done|]. intros [?|?]%elem_of_cons; done.
Qed.

Lemma concept_statistics_get attempts :
  NoDup (analyzeConceptPerformance attempts).*1
  ∧ ∀ c, obj_get (analyzeConceptPerformance attempts) c = stats_of c attempts.
Proof.
  unfold analyzeConceptPerformance, forEach.
  destruct (fold_concept_step attempts [] []) as [Hnd Hget]; [apply NoDup_nil_2| |].
  { intros c. unfold counted. simpl. rewrite decide_True; [done | by right]. }
  simpl in Hnd, Hget. split.
  - by rewrite fold_modify_keys.
  - intros c. rewrite fold_modify_get by done. rewrite Hget.
    assert (concept_averages <$> counted c attempts = stats_of c attempts) as Havg.
    { unfold counted, stats_of. case_decide; done. }
    case_decide as Hin; [done|].
    apply obj_get_None in Hin. rewrite Hget in Hin.
    rewrite <- Havg. by rewrite Hin.
Qed.


Lemma Qgtb_true (x y : Q) : Qgtb x y = true ↔ (y < x)%Q.
Proof. apply (Qltb_true y x). Qed.

Lemma accuracy_band (P : Q → Prop) `{!∀ x, Decision (P x)} attempts c :
  c ∈ (filter (λ e, P (cs_accuracy e.2)) (analyzeConceptPerformance attempts)).*1
  ↔ c ≠ EmptyString ∧ attempts_on c attempts ≠ [] ∧ P (concept_accuracy c attempts).
Proof.
  destruct (concept_statistics_get attempts) as [Hnd Hget].
  rewrite list_elem_of_fmap. split.
  - intros ([c' s] & -> & [HP Hin]%list_elem_of_filter).
    apply obj_get_Some in Hin; [|done].
    rewrite Hget in Hin. unfold stats_of in Hin.
    case_decide as Hc; [done|]. injection Hin as <-. simpl in *.
    split; [naive_solver | split; [naive_solver | done]].
  - intros (Hne & Hmine & HP).
    eexists (c, _). split; [done|]. apply list_elem_of_filter. split.
    2: { apply obj_get_Some; [done|]. rewrite Hget. unfold stats_of.
         rewrite decide_False; [done | tauto]. }
    done.
Qed.

(** X11. On a window none of whose concept labels is a name inherited
    from [Object.prototype], the report lists a concept as a strength
    exactly when the window holds an attempt on it and its accuracy there is
    above 80%, and as an area for improvement exactly when the accuracy is
    below 60%.  No concept is in both lists and neither list repeats a
    concept.  (An inherited name reads as present on the empty dictionary,
    so the code makes no entry under it; [conceptStats] is the dictionary of
    the code under the other labels.) *)
Theorem report_strengths_and_weaknesses (attempts : option (list QuestionAttempt))
    (c : string) :
  Forall own_concept (default [] attempts) →
  let window := default [] attempts in
  (c ∈ report_strengths attempts
   ↔ c ≠ EmptyString ∧ attempts_on c window ≠ []
     ∧ (80 < concept_accuracy c window)%Q)
  ∧ (c ∈ report_weaknesses attempts
     ↔ c ≠ EmptyString ∧ attempts_on c window ≠ []
       ∧ (concept_accuracy c window < 60)%Q)
  ∧ ¬ (c ∈ report_strengths attempts ∧ c ∈ report_weaknesses attempts)
  ∧ NoDup (report_strengths attempts)
  ∧ NoDup (report_weaknesses attempts).
Proof.
  intros _ window. unfold report_strengths, report_weaknesses. fold window.
  pose proof (accuracy_band (λ x, Qgtb x 80 = true) window c) as Hs.
  pose proof (accuracy_band (λ x, Qltb x 60 = true) window c) as Hw.
  rewrite Qgtb_true in Hs. rewrite Qltb_true in Hw.
  destruct (concept_statistics_get window) as [Hnd _].
  split; [done|]. split; [done|]. split.
  - rewrite Hs, Hw. intros [(_ & _ & H1) (_ & _ & H2)]. lra.
  - split; by apply filter_fst_NoDup.
Qed.

End ConceptStatistics.

(** [report_strengths_and_weaknesses] on a window of one correct attempt
    on "Addition of fractions": the concept is a strength. *)
Lemma sample_concept_is_a_strength :
  Forall own_concept
    [sample_attempt (Some "ch-1") (Some "Addition of fractions") true]
  ∧ "Addition of fractions"
    ∈ report_strengths
        (Some [sample_attempt (Some "ch-1") (Some "Addition of fractions") true]).
Proof.
  assert (Forall own_concept
            [sample_attempt (Some "ch-1") (Some "Addition of fractions") true])
    as Hown
    by (repeat constructor; apply (bool_decide_unpack _); vm_compute; exact I).
  split; [exact Hown|].
  apply (proj1 (report_strengths_and_weaknesses
                  (Some [sample_attempt (Some "ch-1") (Some "Addition of fractions")
                           true])
                  "Addition of fractions" Hown)).
  split; [done|]. split; [done|]. by vm_compute.
Defined.

(** ** Difficulty progression of a report *)

Section DifficultyProgression.

Lemma difficulty_step_get p a d :
  progression_get (difficulty_step p a) d
  = if decide (qa_difficulty a = d) then
      {| ds_total := ds_total (progression_get p d) + 1;
         ds_correct :=
           ds_correct (progression_get p d) + (if is_correct a then 1 else 0);
         ds_accuracy := ds_accuracy (progression_get p d) |}
    else progression_get p d.
Proof.
  unfold difficulty_step.
  destruct (qa_difficulty a), d, (is_correct a), p as [[] [] []];
    simpl; f_equal; lia.
Qed.

Lemma fold_difficulty_step l p d :
  progression_get (fold_left difficulty_step l p) d
  = {| ds_total := ds_total (progression_get p d) + jslength (attempts_at d l);
       ds_correct :=
         ds_correct (progression_get p d)
         + jslength (filter (λ a, is_correct a = true) (attempts_at d l));
       ds_accuracy := ds_accuracy (progression_get p d) |}.
Proof.
  revert p. induction l as [|a l IH]; intros p; cbn [fold_left].
  - destruct (progression_get p d). unfold attempts_at, jslength. simpl.
    f_equal; lia.
  - rewrite IH, difficulty_step_get. unfold attempts_at, jslength.
    rewrite (filter_cons _ a). destruct (decide (qa_difficulty a = d)) as [Hd|Hd].
    + rewrite (filter_cons _ a). destruct (is_correct a).
      * rewrite decide_True by done. simpl. f_equal; lia.
      * rewrite decide_False by done. simpl. f_equal; lia.
    + done.
Qed.

Lemma accuracy_loop_get p d :
  progression_get
    (fold_left (λ progression difficulty,
                  progression_modify progression difficulty difficulty_accuracy)
       [easy; medium; hard] p) d
  = difficulty_accuracy (progression_get p d).
Proof. by destruct d, p. Qed.

Lemma attempts_at_partition l :
  jslength (attempts_at easy l) + jslength (attempts_at medium l)
  + jslength (attempts_at hard l) = jslength l.
Proof.
  unfold attempts_at, jslength. induction l as [|a l IH]; [done|].
  rewrite !(filter_cons _ a).
  destruct (qa_difficulty a);
    repeat (first [rewrite decide_True by done | rewrite decide_False by done]);
    simpl length; lia.
Qed.

(** X12. [analyzeDifficultyProgression] counts, under each difficulty, the
    attempts of that difficulty and the correct ones among them, and sets
    the accuracy to their ratio in percent, 0 when there is none.  The three
    totals add up to the number of attempts. *)
Theorem difficulty_progression (attempts : list QuestionAttempt) (d : difficulty_t) :
  let progression := analyzeDifficultyProgression attempts in
  let mine := attempts_at d attempts in
  let right := filter (λ a, is_correct a = true) mine in
  ds_total (progression_get progression d) = jslength mine
  ∧ ds_correct (progression_get progression d) = jslength right
  ∧ ds_accuracy (progression_get progression d)
    = Some (if decide (mine = []) then 0
            else (inject_Z (jslength right) / inject_Z (jslength mine)) * 100)%Q
  ∧ ds_total (p_easy progression) + ds_total (p_medium progression)
    + ds_total (p_hard progression) = jslength attempts.
Proof.
  intros progression mine right.
  assert (∀ d', progression_get progression d'
    = difficulty_accuracy
        {| ds_total := jslength (attempts_at d' attempts);
           ds_correct :=
             jslength (filter (λ a, is_correct a = true) (attempts_at d' attempts));
           ds_accuracy := None |}) as Hget.
  { intros d'. unfold progression, analyzeDifficultyProgression, forEach.
    rewrite accuracy_loop_get, fold_difficulty_step. by destruct d'. }
  rewrite Hget. cbn [difficulty_accuracy ds_total ds_correct ds_accuracy].
  split; [done|]. split; [done|]. split.
  - fold mine. fold right. f_equal. case_decide as Hmine.
    + rewrite Hmine. done.
    + apply jslength_pos in Hmine. by rewrite Hmine.
  - change (p_easy progression) with (progression_get progression easy).
    change (p_medium progression) with (progression_get progression medium).
    change (p_hard progression) with (progression_get progression hard).
    rewrite !Hget. cbn [difficulty_accuracy ds_total].
    apply attempts_at_partition.
Qed.

End DifficultyProgression.

(** ** Session breakdown of a report *)

Section Buckets.

Context {V : Type} (mk : Z → Z → V) (cnt tot : V → Z).
Hypothesis cnt_mk : ∀ n t, cnt (mk n t) = n.
Hypothesis tot_mk : ∀ n t, tot (mk n t) = t.

Lemma bucket_add_get obj key d key' :
  obj_get (bucket_add mk cnt tot obj key d) key'
  = if decide (key = key') then
      let base := default (mk 0 0) (obj_get obj key) in
      Some (mk (cnt base + 1) (tot base + d))
    else obj_get obj key'.
Proof.
  unfold bucket_add.
  destruct (decide (key = key')) as [<-|Hne].
  - destruct (obj_get obj key) as [s|] eqn:Hget;
      rewrite !obj_get_modify, !decide_True by done;
      rewrite ?obj_get_set_eq, ?Hget; simpl; by rewrite cnt_mk, tot_mk.
  - destruct (obj_get obj key) as [s|] eqn:Hget;
      rewrite !obj_get_modify, !decide_False by done;
      rewrite ?obj_get_set_ne by done; done.
Qed.

Lemma bucket_add_NoDup obj key d :
  NoDup obj.*1 → NoDup (bucket_add mk cnt tot obj key d).*1.
Proof.
  intros Hnd. unfold bucket_add.
  destruct (obj_get obj key);
    repeat apply obj_modify_NoDup; try apply obj_set_NoDup; done.
Qed.

Lemma dict_sum_set (g : V → Z) obj key v :
  dict_sum g (obj_set obj key v)
  = dict_sum g obj + g v - from_option g 0 (obj_get obj key).
Proof.
  unfold dict_sum, Zsum. induction obj as [|[k v'] obj IH]; simpl.
  - lia.
  - destruct (String.eqb_spec k key) as [->|Hne]; simpl; lia.
Qed.

Lemma dict_sum_modify (g : V → Z) obj key (f : V → V) :
  dict_sum g (obj_modify obj key f)
  = dict_sum g obj + from_option (λ v, g (f v) - g v) 0 (obj_get obj key).
Proof.
  unfold obj_modify. destruct (obj_get obj key) as [v|] eqn:Hget; simpl.
  - rewrite dict_sum_set, Hget. simpl. lia.
  - lia.
Qed.

Lemma bucket_add_sums obj key d :
  dict_sum cnt (bucket_add mk cnt tot obj key d) = dict_sum cnt obj + 1
  ∧ dict_sum tot (bucket_add mk cnt tot obj key d) = dict_sum tot obj + d.
Proof.
  unfold bucket_add.
  destruct (obj_get obj key) as [s|] eqn:Hget;
    rewrite !dict_sum_modify, ?obj_get_modify, ?decide_True by done;
    rewrite ?dict_sum_set, ?obj_get_set_eq, ?Hget; simpl;
    rewrite ?cnt_mk, ?tot_mk; lia.
Qed.

Lemma fold_bucket_add {A : Type} (kf : A → string) (df : A → Z) l seen obj :
  NoDup obj.*1 →
  (∀ k, obj_get obj k = bucket_of mk kf df k seen) →
  dict_sum cnt obj = jslength seen →
  dict_sum tot obj = Zsum (map df seen) →
  let obj' := fold_left (λ o x, bucket_add mk cnt tot o (kf x) (df x)) l obj in
  NoDup obj'.*1
  ∧ (∀ k, obj_get obj' k = bucket_of mk kf df k (seen ++ l))
  ∧ dict_sum cnt obj' = jslength (seen ++ l)
  ∧ dict_sum tot obj' = Zsum (map df (seen ++ l)).
Proof.
  revert seen obj.
  induction l as [|x l IH]; intros seen obj Hnd Hget Hcnt Htot; cbn [fold_left].
  - by rewrite app_nil_r.
  - replace (seen ++ x :: l) with ((seen ++ [x]) ++ l) by (by rewrite <- app_assoc).
    destruct (bucket_add_sums obj (kf x) (df x)) as [Hc Ht].
    apply IH.
    + by apply bucket_add_NoDup.
    + intros k. rewrite bucket_add_get, Hget. unfold bucket_of.
      rewrite filter_app, (filter_cons _ x), filter_nil.
      destruct (decide (kf x = k)) as [->|Hne].
      * rewrite (decide_False (P := _ ++ _ = [])) by (intros [_ ?]%app_eq_nil; done).
        rewrite map_app, Zsum_app. unfold jslength. rewrite length_app.
        destruct (filter _ seen) as [|y mine] eqn:Hmine.
        -- rewrite decide_True by done. simpl. rewrite cnt_mk, tot_mk.
           unfold Zsum. simpl. do 2 f_equal; lia.
        -- rewrite decide_False by done. cbn [default from_option id].
           rewrite cnt_mk, tot_mk. unfold Zsum at 3. simpl foldr. simpl length.
           do 2 f_equal; lia.
      * by rewrite app_nil_r.
    + rewrite Hc, Hcnt. unfold jslength. rewrite length_app. simpl. lia.
    + rewrite Ht, Htot, map_app, Zsum_app. unfold Zsum at 3. simpl. lia.
Qed.

End Buckets.

Section SessionTotals.

Variable toDateString : Z → string.

Lemma fold_session_step l b :
  forEach l (session_breakdown_step toDateString) b
  = {| byType :=
         fold_left (λ o s, bucket_add Build_type_stats ts_count ts_totalTime o
                             (session_type_name (session_type s)) (minutes_of s))
           l (byType b);
       byDay :=
         fold_left (λ o s, bucket_add Build_day_stats day_sessions day_totalTime o
                             (toDateString (started_at s)) (minutes_of s))
           l (byDay b);
       avgDuration := avgDuration b |}.
Proof.
  unfold forEach. revert b. induction l as [|s l IH]; intros b; cbn [fold_left].
  - by destruct b.
  - by rewrite IH.
Qed.

(** X13. The session breakdown holds, under each session type and under
    each calendar day, an entry exactly when the window has a session of
    that type or started on that day; the entry counts those sessions and
    sums their durations, a missing duration counting as 0. *)
Theorem session_breakdown_entries (sessions : list StudySession) (key : string) :
  let breakdown := analyzeSessionBreakdown toDateString sessions in
  obj_get (byType breakdown) key
  = bucket_of Build_type_stats (λ s, session_type_name (session_type s))
      minutes_of key sessions
  ∧ obj_get (byDay breakdown) key
    = bucket_of Build_day_stats (λ s, toDateString (started_at s))
        minutes_of key sessions
  ∧ NoDup (byType breakdown).*1
  ∧ NoDup (byDay breakdown).*1.
Proof.
  intros breakdown. unfold breakdown, analyzeSessionBreakdown.
  rewrite fold_session_step. cbn [byType byDay].
  destruct (fold_bucket_add Build_type_stats ts_count ts_totalTime
              (λ _ _, eq_refl) (λ _ _, eq_refl)
              (λ s, session_type_name (session_type s)) minutes_of
              sessions [] []) as (Hnd1 & Hget1 & _); try done; try apply NoDup_nil_2.
  destruct (fold_bucket_add Build_day_stats day_sessions day_totalTime
              (λ _ _, eq_refl) (λ _ _, eq_refl)
              (λ s, toDateString (started_at s)) minutes_of
              sessions [] []) as (Hnd2 & Hget2 & _); try done; try apply NoDup_nil_2.
Qed.

(** X14. The counts of the session breakdown add up to the number of
    sessions, by type and by day, and its durations add up to the time
    spent that the report states; the average duration times the number of
    sessions is that same time. *)
Theorem session_breakdown_totals (sessions : list StudySession) :
  let breakdown := analyzeSessionBreakdown toDateString sessions in
  dict_sum ts_count (byType breakdown) = jslength sessions
  ∧ dict_sum day_sessions (byDay breakdown) = jslength sessions
  ∧ dict_sum ts_totalTime (byType breakdown) = totalTimeSpent_of (Some sessions)
  ∧ dict_sum day_totalTime (byDay breakdown) = totalTimeSpent_of (Some sessions)
  ∧ (avgDuration breakdown * inject_Z (jslength sessions)
     == inject_Z (totalTimeSpent_of (Some sessions)))%Q.
Proof.
  intros breakdown. unfold breakdown, analyzeSessionBreakdown.
  rewrite fold_session_step. cbn [byType byDay avgDuration].
  destruct (fold_bucket_add Build_type_stats ts_count ts_totalTime
              (λ _ _, eq_refl) (λ _ _, eq_refl)
              (λ s, session_type_name (session_type s)) minutes_of
              sessions [] []) as (_ & _ & Hc1 & Ht1); try done; try apply NoDup_nil_2.
  destruct (fold_bucket_add Build_day_stats day_sessions day_totalTime
              (λ _ _, eq_refl) (λ _ _, eq_refl)
              (λ s, toDateString (started_at s)) minutes_of
              sessions [] []) as (_ & _ & Hc2 & Ht2); try done; try apply NoDup_nil_2.
  simpl in Hc1, Hc2, Ht1, Ht2.
  assert (totalTimeSpent_of (Some sessions) = Zsum (map minutes_of sessions)) as Htime.
  { unfold totalTimeSpent_of. rewrite or_zero_id. simpl.
    rewrite (reduce_sum_Z minutes_of). lia. }
  rewrite Htime. repeat (split; [done|]).
  change (fold_left _ sessions 0) with
    (fold_left (λ sum s, sum + minutes_of s) sessions 0).
  rewrite reduce_sum_Z, Z.add_0_l.
  destruct (0 <? jslength sessions) eqn:Hpos.
  - apply Z.ltb_lt in Hpos. field.
    replace 0%Q with (inject_Z 0) by done. rewrite inject_Z_injective. lia.
  - apply Z.ltb_ge in Hpos. pose proof (jslength_nonneg sessions).
    assert (sessions = []) as ->.
    { destruct sessions; [done|]. unfold jslength in *. simpl in *. lia. }
    done.
Qed.

End SessionTotals.

(** ** Generating a diagnostic test *)

Section Strings.

Lemma append_cons a s t : String a s +:+ t = String a (s +:+ t).
Proof. done. Qed.

Lemma append_nil_l s : EmptyString +:+ s = s.
Proof. done. Qed.

Lemma append_nil_r s : s +:+ EmptyString = s.
Proof. induction s as [|a s IH]; [done | by rewrite append_cons, IH]. Qed.

Lemma append_assoc s1 s2 s3 : s1 +:+ (s2 +:+ s3) = (s1 +:+ s2) +:+ s3.
Proof. induction s1 as [|a s1 IH]; [done | by rewrite !append_cons, IH]. Qed.

Lemma rev_app_append s1 s2 : String.rev_app s1 s2 = String.rev s1 +:+ s2.
Proof.
  unfold String.rev. revert s2. induction s1 as [|a s1 IH]; intros s2; simpl.
  - done.
  - rewrite IH, (IH (String a EmptyString)).
    rewrite <- append_assoc. done.
Qed.

Lemma rev_cons a s : String.rev (String a s) = String.rev s +:+ String a EmptyString.
Proof. unfold String.rev at 1. simpl. by rewrite rev_app_append. Qed.

Lemma rev_append s1 s2 : String.rev (s1 +:+ s2) = String.rev s2 +:+ String.rev s1.
Proof.
  induction s1 as [|a s1 IH].
  - by rewrite append_nil_l, append_nil_r.
  - by rewrite append_cons, !rev_cons, IH, append_assoc.
Qed.

Lemma rev_involutive s : String.rev (String.rev s) = s.
Proof.
  induction s as [|a s IH]; [done|].
  by rewrite rev_cons, rev_append, IH.
Qed.

Lemma includes_append s1 s2 c :
  includes (s1 +:+ s2) c = includes s1 c || includes s2 c.
Proof.
  induction s1 as [|a s1 IH]; [done|].
  rewrite append_cons. simpl. rewrite IH. by rewrite orb_assoc.
Qed.

Lemma includes_rev s c : includes (String.rev s) c = includes s c.
Proof.
  induction s as [|a s IH]; [done|].
  rewrite rev_cons, includes_append, IH. simpl.
  rewrite orb_false_r. apply orb_comm.
Qed.

Section StripWhite.

Variables (w2 : ascii → ascii → bool) (w3 : ascii → ascii → ascii → bool).

(** What is stripped is a prefix. *)
Lemma strip_white_suffix s : ∃ p, s = p +:+ strip_white w2 w3 s.
Proof.
  assert (∀ n s, (String.length s ≤ n)%nat → ∃ p, s = p +:+ strip_white w2 w3 s)
    as Hall; [|by apply (Hall (String.length s))].
  clear s. induction n as [|n IH]; intros s Hn.
  { destruct s; [by exists EmptyString | simpl in Hn; lia]. }
  destruct s as [|a rest]; [by exists EmptyString|].
  cbn [strip_white]. cbn [String.length] in Hn.
  destruct (Ascii.is_space a).
  { destruct (IH rest) as [p Hp]; [lia|].
    exists (String a p). rewrite append_cons. by rewrite <- Hp. }
  destruct rest as [|b rest2]; [by exists EmptyString|].
  cbn [String.length] in Hn.
  destruct (w2 a b).
  { destruct (IH rest2) as [p Hp]; [lia|].
    exists (String a (String b p)). rewrite !append_cons. by rewrite <- Hp. }
  destruct rest2 as [|c rest3]; [by exists EmptyString|].
  cbn [String.length] in Hn.
  destruct (w3 a b c); [|by exists EmptyString].
  destruct (IH rest3) as [p Hp]; [lia|].
  exists (String a (String b (String c p))). rewrite !append_cons. by rewrite <- Hp.
Qed.

Lemma includes_strip_white s c :
  includes (strip_white w2 w3 s) c = true → includes s c = true.
Proof.
  destruct (strip_white_suffix s) as [p Hp]. intros H.
  rewrite Hp, includes_append, H. apply orb_true_r.
Qed.

(** White space of one byte in front is stripped. *)
Lemma strip_white_blank ws s :
  blank ws = true → strip_white w2 w3 (ws +:+ s) = strip_white w2 w3 s.
Proof.
  induction ws as [|a ws IH]; [done|].
  cbn [blank]. intros [Ha Hws]%andb_true_iff.
  rewrite append_cons. cbn [strip_white]. rewrite Ha. by apply IH.
Qed.

Hypothesis w2_high : ∀ a b, w2 a b = true → high a = true ∧ high b = true.
Hypothesis w3_high :
  ∀ a b c, w3 a b c = true → high a = true ∧ high b = true ∧ high c = true.

Lemma w2_solid_l a b : solid a = true → w2 a b = false.
Proof.
  intros [_ Ha%negb_true_iff]%andb_true_iff.
  destruct (w2 a b) eqn:E; [|done]. apply w2_high in E as [? ?]. congruence.
Qed.

Lemma w2_solid_r a b : solid b = true → w2 a b = false.
Proof.
  intros [_ Hb%negb_true_iff]%andb_true_iff.
  destruct (w2 a b) eqn:E; [|done]. apply w2_high in E as [? ?]. congruence.
Qed.

Lemma w3_solid_1 a b c : solid a = true → w3 a b c = false.
Proof.
  intros [_ Ha%negb_true_iff]%andb_true_iff.
  destruct (w3 a b c) eqn:E; [|done]. apply w3_high in E as (? & ? & ?). congruence.
Qed.

Lemma w3_solid_2 a b c : solid b = true → w3 a b c = false.
Proof.
  intros [_ Hb%negb_true_iff]%andb_true_iff.
  destruct (w3 a b c) eqn:E; [|done]. apply w3_high in E as (? & ? & ?). congruence.
Qed.

Lemma w3_solid_3 a b c : solid c = true → w3 a b c = false.
Proof.
  intros [_ Hc%negb_true_iff]%andb_true_iff.
  destruct (w3 a b c) eqn:E; [|done]. apply w3_high in E as (? & ? & ?). congruence.
Qed.

(** Nothing is stripped from a string that starts with a solid character. *)
Lemma strip_white_solid a s :
  solid a = true → strip_white w2 w3 (String a s) = String a s.
Proof.
  intros Ha. cbn [strip_white].
  pose proof Ha as [Hspace%negb_true_iff _]%andb_true_iff. rewrite Hspace.
  destruct s as [|b [|c s]]; [done| |]; rewrite w2_solid_l by done; [done|].
  by rewrite w3_solid_1.
Qed.

(** The stripping stops at a solid character at the latest. *)
Lemma strip_white_stop a x y :
  solid a = true →
  ∃ p x', x = p +:+ x' ∧ strip_white w2 w3 (x +:+ String a y) = x' +:+ String a y.
Proof.
  intros Ha.
  assert (∀ n x, (String.length x ≤ n)%nat →
            ∃ p x', x = p +:+ x'
                    ∧ strip_white w2 w3 (x +:+ String a y) = x' +:+ String a y)
    as Hall; [|by apply (Hall (String.length x))].
  clear x.
  assert (∃ p x', EmptyString = p +:+ x'
                  ∧ strip_white w2 w3 (EmptyString +:+ String a y) = x' +:+ String a y)
    as Hnil.
  { exists EmptyString, EmptyString. split; [done|].
    rewrite !append_nil_l. by apply strip_white_solid. }
  induction n as [|n IH]; intros x Hn.
  { destruct x; [done | simpl in Hn; lia]. }
  destruct x as [|b x1]; [done|].
  cbn [String.length] in Hn. rewrite append_cons. cbn [strip_white].
  destruct (Ascii.is_space b).
  { destruct (IH x1) as (p & x' & Hx & Hs); [lia|].
    exists (String b p), x'. rewrite append_cons. by rewrite <- Hx. }
  destruct x1 as [|c x2].
  { rewrite append_nil_l, w2_solid_r by done.
    exists EmptyString, (String b EmptyString). split; [done|].
    destruct y as [|d y]; [done|]. by rewrite w3_solid_2. }
  cbn [String.length] in Hn. rewrite append_cons.
  destruct (w2 b c).
  { destruct (IH x2) as (p & x' & Hx & Hs); [lia|].
    exists (String b (String c p)), x'. rewrite !append_cons. by rewrite <- Hx. }
  destruct x2 as [|d x3].
  { rewrite append_nil_l, w3_solid_3 by done.
    by exists EmptyString, (String b (String c EmptyString)). }
  cbn [String.length] in Hn. rewrite append_cons.
  destruct (w3 b c d).
  { destruct (IH x3) as (p & x' & Hx & Hs); [lia|].
    exists (String b (String c (String d p))), x'. rewrite !append_cons.
    by rewrite <- Hx. }
  by exists EmptyString, (String b (String c (String d x3))).
Qed.

End StripWhite.

Lemma white2_high a b : white2 a b = true → high a = true ∧ high b = true.
Proof.
  unfold white2. intros [->%Ascii.eqb_eq ->%Ascii.eqb_eq]%andb_true_iff. done.
Qed.

Lemma white3_high a b c :
  white3 a b c = true → high a = true ∧ high b = true ∧ high c = true.
Proof.
  unfold white3. rewrite !orb_true_iff, !andb_true_iff, !Ascii.eqb_eq.
  intros [[[[H|H]|H]|H]|H].
  - by destruct H as [[-> ->] ->].
  - destruct H as [[-> ->] H].
    rewrite !orb_true_iff, andb_true_iff, !Ascii.eqb_eq in H.
    destruct H as [[[[H _]| ->]| ->]| ->]; done.
  - by destruct H as [[-> ->] ->].
  - by destruct H as [[-> ->] ->].
  - by destruct H as [[-> ->] ->].
Qed.

Lemma white2_back_high a b : white2_back a b = true → high a = true ∧ high b = true.
Proof. intros H%white2_high. tauto. Qed.

Lemma white3_back_high a b c :
  white3_back a b c = true → high a = true ∧ high b = true ∧ high c = true.
Proof. intros H%white3_high. tauto. Qed.

Lemma includes_trimStart s c : includes (trimStart s) c = true → includes s c = true.
Proof. apply includes_strip_white. Qed.

Lemma includes_trim s c : includes (trim s) c = true → includes s c = true.
Proof.
  unfold trim, trimEnd. rewrite includes_rev.
  intros H%includes_strip_white. rewrite includes_rev in H.
  by apply includes_trimStart.
Qed.

Lemma trimStart_solid a s : solid a = true → trimStart (String a s) = String a s.
Proof. apply strip_white_solid; [apply white2_high | apply white3_high]. Qed.

Lemma trimStart_stop a x y :
  solid a = true →
  ∃ p x', x = p +:+ x' ∧ trimStart (x +:+ String a y) = x' +:+ String a y.
Proof. apply strip_white_stop; [apply white2_high | apply white3_high]. Qed.

Lemma trimStart_blank ws s : blank ws = true → trimStart (ws +:+ s) = trimStart s.
Proof. apply strip_white_blank. Qed.

Lemma blank_append s1 s2 : blank (s1 +:+ s2) = blank s1 && blank s2.
Proof.
  induction s1 as [|a s1 IH]; [done|].
  rewrite append_cons. simpl. by rewrite IH, andb_assoc.
Qed.

Lemma blank_rev s : blank (String.rev s) = blank s.
Proof.
  induction s as [|a s IH]; [done|].
  rewrite rev_cons, blank_append, IH. simpl.
  rewrite andb_true_r. apply andb_comm.
Qed.

Lemma trimEnd_blank s ws : blank ws = true → trimEnd (s +:+ ws) = trimEnd s.
Proof.
  intros Hws. unfold trimEnd. rewrite rev_append, strip_white_blank; [done|].
  by rewrite blank_rev.
Qed.

Lemma trimEnd_solid s a :
  solid a = true →
  trimEnd (s +:+ String a EmptyString) = s +:+ String a EmptyString.
Proof.
  intros Ha. unfold trimEnd.
  rewrite rev_append. change (String.rev (String a EmptyString)) with (String a EmptyString).
  rewrite append_cons, append_nil_l.
  rewrite strip_white_solid;
    [|apply white2_back_high|apply white3_back_high|done].
  by rewrite rev_cons, rev_involutive.
Qed.

Lemma replace_newlines_clean s : includes (replace_newlines s) LF = false.
Proof.
  induction s as [|a s IH]; simpl; [done|].
  rewrite IH, orb_false_r.
  destruct (Ascii.eqb_spec a LF) as [->|Hne]; [done|].
  by apply Ascii.eqb_neq.
Qed.

Lemma cleaned_has_no_newline s : includes (trim (replace_newlines s)) LF = false.
Proof.
  destruct (includes (trim (replace_newlines s)) LF) eqn:E; [|done].
  apply includes_trim in E. by rewrite replace_newlines_clean in E.
Qed.

End Strings.

Section TestGeneration.

Variable JSON_parse : string → outcome json.

Lemma forallb_Forall {A : Type} (f : A → bool) (l : list A) :
  forallb f l = true → Forall (λ x, f x = true) l.
Proof.
  induction l as [|x l IH]; simpl; [by constructor|].
  intros [Hx Hl]%andb_true_iff. constructor; [done | by apply IH].
Qed.

Lemma validate_kept q q' :
  validate q = Returned (true, q') → q' = clean_explanation q ∧ usable q' = true.
Proof.
  unfold validate.
  destruct q as [| | | | |props]; simpl; try discriminate.
  destruct (truthy_json (obj_get props "id")) eqn:Hid; simpl; [|discriminate].
  destruct (truthy_json (obj_get props "question")) eqn:Hquestion; simpl;
    [|discriminate].
  destruct (truthy_json (obj_get props "options")) eqn:Hoptions; simpl;
    [|discriminate].
  destruct (isArray (obj_get props "options")) eqn:Harray; simpl; [|discriminate].
  destruct (truthy_json (obj_get props "correct_answer")) eqn:Hanswer; simpl;
    [|discriminate].
  destruct (truthy_json (obj_get props "explanation")) eqn:Hexplanation; simpl;
    [|discriminate].
  destruct (truthy_json (obj_get props "difficulty")) eqn:Hdifficulty; simpl;
    [|discriminate].
  destruct (truthy_json (obj_get props "topic")) eqn:Htopic; simpl; [|discriminate].
  destruct (truthy_json (obj_get props "concept")) eqn:Hconcept; simpl;
    [|discriminate].
  intros [= <-]. split; [done|].
  unfold usable, checked_fields.
  destruct (obj_get props "explanation") as [explanation|] eqn:Hget; [|done].
  destruct explanation as [| | |s| |]; cbn [forallb prop];
    rewrite ?obj_get_set_ne by done; rewrite ?obj_get_set_eq;
    rewrite ?Hget, ?Hid, ?Hquestion, ?Hoptions, ?Harray, ?Hanswer, ?Hdifficulty,
      ?Htopic, ?Hconcept; try done.
  simpl. by rewrite cleaned_has_no_newline.
Qed.

Lemma filter_valid_kept items valid :
  filter_valid items = Returned valid →
  Forall (λ q, usable q = true) valid
  ∧ ∃ kept, kept `sublist_of` items ∧ valid = clean_explanation <$> kept.
Proof.
  revert valid. induction items as [|q items IH]; intros valid; simpl.
  - intros [= <-]. split; [constructor|]. by exists [].
  - destruct (validate q) as [[keep q']|] eqn:Hq; simpl; [|discriminate].
    destruct (filter_valid items) as [valid'|]; simpl; [|discriminate].
    destruct (IH valid' eq_refl) as (Husable & kept & Hsub & ->).
    destruct keep; intros [= <-].
    + apply validate_kept in Hq as [-> Hq]. split; [by constructor|].
      exists (q :: kept). split; [by constructor | done].
    + split; [done|]. exists kept. split; [by constructor | done].
Qed.

Lemma validate_not_null q :
  is_null q = false →
  validate q = Returned (passes q, if passes q then clean_explanation q else q).
Proof.
  intros Hq. unfold passes.
  assert (∃ keep q', validate q = Returned (keep, q')
                     ∧ (keep = false → q' = q)) as (keep & q' & Hv & Hdrop).
  { unfold validate.
    destruct q as [| | | | |props]; try discriminate; simpl;
      try (by exists false; eexists).
    repeat (match goal with
            | |- context [truthy_json ?v] =>
                destruct (truthy_json v); simpl; [|by exists false; eexists]
            | |- context [isArray ?v] =>
                destruct (isArray v); simpl; [|by exists false; eexists]
            end).
    by exists true; eexists. }
  rewrite Hv. destruct keep.
  - by apply validate_kept in Hv as [-> _].
  - by rewrite Hdrop.
Qed.

(** The filter throws on an array that holds a [null]; on any other array
    it returns the questions that pass, cleaned. *)
Lemma filter_valid_spec items :
  filter_valid items
  = if existsb is_null items then Thrown TypeError
    else Returned (clean_explanation <$> filter (λ q, passes q = true) items).
Proof.
  induction items as [|q items IH]; [done|].
  cbn [filter_valid existsb].
  destruct (is_null q) eqn:Hq.
  { by destruct q. }
  rewrite validate_not_null by done. cbn [mbind outcome_bind orb].
  rewrite IH. destruct (existsb is_null items); [done|].
  cbn [mbind outcome_bind]. rewrite filter_cons.
  destruct (passes q) eqn:Hp.
  - by rewrite decide_True.
  - by rewrite decide_False.
Qed.

Lemma fallback_questions_usable classLevel :
  length (generateFallbackDiagnosticQuestions classLevel) = 30%nat
  ∧ Forall (λ q, usable q = true) (generateFallbackDiagnosticQuestions classLevel).
Proof.
  split; [by vm_compute|]. apply forallb_Forall. by vm_compute.
Qed.

Lemma take_nonempty {A : Type} (l : list A) : l ≠ [] → take 30 l ≠ [].
Proof. by destruct l. Qed.

(** X15. The Groq revision of [generateDiagnosticTest] never throws: for
    every reply and every behaviour of the parser it returns between 1 and
    30 questions.  Each of them passed the field check, its options are an
    array and its explanation, when a string, has no line break; they are
    the fallback questions, or come, in order and with the explanation
    cleaned, from an array the parser returned. *)
Theorem generated_test_is_usable (classLevel : Z) (reply : outcome response) :
  ∃ questions,
    generateDiagnosticTest JSON_parse classLevel reply = Done questions
    ∧ questions ≠ []
    ∧ (length questions ≤ 30)%nat
    ∧ Forall (λ q, usable q = true) questions
    ∧ (questions = generateFallbackDiagnosticQuestions classLevel
       ∨ ∃ text items kept,
           JSON_parse text = Returned (JArray items)
           ∧ kept `sublist_of` items
           ∧ questions = take 30 (clean_explanation <$> kept)).
Proof.
  destruct (fallback_questions_usable classLevel) as [Hlen Husable].
  assert (∀ body,
    (∀ questions, body = Done questions →
       questions ≠ [] ∧ (length questions ≤ 30)%nat
       ∧ Forall (λ q, usable q = true) questions
       ∧ ∃ text items kept,
           JSON_parse text = Returned (JArray items)
           ∧ kept `sublist_of` items
           ∧ questions = take 30 (clean_explanation <$> kept)) →
    ∃ questions,
      try_catch_raised body
        (λ error, Done (generateFallbackDiagnosticQuestions classLevel))
      = Done questions
      ∧ questions ≠ [] ∧ (length questions ≤ 30)%nat
      ∧ Forall (λ q, usable q = true) questions
      ∧ (questions = generateFallbackDiagnosticQuestions classLevel
         ∨ ∃ text items kept,
             JSON_parse text = Returned (JArray items)
             ∧ kept `sublist_of` items
             ∧ questions = take 30 (clean_explanation <$> kept))) as Hcatch.
  { intros [questions|r] Hbody; simpl.
    - destruct (Hbody questions eq_refl) as (? & ? & ? & ?). eauto 10.
    - eexists. split; [done|]. split.
      { intros H. by rewrite H in Hlen. }
      split; [lia|]. split; [done | by left]. }
  apply Hcatch. clear Hcatch. intros questions.
  assert (∀ text parsed,
    JSON_parse text = Returned parsed →
    match parsed with
    | JArray questions =>
        if jslength questions =? 0 then Raised Error else
        validQuestions ← await (filter_valid questions);
        if jslength validQuestions =? 0 then Raised Error else
        Done (take 30 validQuestions)
    | _ => Raised Error
    end = Done questions →
    questions ≠ [] ∧ (length questions ≤ 30)%nat
    ∧ Forall (λ q, usable q = true) questions
    ∧ ∃ text items kept,
        JSON_parse text = Returned (JArray items)
        ∧ kept `sublist_of` items
        ∧ questions = take 30 (clean_explanation <$> kept)) as Htail.
  { intros text parsed Hparse.
    destruct parsed as [| | | |items|]; try discriminate.
    destruct (jslength items =? 0); [discriminate|].
    destruct (filter_valid items) as [valid|] eqn:Hvalid; simpl; [|discriminate].
    destruct (jslength valid =? 0) eqn:Hempty; [discriminate|].
    intros [= <-].
    apply filter_valid_kept in Hvalid as (Hall & kept & Hsub & ->).
    split.
    { apply take_nonempty. intros H. by rewrite H in Hempty. }
    split; [rewrite length_take; lia|].
    split; [by apply Forall_take|]. eauto 10. }
  destruct reply as [response|e]; simpl; [|discriminate].
  destruct (ok response); simpl; [|discriminate].
  destruct (body_json response) as [data|e]; simpl; [|discriminate].
  destruct (truthy_json _); simpl; [|discriminate].
  destruct (call_trim _) as [rawText|e]; simpl; [|discriminate].
  destruct (_ || _); [discriminate|].
  match goal with
  | |- context [JSON_parse ?text] =>
      destruct (JSON_parse text) as [parsed|e] eqn:Hparse; simpl
  end.
  - by apply (Htail _ parsed Hparse).
  - destruct (JSON_parse (attemptJsonRepair _)) as [parsed|e'] eqn:Hrepair; simpl;
      [|discriminate].
    by apply (Htail _ parsed Hrepair).
Qed.

(** X16. The Gemini revision of [generateDiagnosticTest] never throws
    either and returns between 1 and 30 questions: its three fallback
    questions, or the first 30 elements, unchecked, of a non-empty array the
    parser returned. *)
Theorem generated_test_gemini (classLevel : Z) (reply : outcome response) :
  ∃ questions,
    generateDiagnosticTest_gemini JSON_parse classLevel reply = Done questions
    ∧ questions ≠ []
    ∧ (length questions ≤ 30)%nat
    ∧ (questions = question_json <$> fallbackQuestions_gemini
       ∨ ∃ text items,
           JSON_parse text = Returned (JArray items)
           ∧ items ≠ []
           ∧ questions = take 30 items).
Proof.
  unfold generateDiagnosticTest_gemini.
  match goal with
  | |- context [try_catch_raised ?b _] => destruct b as [questions|r] eqn:Hbody
  end; simpl.
  2: { eexists. split; [done|]. split; [done|]. split; [simpl; lia | by left]. }
  exists questions. split; [done|].
  destruct reply as [response|e]; simpl in Hbody; [|discriminate].
  destruct (body_json response) as [data|e]; simpl in Hbody; [|discriminate].
  destruct (truthy_json _); simpl in Hbody; [|discriminate].
  destruct (call_trim _) as [rawText|e]; simpl in Hbody; [|discriminate].
  match type of Hbody with
  | context [JSON_parse ?text] =>
      destruct (JSON_parse text) as [parsed|e] eqn:Hparse; simpl in Hbody;
        [|discriminate]
  end.
  destruct parsed as [| | | |items|]; try discriminate.
  destruct (jslength items =? 0) eqn:Hempty; [discriminate|].
  injection Hbody as <-.
  assert (items ≠ []) as Hne by (intros H; by rewrite H in Hempty).
  split; [by apply take_nonempty|].
  split; [rewrite length_take; lia|]. right. eauto.
Qed.

End TestGeneration.

Section FallbackBank.

(** X17. The questions either revision falls back to are numbered
    [diag_1], [diag_2], ... in order, 30 of them in the Groq revision and 3
    in the Gemini revision, whatever the class level; each passes the field
    check and its keyed answer is one of its options. *)
Theorem fallback_bank_is_sound (rev : revision) (classLevel : Z) :
  let bank := fallback_questions rev classLevel in
  length bank = (if rev is Groq then 30 else 3)%nat
  ∧ id_text <$> bank
    = (λ i, "diag_" +:+ pretty i) <$> seqZ 1 (Z.of_nat (length bank))
  ∧ NoDup (id_text <$> bank)
  ∧ Forall (λ q, usable q = true) bank
  ∧ Forall (λ q, answer_among_options q = true) bank.
Proof.
  destruct rev; cbv zeta.
  - split; [by vm_compute|]. split; [by vm_compute|]. split.
    { apply (bool_decide_unpack _). by vm_compute. }
    split; apply forallb_Forall; by vm_compute.
  - split; [by vm_compute|]. split; [by vm_compute|]. split.
    { apply (bool_decide_unpack _). by vm_compute. }
    split; apply forallb_Forall; by vm_compute.
Qed.

End FallbackBank.

Section Repair.

Lemma trim_closing x : endsWith (trim (x +:+ String LF "]")) "]" = true.
Proof.
  unfold trim.
  replace (x +:+ String LF "]") with ((x +:+ String LF EmptyString) +:+ "]")
    by (by rewrite <- append_assoc).
  destruct (trimStart_stop "]" (x +:+ String LF EmptyString) EmptyString)
    as (p & x' & _ & ->); [done|].
  rewrite trimEnd_solid by done.
  unfold endsWith. rewrite rev_append. by vm_compute.
Qed.

(** X18. After [attemptJsonRepair] the text, trimmed, ends with a closing
    bracket, unless it holds no closing brace past its first character. *)
Theorem repair_closes_the_array (jsonString : string) :
  let repaired := attemptJsonRepair jsonString in
  endsWith (trim repaired) "]" = true ∨ lastIndexOf repaired "}" ≤ 0.
Proof.
  cbv zeta. unfold attemptJsonRepair.
  set (joined := join _ _).
  destruct (endsWith (trim joined) "]") eqn:Hends; cbn [negb]; [by left|].
  destruct (0 <? lastIndexOf joined "}") eqn:Hlast.
  - left. apply trim_closing.
  - right. by apply Z.ltb_ge.
Qed.

End Repair.

Section Cleaning.

(** X19. In the Groq revision the field check comes before the cleaning
    of the explanation: a question whose explanation is only white space
    passes, and is returned with an empty explanation, with which it would
    not pass again. *)
Theorem blank_explanation_is_kept (props : list (string * json)) (q' : json)
    (explanation : string) :
  validate (JObject props) = Returned (true, q') →
  obj_get props "explanation" = Some (JString explanation) →
  trim (replace_newlines explanation) = EmptyString →
  prop "explanation" (Some q') = Some (JString EmptyString)
  ∧ validate q' = Returned (false, q').
Proof.
  intros Hvalid Hget Hblank.
  pose proof Hvalid as [-> _]%validate_kept.
  unfold clean_explanation. rewrite Hget, Hblank.
  split; [cbn [prop]; by rewrite obj_get_set_eq|].
  revert Hvalid. unfold validate. cbn [get prop]. simpl.
  rewrite !obj_get_set_ne by done. rewrite obj_get_set_eq.
  destruct (truthy_json (obj_get props "id")); simpl; [|discriminate].
  destruct (truthy_json (obj_get props "question")); simpl; [|discriminate].
  destruct (truthy_json (obj_get props "options")); simpl; [|discriminate].
  destruct (isArray (obj_get props "options")); simpl; [|discriminate].
  destruct (truthy_json (obj_get props "correct_answer")); simpl; [|discriminate].
  done.
Qed.

End Cleaning.

(** [blank_explanation_is_kept] on a question whose explanation is a line
    break. *)
Lemma line_break_explanation_is_kept :
  validate question_with_blank_explanation
  = Returned (true, clean_explanation question_with_blank_explanation)
  ∧ prop "explanation" (Some (clean_explanation question_with_blank_explanation))
    = Some (JString EmptyString)
  ∧ validate (clean_explanation question_with_blank_explanation)
    = Returned (false, clean_explanation question_with_blank_explanation).
Proof.
  split; [reflexivity|].
  exact (blank_explanation_is_kept
           (if question_with_blank_explanation is JObject props then props else [])
           (clean_explanation question_with_blank_explanation)
           (String LF EmptyString)
           eq_refl eq_refl eq_refl).
Defined.

(** ** Analytics and insights *)

Section Analytics.

(** X20. [getUserAnalytics] and [generateProgressReport] agree: on the
    same query results the analytics give the report's number of questions,
    accuracy and time spent, and count the concepts the report lists as
    mastered. *)
Theorem analytics_agree_with_report (userId : string) (reportType : report_type_t)
    (chapterId : option string)
    (attempts : option (list QuestionAttempt))
    (sessions : option (list StudySession))
    (mastery : option (list (string * string * string * ConceptMastery))) :
  let report :=
    assembleProgressReport userId reportType chapterId attempts sessions mastery in
  let analytics := analytics_of attempts sessions mastery in
  totalQuestions analytics = questions_attempted report
  ∧ an_accuracy analytics = accuracy_percentage report
  ∧ totalStudyTime analytics = time_spent_minutes report
  ∧ conceptsMastered analytics = jslength (concepts_mastered report)
  ∧ 0 ≤ correctAnswers analytics ≤ totalQuestions analytics.
Proof.
  cbv zeta. unfold assembleProgressReport, analytics_of.
  cbn [totalQuestions an_accuracy totalStudyTime conceptsMastered correctAnswers
       questions_attempted accuracy_percentage time_spent_minutes concepts_mastered].
  split; [done|]. split.
  { unfold accuracyPercentage_of, correctAttempts_of, totalAttempts_of.
    rewrite !or_zero_id. destruct attempts as [a|]; simpl; [|done].
    destruct a as [|x a]; [done|].
    replace (jslength (x :: a) =? 0) with false
      by (symmetry; apply Z.eqb_neq; unfold jslength; simpl; lia).
    replace (0 <? jslength (x :: a)) with true
      by (symmetry; apply Z.ltb_lt; unfold jslength; simpl; lia).
    done. }
  split; [done|]. split.
  { rewrite or_zero_id. destruct mastery as [m|]; simpl; [|done].
    unfold jslength. by rewrite length_map. }
  rewrite !or_zero_id. destruct attempts as [a|]; simpl; [|lia].
  unfold jslength. pose proof (length_filter (λ a, is_correct a = true) a). lia.
Qed.

(** X21. [generateAIInsights] never throws.  When the fetch resolved, the
    body is JSON and [candidates[0].content.parts[0].text] is a string that
    is not empty, it returns that text trimmed; in every other case it
    returns its fixed sentence. *)
Theorem insights_never_fail (reply : outcome response) :
  generateAIInsights reply
  = Returned (match insight_text reply with
              | Some text => trim text
              | None => default_insights
              end).
Proof.
  unfold generateAIInsights, insight_text, reply_text.
  destruct reply as [response|e]; [|done]. cbn [mbind outcome_bind try_catch].
  destruct (body_json response) as [data|e]; [|done].
  cbn [mbind outcome_bind try_catch].
  destruct (prop "text" _) as [text|]; [|done].
  destruct text as [|b|q|s|items|props]; cbn [truthy_json]; try done.
  - by destruct b.
  - by destruct (Qeq_bool q 0).
  - by destruct (String.eqb s EmptyString).
Qed.

End Analytics.

(** The trimmed text can be empty: a reply of white space gives empty
    insights, not the fixed sentence. *)
Example blank_reply_gives_empty_insights :
  generateAIInsights (gemini_reply (JString "   ")) = Returned EmptyString.
Proof. reflexivity. Qed.

(** ** An array inside the oracle's text *)

Section Framed.

Lemma length_append s1 s2 :
  String.length (s1 +:+ s2) = (String.length s1 + String.length s2)%nat.
Proof.
  induction s1 as [|a s1 IH]; [done|].
  rewrite append_cons. simpl. by rewrite IH.
Qed.

Lemma includes_cons_false a s c :
  includes (String a s) c = false ↔ a ≠ c ∧ includes s c = false.
Proof.
  simpl. rewrite orb_false_iff. split.
  - intros [Ha Hs]. split; [|done]. by apply Ascii.eqb_neq.
  - intros [Ha Hs]. split; [|done]. by apply Ascii.eqb_neq.
Qed.

Lemma indexOf_from_framed pre o rest i :
  includes pre o = false →
  indexOf_from (pre +:+ String o rest) o i = Z.of_nat (i + String.length pre).
Proof.
  revert i. induction pre as [|a pre IH]; intros i Hpre.
  - rewrite append_nil_l. simpl. rewrite Ascii.eqb_refl. f_equal. lia.
  - apply includes_cons_false in Hpre as [Ha Hpre].
    rewrite append_cons. simpl.
    apply Ascii.eqb_neq in Ha. rewrite Ha, IH by done. f_equal. lia.
Qed.

Lemma lastIndexOf_from_absent s c i found :
  includes s c = false → lastIndexOf_from s c i found = found.
Proof.
  revert i found. induction s as [|a s IH]; intros i found Hs; [done|].
  apply includes_cons_false in Hs as [Ha Hs]. simpl.
  apply Ascii.eqb_neq in Ha. rewrite Ha. by apply IH.
Qed.

Lemma lastIndexOf_from_framed s c post i found :
  includes post c = false →
  lastIndexOf_from (s +:+ String c post) c i found = Z.of_nat (i + String.length s).
Proof.
  intros Hpost. revert i found. induction s as [|a s IH]; intros i found.
  - rewrite append_nil_l. simpl. rewrite Ascii.eqb_refl.
    rewrite lastIndexOf_from_absent by done. f_equal. lia.
  - rewrite append_cons. simpl. rewrite IH. f_equal. lia.
Qed.

Lemma substring_prefix body post :
  String.substring 0 (String.length body) (body +:+ post) = body.
Proof.
  induction body as [|a body IH].
  - rewrite append_nil_l. by destruct post.
  - rewrite append_cons. simpl. by rewrite IH.
Qed.

Lemma substring_framed pre body post :
  String.substring (String.length pre) (String.length body) (pre +:+ body +:+ post)
  = body.
Proof.
  induction pre as [|a pre IH].
  - rewrite append_nil_l. apply substring_prefix.
  - rewrite append_cons. simpl. apply IH.
Qed.

(** The substring from the first [[] to the last []] of a text that frames
    an array is that array. *)
Lemma framed_extract mid s :
  framed "[" "]" mid s →
  indexOf s "[" ≠ -1
  ∧ lastIndexOf s "]" ≠ -1
  ∧ indexOf s "[" < lastIndexOf s "]"
  ∧ substring s (indexOf s "[") (lastIndexOf s "]" + 1) = array_text mid.
Proof.
  intros (pre & post & -> & Hpre & Hpost).
  unfold indexOf, lastIndexOf.
  rewrite indexOf_from_framed by done.
  replace (pre +:+ String "[" (mid +:+ String "]" post))
    with ((pre +:+ String "[" mid) +:+ String "]" post)
    by (by rewrite <- !append_assoc, !append_cons).
  rewrite lastIndexOf_from_framed by done.
  rewrite length_append. cbn [String.length].
  split; [lia|]. split; [lia|]. split; [lia|].
  unfold substring.
  replace (Z.to_nat (Z.of_nat (0 + String.length pre))) with (String.length pre)
    by lia.
  replace (Z.to_nat (Z.of_nat (0 + (String.length pre + S (String.length mid))) + 1
                     - Z.of_nat (0 + String.length pre)))
    with (String.length (array_text mid))
    by (unfold array_text; cbn [String.length]; rewrite length_append; simpl; lia).
  replace ((pre +:+ String "[" mid) +:+ String "]" post)
    with (pre +:+ array_text mid +:+ post).
  - apply substring_framed.
  - unfold array_text.
    by rewrite <- ?append_assoc, ?append_cons, <- ?append_assoc, ?append_cons.
Qed.

Lemma framed_rev o c mid s :
  framed o c mid s → framed c o (String.rev mid) (String.rev s).
Proof.
  intros (pre & post & -> & Hpre & Hpost).
  exists (String.rev post), (String.rev pre).
  rewrite !includes_rev. split; [|done].
  rewrite rev_append, rev_cons, rev_append, rev_cons.
  by rewrite <- !append_assoc, !append_cons, !append_nil_l.
Qed.

Lemma framed_unrev o c mid s :
  framed c o (String.rev mid) (String.rev s) → framed o c mid s.
Proof.
  intros H%framed_rev. by rewrite !rev_involutive in H.
Qed.

Lemma framed_strip_white w2 w3 o c mid s :
  (∀ a b, w2 a b = true → high a = true ∧ high b = true) →
  (∀ a b c, w3 a b c = true → high a = true ∧ high b = true ∧ high c = true) →
  solid o = true →
  framed o c mid s → framed o c mid (strip_white w2 w3 s).
Proof.
  intros Hw2 Hw3 Ho (pre & post & -> & Hpre & Hpost).
  destruct (strip_white_stop w2 w3 Hw2 Hw3 o pre (mid +:+ String c post) Ho)
    as (p & pre' & Hx & ->).
  exists pre', post. split; [done|]. split; [|done].
  rewrite Hx, includes_append in Hpre. by apply orb_false_iff in Hpre as [_ ?].
Qed.

Lemma framed_trimStart o c mid s :
  solid o = true → framed o c mid s → framed o c mid (trimStart s).
Proof. apply framed_strip_white; [apply white2_high | apply white3_high]. Qed.

Lemma framed_trim mid s :
  framed "[" "]" mid s → framed "[" "]" mid (trim s).
Proof.
  intros H. unfold trim, trimEnd.
  apply framed_unrev. rewrite rev_involutive.
  apply framed_strip_white;
    [apply white2_back_high | apply white3_back_high | done |].
  apply framed_rev. by apply framed_trimStart.
Qed.

Lemma framed_drop_leading_backticks o c mid s :
  o ≠ "`"%char → framed o c mid s → framed o c mid (drop_leading_backticks s).
Proof.
  intros Ho (pre & post & -> & Hpre & Hpost).
  induction pre as [|a pre IH].
  - rewrite append_nil_l. cbn [drop_leading_backticks].
    apply Ascii.eqb_neq in Ho. rewrite Ho. by exists EmptyString, post.
  - apply includes_cons_false in Hpre as [Ha Hpre].
    rewrite append_cons. cbn [drop_leading_backticks].
    destruct (Ascii.eqb a "`"); [by apply IH|].
    exists (String a pre), post. rewrite append_cons.
    split; [done|]. split; [by apply includes_cons_false | done].
Qed.

Lemma framed_strip_prefix o c mid p s rest :
  includes p o = false →
  strip_prefix p s = Some rest →
  framed o c mid s → framed o c mid rest.
Proof.
  revert s. induction p as [|a p IH]; intros s Hp Hstrip Hs.
  - destruct s; by injection Hstrip as <-.
  - apply includes_cons_false in Hp as [Ha Hp].
    destruct Hs as (pre & post & -> & Hpre & Hpost).
    destruct pre as [|b pre].
    + rewrite append_nil_l in Hstrip. simpl in Hstrip.
      apply Ascii.eqb_neq in Ha. by rewrite Ha in Hstrip.
    + apply includes_cons_false in Hpre as [Hb Hpre].
      rewrite append_cons in Hstrip. simpl in Hstrip.
      destruct (Ascii.eqb a b); [|done].
      apply (IH _ Hp Hstrip). by exists pre, post.
Qed.

Lemma framed_strip_prefix_ci o c mid p s rest :
  Forall (λ a, lower a ≠ lower o) (String.list_ascii_of_string p) →
  strip_prefix_ci p s = Some rest →
  framed o c mid s → framed o c mid rest.
Proof.
  revert s. induction p as [|a p IH]; intros s Hp Hstrip Hs.
  - destruct s; by injection Hstrip as <-.
  - simpl in Hp. apply Forall_cons in Hp as [Ha Hp].
    destruct Hs as (pre & post & -> & Hpre & Hpost).
    destruct pre as [|b pre].
    + rewrite append_nil_l in Hstrip. simpl in Hstrip.
      apply Ascii.eqb_neq in Ha. by rewrite Ha in Hstrip.
    + apply includes_cons_false in Hpre as [Hb Hpre].
      rewrite append_cons in Hstrip. simpl in Hstrip.
      destruct (Ascii.eqb (lower a) (lower b)); [|done].
      apply (IH _ Hp Hstrip). by exists pre, post.
Qed.

Lemma framed_replace_leading mid fence s :
  Forall (λ a, lower a ≠ "["%char) (String.list_ascii_of_string fence) →
  framed "[" "]" mid s → framed "[" "]" mid (replace_leading fence s).
Proof.
  intros Hfence Hs. unfold replace_leading.
  destruct (strip_prefix_ci fence s) as [rest|] eqn:Hstrip; [|done].
  apply framed_trimStart; [done|].
  by apply (framed_strip_prefix_ci _ _ _ fence s).
Qed.

Lemma framed_replace_trailing mid s :
  framed "[" "]" mid s → framed "[" "]" mid (replace_trailing "```" s).
Proof.
  intros Hs. unfold replace_trailing.
  destruct (strip_prefix_ci _ _) as [rest|] eqn:Hstrip; [|done].
  apply framed_unrev. rewrite rev_involutive.
  apply (framed_strip_prefix_ci _ _ _ (String.rev "```") (String.rev s));
    [|done|by apply framed_rev].
  repeat constructor; by vm_compute.
Qed.

End Framed.

Section FramedArray.

Variable JSON_parse : string → outcome json.

Lemma framed_intro pre mid post :
  includes pre "[" = false →
  includes post "]" = false →
  framed "[" "]" mid (pre +:+ array_text mid +:+ post).
Proof.
  intros Hpre Hpost. exists pre, post. split; [|done].
  unfold array_text. by rewrite !append_cons, <- append_assoc, append_cons.
Qed.

Lemma framed_nonempty o c mid s : framed o c mid s → s ≠ EmptyString.
Proof. intros (pre & post & -> & _). by destruct pre. Qed.

Lemma framed_brackets mid s :
  framed "[" "]" mid s →
  (indexOf s "[" =? -1) || (lastIndexOf s "]" =? -1)
  || (lastIndexOf s "]" <=? indexOf s "[") = false.
Proof.
  intros (Hfirst & Hlast & Horder & _)%framed_extract.
  rewrite !orb_false_iff, !Z.eqb_neq, Z.leb_gt. done.
Qed.

(** X22. The Groq revision of [generateDiagnosticTest] returns the
    oracle's questions when the oracle answers with an array: for a served
    reply whose content holds an array text, after any text without an
    opening bracket and before any text without a closing bracket, code
    fences included, the result is the first 30 of the parsed questions that
    pass the field check, with their explanations cleaned.  When the parsed
    array holds a [null], or no question of it passes, the result is the
    fallback bank. *)
Theorem framed_array_is_returned (classLevel : Z) (response : response)
    (data : json) (pre mid post : string) (items : list json) :
  ok response = true →
  body_json response = Returned data →
  reply_text Groq data = Some (JString (pre +:+ array_text mid +:+ post)) →
  includes pre "[" = false →
  includes post "]" = false →
  JSON_parse (array_text mid) = Returned (JArray items) →
  generateDiagnosticTest JSON_parse classLevel (Returned response)
  = Done (if existsb is_null items
          then generateFallbackDiagnosticQuestions classLevel
          else
            match clean_explanation <$> filter (λ q, passes q = true) items with
            | [] => generateFallbackDiagnosticQuestions classLevel
            | q :: valid => take 30 (q :: valid)
            end).
Proof.
  intros Hok Hdata Htext Hpre Hpost Hparse.
  pose proof (framed_intro pre mid post Hpre Hpost) as Hframed.
  set (content := pre +:+ array_text mid +:+ post) in *.
  unfold generateDiagnosticTest. cbn [await mbind tried_bind].
  rewrite Hok. cbn [negb]. rewrite Hdata. cbn [await mbind tried_bind].
  change (prop "content" (prop "message" (at0 (prop "choices" (Some data)))))
    with (reply_text Groq data).
  rewrite Htext. cbn [truthy_json call_trim await].
  destruct (String.eqb_spec content EmptyString) as [Hempty|_];
    [by apply framed_nonempty in Hframed|].
  cbn [negb mbind tried_bind].
  apply framed_trim in Hframed.
  set (rawText := match strip_prefix "```json" (trim content) with
                  | Some rest => trim (replace_trailing "```" rest)
                  | None =>
                      match strip_prefix "```" (trim content) with
                      | Some rest => trim (replace_trailing "```" rest)
                      | None => trim content
                      end
                  end).
  assert (framed "[" "]" mid rawText) as Hraw.
  { unfold rawText.
    destruct (strip_prefix "```json" (trim content)) as [rest|] eqn:Hjson.
    - apply framed_trim, framed_replace_trailing.
      by apply (framed_strip_prefix _ _ _ "```json" (trim content)).
    - destruct (strip_prefix "```" (trim content)) as [rest|] eqn:Hfence; [|done].
      apply framed_trim, framed_replace_trailing.
      by apply (framed_strip_prefix _ _ _ "```" (trim content)). }
  rewrite (framed_brackets mid rawText Hraw).
  destruct (framed_extract mid rawText Hraw) as (_ & _ & _ & ->).
  rewrite Hparse. cbn [await try_catch_raised mbind tried_bind].
  rewrite filter_valid_spec.
  destruct items as [|q items]; [done|].
  replace (jslength (q :: items) =? 0) with false
    by (symmetry; apply Z.eqb_neq; unfold jslength; simpl; lia).
  destruct (existsb is_null (q :: items)); [done|].
  cbn [await mbind tried_bind].
  destruct (clean_explanation <$> filter (λ q, passes q = true) (q :: items))
    as [|q' valid]; [done|].
  replace (jslength (q' :: valid) =? 0) with false
    by (symmetry; apply Z.eqb_neq; unfold jslength; simpl; lia).
  done.
Qed.

(** X23. The Gemini revision of [generateDiagnosticTest] returns the
    oracle's questions when the oracle answers with an array: for a reply
    whose text holds an array text, after any text without an opening
    bracket and before any text without a closing bracket, code fences
    included, the result is the first 30 elements of the parsed array as
    they are. *)
Theorem framed_array_is_returned_gemini (classLevel : Z) (response : response)
    (data : json) (pre mid post : string) (items : list json) :
  body_json response = Returned data →
  reply_text Gemini data = Some (JString (pre +:+ array_text mid +:+ post)) →
  includes pre "[" = false →
  includes post "]" = false →
  JSON_parse (array_text mid) = Returned (JArray items) →
  items ≠ [] →
  generateDiagnosticTest_gemini JSON_parse classLevel (Returned response)
  = Done (take 30 items).
Proof.
  intros Hdata Htext Hpre Hpost Hparse Hitems.
  pose proof (framed_intro pre mid post Hpre Hpost) as Hframed.
  set (content := pre +:+ array_text mid +:+ post) in *.
  unfold generateDiagnosticTest_gemini. cbn [await mbind tried_bind].
  rewrite Hdata. cbn [await mbind tried_bind].
  change (prop "text" (at0 (prop "parts" (prop "content"
            (at0 (prop "candidates" (Some data)))))))
    with (reply_text Gemini data).
  rewrite Htext. cbn [truthy_json call_trim await].
  destruct (String.eqb_spec content EmptyString) as [Hempty|_];
    [by apply framed_nonempty in Hframed|].
  cbn [negb mbind tried_bind].
  set (rawText := drop_trailing_backticks _).
  assert (framed "[" "]" mid rawText) as Hraw.
  { unfold rawText, drop_trailing_backticks.
    apply framed_unrev. rewrite rev_involutive.
    apply framed_drop_leading_backticks; [done|]. apply framed_rev.
    apply framed_drop_leading_backticks; [done|].
    apply framed_trim, framed_replace_trailing.
    apply framed_replace_leading; [repeat constructor; by vm_compute|].
    apply framed_replace_leading; [repeat constructor; by vm_compute|].
    by apply framed_trim. }
  destruct (framed_extract mid rawText Hraw) as (Hfirst & _ & Horder & Hsub).
  unfold match_array.
  replace (indexOf rawText "[" =? -1) with false by (symmetry; by apply Z.eqb_neq).
  replace (indexOf rawText "[" <? lastIndexOf rawText "]") with true
    by (symmetry; by apply Z.ltb_lt).
  cbn [negb andb default from_option id]. rewrite Hsub, Hparse.
  cbn [await mbind tried_bind].
  replace (jslength items =? 0) with false
    by (symmetry; apply Z.eqb_neq; destruct items; [done | unfold jslength; simpl; lia]).
  done.
Qed.

(** X24. The Groq revision of [generateRecommendations] returns the
    oracle's recommendations as they are: for a served reply whose content
    holds an array text, after any text without an opening bracket and
    before any text without a closing bracket, the result is the parsed
    array. *)
Theorem framed_recommendations_are_returned (e : emoji)
    (strengths weaknesses gaps : list string) (score totalQuestions : Z)
    (response : response) (data : json) (pre mid post : string)
    (items : list json) :
  ok response = true →
  body_json response = Returned data →
  reply_text Groq data = Some (JString (pre +:+ array_text mid +:+ post)) →
  includes pre "[" = false →
  includes post "]" = false →
  JSON_parse (array_text mid) = Returned (JArray items) →
  generateRecommendations JSON_parse e strengths weaknesses gaps score totalQuestions
    (Returned response)
  = Returned items.
Proof.
  intros Hok Hdata Htext Hpre Hpost Hparse.
  pose proof (framed_intro pre mid post Hpre Hpost) as Hframed.
  set (content := pre +:+ array_text mid +:+ post) in *.
  unfold generateRecommendations. cbn [mbind outcome_bind].
  rewrite Hok, Hdata. cbn [mbind outcome_bind].
  change (prop "content" (prop "message" (at0 (prop "choices" (Some data)))))
    with (reply_text Groq data).
  rewrite Htext. cbn [truthy_json call_trim].
  destruct (String.eqb_spec content EmptyString) as [Hempty|_];
    [by apply framed_nonempty in Hframed|].
  cbn [negb mbind outcome_bind].
  apply framed_trim in Hframed.
  destruct (framed_extract mid (trim content) Hframed)
    as (Hfirst & Hlast & Horder & Hsub).
  replace (indexOf (trim content) "[" =? -1) with false
    by (symmetry; by apply Z.eqb_neq).
  replace (lastIndexOf (trim content) "]" =? -1) with false
    by (symmetry; by apply Z.eqb_neq).
  replace (indexOf (trim content) "[" <? lastIndexOf (trim content) "]") with true
    by (symmetry; by apply Z.ltb_lt).
  cbn [negb andb]. rewrite Hsub, Hparse. done.
Qed.

End FramedArray.

(** [framed_array_is_returned] on a fenced array with a sentence before
    it. *)
Lemma fenced_array_is_returned :
  generateDiagnosticTest parse_sample 9
    (Returned (groq_reply (JString fenced_text)))
  = Done [question_json (sample_question "diag_1" "Fractions" "Addition of fractions")].
Proof.
  exact (framed_array_is_returned parse_sample 9
           (groq_reply (JString fenced_text))
           (JObject [("choices",
              JArray [JObject [("message",
                JObject [("content", JString fenced_text)])]])])
           ("Here is the list:" +:+ String LF "```json" +:+ String LF EmptyString)
           "..." (String LF "```")
           [question_json (sample_question "diag_1" "Fractions" "Addition of fractions")]
           eq_refl eq_refl eq_refl eq_refl eq_refl eq_refl).
Defined.

(** [framed_array_is_returned_gemini] on the same text. *)
Lemma fenced_array_is_returned_gemini :
  generateDiagnosticTest_gemini parse_sample 9
    (Returned (gemini_response (JString fenced_text)))
  = Done [question_json (sample_question "diag_1" "Fractions" "Addition of fractions")].
Proof.
  exact (framed_array_is_returned_gemini parse_sample 9
           (gemini_response (JString fenced_text))
           (JObject [("candidates",
              JArray [JObject [("content",
                JObject [("parts",
                  JArray [JObject [("text", JString fenced_text)]])])]])])
           ("Here is the list:" +:+ String LF "```json" +:+ String LF EmptyString)
           "..." (String LF "```")
           [question_json (sample_question "diag_1" "Fractions" "Addition of fractions")]
           eq_refl eq_refl eq_refl eq_refl eq_refl
           (λ H, eq_ind [] (λ l, if l is [] then True else False) I _ (eq_sym H))).
Defined.

(** [framed_recommendations_are_returned] on the same text. *)
Lemma fenced_recommendations_are_returned :
  generateRecommendations parse_tip emoji_groq ["Fractions"] ["Algebra"] [] 1 2
    (Returned (groq_reply (JString fenced_text)))
  = Returned [JString "Practise fractions for ten minutes a day."].
Proof.
  exact (framed_recommendations_are_returned parse_tip emoji_groq
           ["Fractions"] ["Algebra"] [] 1 2
           (groq_reply (JString fenced_text))
           (JObject [("choices",
              JArray [JObject [("message",
                JObject [("content", JString fenced_text)])]])])
           ("Here is the list:" +:+ String LF "```json" +:+ String LF EmptyString)
           "..." (String LF "```")
           [JString "Practise fractions for ten minutes a day."]
           eq_refl eq_refl eq_refl eq_refl eq_refl eq_refl).
Defined.

(** ** Code fences *)

Section Fences.

Variable JSON_parse : string → outcome json.

Lemma strip_prefix_ci_append p rest : strip_prefix_ci p (p +:+ rest) = Some rest.
Proof.
  induction p as [|a p IH].
  - rewrite append_nil_l. by destruct rest.
  - rewrite append_cons. simpl. by rewrite Ascii.eqb_refl.
Qed.

Lemma trim_core outer1 a core outer2 :
  blank outer1 = true → blank outer2 = true →
  solid a = true →
  trimEnd (String a core) = String a core →
  trim (outer1 +:+ String a core +:+ outer2) = String a core.
Proof.
  intros Ho1 Ho2 Ha Hend. unfold trim.
  rewrite trimStart_blank by done.
  rewrite append_cons, trimStart_solid by done.
  rewrite <- append_cons. by rewrite trimEnd_blank.
Qed.

Lemma trimEnd_array mid : trimEnd (array_text mid) = array_text mid.
Proof.
  change (array_text mid) with (String "[" mid +:+ "]"). by apply trimEnd_solid.
Qed.

Lemma replace_leading_fence fence ws a rest :
  blank ws = true → solid a = true →
  replace_leading fence (fence +:+ ws +:+ String a rest) = String a rest.
Proof.
  intros Hws Ha. unfold replace_leading.
  rewrite strip_prefix_ci_append, trimStart_blank by done.
  by apply trimStart_solid.
Qed.

Lemma replace_trailing_fence s :
  replace_trailing "```" (s +:+ "```") = s.
Proof.
  unfold replace_trailing. rewrite rev_append.
  change (String.rev "```") with "```".
  by rewrite strip_prefix_ci_append, rev_involutive.
Qed.

(** The three replacements and the two trims of the Gemini revision take a
    fenced array text to the array text. *)
Lemma unfence outer1 ws1 mid ws2 outer2 :
  blank outer1 = true → blank ws1 = true → blank ws2 = true → blank outer2 = true →
  trim (replace_trailing "```"
          (replace_leading "```"
             (replace_leading "```json" (trim (fenced outer1 ws1 mid ws2 outer2)))))
  = array_text mid.
Proof.
  intros Ho1 Hw1 Hw2 Ho2. unfold fenced.
  set (inside := ws1 +:+ array_text mid +:+ ws2 +:+ "```").
  assert (trim (outer1 +:+ ("```json" +:+ inside) +:+ outer2) = "```json" +:+ inside)
    as ->.
  { apply (trim_core outer1 "`" ("``json" +:+ inside) outer2); try done.
    unfold inside.
    replace (String "`" ("``json" +:+ ws1 +:+ array_text mid +:+ ws2 +:+ "```"))
      with (("```json" +:+ ws1 +:+ array_text mid +:+ ws2 +:+ "``") +:+ "`").
    - by apply trimEnd_solid.
    - by rewrite <- !append_assoc. }
  unfold inside.
  change (array_text mid +:+ ws2 +:+ "```")
    with (String "[" ((mid +:+ "]") +:+ ws2 +:+ "```")).
  rewrite replace_leading_fence by done.
  change (replace_leading "```" (String "[" ((mid +:+ "]") +:+ ws2 +:+ "```")))
    with (String "[" ((mid +:+ "]") +:+ ws2 +:+ "```")).
  change (String "[" ((mid +:+ "]") +:+ ws2 +:+ "```"))
    with (array_text mid +:+ ws2 +:+ "```").
  rewrite append_assoc, replace_trailing_fence.
  replace (array_text mid +:+ ws2)
    with (EmptyString +:+ array_text mid +:+ ws2) by done.
  apply (trim_core EmptyString "[" (mid +:+ "]") ws2); try done.
  apply trimEnd_array.
Qed.

(** X25. The Gemini revision of [generateRecommendations] returns the
    oracle's recommendations as they are when the reply's text is an array
    text inside a json code fence, with nothing but white space around the
    fence and around the array. *)
Theorem fenced_recommendations_are_returned_gemini (e : emoji)
    (strengths weaknesses gaps : list string) (score totalQuestions : Z)
    (response : response) (data : json) (outer1 ws1 mid ws2 outer2 : string)
    (items : list json) :
  body_json response = Returned data →
  reply_text Gemini data = Some (JString (fenced outer1 ws1 mid ws2 outer2)) →
  blank outer1 = true →
  blank ws1 = true →
  blank ws2 = true →
  blank outer2 = true →
  JSON_parse (array_text mid) = Returned (JArray items) →
  generateRecommendations_gemini JSON_parse e strengths weaknesses gaps score
    totalQuestions (Returned response)
  = Returned items.
Proof.
  intros Hdata Htext Ho1 Hw1 Hw2 Ho2 Hparse.
  unfold generateRecommendations_gemini. cbn [mbind outcome_bind].
  rewrite Hdata. cbn [mbind outcome_bind].
  change (prop "text" (at0 (prop "parts" (prop "content"
            (at0 (prop "candidates" (Some data)))))))
    with (reply_text Gemini data).
  rewrite Htext. cbn [truthy_json call_trim].
  destruct (String.eqb_spec (fenced outer1 ws1 mid ws2 outer2) EmptyString)
    as [Hempty|_].
  { unfold fenced in Hempty. destruct outer1; discriminate. }
  cbn [negb mbind outcome_bind].
  rewrite unfence by done. rewrite Hparse. done.
Qed.

End Fences.

(** [fenced_recommendations_are_returned_gemini] on a fenced array with
    line breaks around it. *)
Lemma fenced_tip_is_returned_gemini :
  generateRecommendations_gemini parse_tip emoji_gemini ["Fractions"] ["Algebra"] []
    1 2
    (Returned (gemini_response
                 (JString (fenced EmptyString (String LF EmptyString) "..."
                             (String LF EmptyString) (String LF EmptyString)))))
  = Returned [JString "Practise fractions for ten minutes a day."].
Proof.
  exact (fenced_recommendations_are_returned_gemini parse_tip emoji_gemini
           ["Fractions"] ["Algebra"] [] 1 2
           (gemini_response
              (JString (fenced EmptyString (String LF EmptyString) "..."
                          (String LF EmptyString) (String LF EmptyString))))
           (JObject [("candidates",
              JArray [JObject [("content",
                JObject [("parts",
                  JArray [JObject [("text",
                    JString (fenced EmptyString (String LF EmptyString) "..."
                               (String LF EmptyString) (String LF EmptyString)))]])])]])])
           EmptyString (String LF EmptyString) "..."
           (String LF EmptyString) (String LF EmptyString)
           [JString "Practise fractions for ten minutes a day."]
           eq_refl eq_refl eq_refl eq_refl eq_refl eq_refl eq_refl).
Defined.

(** ** White space beyond ASCII *)

(** [trim] removes the no-break space, the byte order mark and the line
    separator like the white space of one byte. *)
Example trim_strips_unicode_white_space :
  trim (no_break_space +:+ byte_order_mark +:+ " [1]" +:+ line_separator +:+ " "
          +:+ no_break_space)
  = "[1]".
Proof. reflexivity. Qed.

(** A no-break space between the fence and the array is removed with the
    fence: the Gemini revision of [generateRecommendations] returns the
    oracle's array, here the empty one. *)
Example no_break_space_after_the_fence :
  generateRecommendations_gemini parse_empty_array emoji_gemini [] [] [] 0 0
    (gemini_reply (JString ("```json" +:+ no_break_space +:+ "[]" +:+ "```")))
  = Returned [].
Proof. reflexivity. Qed.
